(** * Unreal Engine docset generator: entry extraction pipeline

    A shallow embedding of [unreal_engine_docset.py] and the properties of
    its reader, classifier, collectors, page processor, docset processor
    and manifest mapping.

    Conventions.
    - Python exceptions are the constructors of [exn]; a call either
      returns ([Ok]) or raises ([Raise]).
    - Code that touches the file system, sleeps or mutates the page runs in
      the monad [M]: it reads a [World] (what the file system answers) and
      threads a [St] (a clock of read attempts and the trace of effects).
    - A parsed page is a [node]; elements carry a [uid] that plays the role
      of the identity of an lxml element object.
    - Library functions whose behaviour depends on arbitrary data
      ([re.search] on a pattern built from the page title, lxml's
      [rewrite_links]) are variables of the section [Pipeline]. *)

From Stdlib Require Import Ascii String List Arith NArith Lia Permutation Sorted.
From stdpp Require Import base list strings countable gmap.

Local Open Scope string_scope.
Local Open Scope list_scope.

(* ===================================================================== *)
(** * Strings as Python uses them *)
(* ===================================================================== *)

Module Str.

(** [needle in hay] *)
Fixpoint contains (needle hay : string) : bool :=
  String.prefix needle hay ||
  match hay with
  | EmptyString => false
  | String _ rest => contains needle rest
  end.

Definition is_upper (c : ascii) : bool :=
  (65 <=? nat_of_ascii c)%nat && (nat_of_ascii c <=? 90)%nat.
Definition is_lower (c : ascii) : bool :=
  (97 <=? nat_of_ascii c)%nat && (nat_of_ascii c <=? 122)%nat.
Definition to_lower (c : ascii) : ascii :=
  if is_upper c then ascii_of_nat (nat_of_ascii c + 32) else c.
Definition to_upper (c : ascii) : ascii :=
  if is_lower c then ascii_of_nat (nat_of_ascii c - 32) else c.

(** [s.lower()] on ASCII text *)
Fixpoint lower (s : string) : string :=
  match s with
  | EmptyString => EmptyString
  | String c rest => String (to_lower c) (lower rest)
  end.

(** [s.title()] on ASCII text: the first letter of every run of letters
    is upper-cased, the others are lower-cased. *)
Fixpoint title_from (after_letter : bool) (s : string) : string :=
  match s with
  | EmptyString => EmptyString
  | String c rest =>
      let letter := is_upper c || is_lower c in
      String (if after_letter then to_lower c else to_upper c)
             (title_from letter rest)
  end.
Definition title (s : string) : string := title_from false s.

Definition quot : string := String (ascii_of_nat 34) EmptyString.
Definition newline : ascii := ascii_of_nat 10.
Definition backslash : ascii := ascii_of_nat 92.

(** [html.escape(s)] with its default [quote=True]. *)
Definition escape_char (c : ascii) : string :=
  match nat_of_ascii c with
  | 38 => "&amp;"
  | 60 => "&lt;"
  | 62 => "&gt;"
  | 34 => "&quot;"
  | 39 => "&#x27;"
  | _ => String c EmptyString
  end.
Fixpoint escape (s : string) : string :=
  match s with
  | EmptyString => EmptyString
  | String c rest => escape_char c +:+ escape rest
  end.

(** [s.split("::")]: the separators are found left to right and do not
    overlap. [cur] is the segment being read. *)
Fixpoint split_colons_from (cur s : string) : list string :=
  match s with
  | EmptyString => [cur]
  | String ":" (String ":" rest) => cur :: split_colons_from EmptyString rest
  | String c rest => split_colons_from (cur +:+ String c EmptyString) rest
  end.
Definition split_colons (s : string) : list string :=
  split_colons_from EmptyString s.

(** [s.split("::")[-1]] *)
Definition last_segment (s : string) : string :=
  List.last (split_colons s) EmptyString.

(** [str(n)] for a natural number. *)
Definition digit (n : nat) : string :=
  String (ascii_of_nat (48 + n)) EmptyString.
Fixpoint of_nat_fuel (fuel n : nat) : string :=
  match fuel with
  | 0 => digit (n mod 10)
  | S fuel' =>
      if (n <? 10)%nat then digit n
      else of_nat_fuel fuel' (n / 10) +:+ digit (n mod 10)
  end.
Definition of_nat (n : nat) : string := of_nat_fuel n n.

(** [str(x)] inside an f-string, for a value that may be [None]. *)
Definition of_optional (o : option string) : string :=
  match o with
  | Some s => s
  | None => "None"
  end.

End Str.

(* ===================================================================== *)
(** * Paths *)
(* ===================================================================== *)

Module PathLib.

(** The match of [re.sub(r"\\?/?index.html$", "", parent)], read on the
    reversed text. The pattern is anchored at the end of the text ([$]
    also matches just before a final newline), its [.] is any character
    but a newline, and the leftmost match takes the optional [/] and the
    optional backslash before it. *)
Definition strip_slashes_rev (r : list ascii) : list ascii :=
  let r1 := match r with
            | "/"%char :: r' => r'
            | _ => r
            end in
  match r1 with
  | c :: r' => if Ascii.eqb c Str.backslash then r' else r1
  | [] => r1
  end.

Definition strip_index_rev (r : list ascii) : option (list ascii) :=
  match r with
  | "l"%char :: "m"%char :: "t"%char :: "h"%char :: dot ::
    "x"%char :: "e"%char :: "d"%char :: "n"%char :: "i"%char :: r' =>
      if Ascii.eqb dot Str.newline then None else Some (strip_slashes_rev r')
  | _ => None
  end.

Definition strip_index (s : string) : string :=
  let r := rev (list_ascii_of_string s) in
  let '(nl, body) :=
    match r with
    | c :: r' => if Ascii.eqb c Str.newline then ([c], r') else ([], r)
    | [] => ([], r)
    end in
  match strip_index_rev body with
  | Some r' => string_of_list_ascii (rev r' ++ nl)
  | None => s
  end.

(** [join_path(parent, name)] *)
Definition join_path (parent name : string) : string :=
  let parent := strip_index parent in
  parent +:+ "/" +:+ name.

(** [Path(p).parent] for a relative path written with forward slashes
    and no redundant separators, as [glob] gives it. *)
Fixpoint split_last_slash (s : string) : option (string * string) :=
  match s with
  | EmptyString => None
  | String c rest =>
      match split_last_slash rest with
      | Some (d, n) => Some (String c d, n)
      | None => if Ascii.eqb c "/" then Some (EmptyString, rest) else None
      end
  end.

Definition parent (p : string) : string :=
  match split_last_slash p with
  | Some (EmptyString, _) => "/"
  | Some (d, _) => d
  | None => "."
  end.

(** The text between the slashes of a path; [cur] is the component
    being read. *)
Fixpoint split_slashes_from (cur s : string) : list string :=
  match s with
  | EmptyString => [cur]
  | String c rest =>
      if Ascii.eqb c "/" then cur :: split_slashes_from EmptyString rest
      else split_slashes_from (cur +:+ String c EmptyString) rest
  end.

(** The components that [Path(p)] keeps: empty ones, which doubled and
    trailing slashes leave, and [.] are dropped. *)
Definition components (p : string) : list string :=
  filter (fun c => c <> EmptyString /\ c <> ".")
         (split_slashes_from EmptyString p).

(** [Path(p).name]: the last component, empty for a path without one. *)
Definition name (p : string) : string :=
  List.last (components p) EmptyString.

(** Position of the last [.] of a file name, when it starts a suffix:
    neither the first nor the last character. *)
Fixpoint split_last_dot (s : string) : option (string * string) :=
  match s with
  | EmptyString => None
  | String c rest =>
      match split_last_dot rest with
      | Some (d, n) => Some (String c d, n)
      | None => if Ascii.eqb c "." then Some (EmptyString, rest) else None
      end
  end.

(** [Path(p).stem] *)
Definition stem (p : string) : string :=
  let n := name p in
  match split_last_dot n with
  | Some (EmptyString, _) => n
  | Some (_, EmptyString) => n
  | Some (s, _) => s
  | None => n
  end.

(** [a / b] *)
Definition div (a b : string) : string :=
  match b with
  | String "/" _ => b
  | _ => if String.eqb a "." then b else a +:+ "/" +:+ b
  end.

End PathLib.

(** [enumerate(l)] *)
Definition enumerate {A : Type} (l : list A) : list (nat * A) :=
  imap (fun i x => (i, x)) l.

(* ===================================================================== *)
(** * Parsed pages *)
(* ===================================================================== *)

#[local] Set Warnings "-register-all".

(** The tree [lxml.html.fromstring] returns. An element's text and the
    tails of its children are the [Text] children of the element, in
    document order; [uid] is the identity of the element object. *)
Inductive node : Type :=
| Text (s : string)
| Elem (uid : nat) (tag : string) (attrib : list (string * string))
       (children : list node).

Module Dom.

Definition uid_of (n : node) : option nat :=
  match n with
  | Text _ => None
  | Elem u _ _ _ => Some u
  end.

Fixpoint assoc (k : string) (l : list (string * string)) : option string :=
  match l with
  | [] => None
  | (k', v) :: l' => if String.eqb k k' then Some v else assoc k l'
  end.

(** [element.attrib.get(name)] *)
Definition get (name : string) (n : node) : option string :=
  match n with
  | Text _ => None
  | Elem _ _ a _ => assoc name a
  end.

(** [element.text_content()]: the text of all descendants, joined. *)
Fixpoint text_content (n : node) : string :=
  match n with
  | Text s => s
  | Elem _ _ _ kids => String.concat "" (map text_content kids)
  end.

(** The largest identity in a tree; a new element takes the next one. *)
Fixpoint max_uid (n : node) : nat :=
  match n with
  | Text _ => 0
  | Elem u _ _ kids => foldr Nat.max u (map max_uid kids)
  end.

(** [target.addprevious(new)] among the children of one element: [new]
    becomes the sibling just before the child whose identity is
    [target]. The flag tells whether the insertion took place. *)
Fixpoint insert_before (target : nat) (new : node) (kids : list node)
  : list node * bool :=
  match kids with
  | [] => ([], false)
  | k :: kids' =>
      if bool_decide (uid_of k = Some target) then (new :: k :: kids', true)
      else let '(r, b) := insert_before target new kids' in (k :: r, b)
  end.

(** One pass over the children, left to right, that stops at the first
    child in which the insertion took place. *)
Fixpoint first_done {A} (f : A -> A * bool) (l : list A) : list A * bool :=
  match l with
  | [] => ([], false)
  | x :: l' =>
      let '(x', b) := f x in
      if b then (x' :: l', true)
      else let '(r, b') := first_done f l' in (x :: r, b')
  end.

Fixpoint add_previous_in (target : nat) (new : node) (n : node)
  : node * bool :=
  match n with
  | Text _ => (n, false)
  | Elem u t a kids =>
      let '(kids', b) := insert_before target new kids in
      if b then (Elem u t a kids', true)
      else
        let '(kids'', b') := first_done (add_previous_in target new) kids in
        (Elem u t a kids'', b')
  end.

(** [elements[i].addprevious(new)] on the page [root]. lxml refuses to
    give the root element a sibling element; [None] stands for that
    refusal (and for a target that is not in the page). *)
Definition add_previous (target : nat) (new : node) (root : node)
  : option node :=
  let '(root', b) := add_previous_in target new root in
  if b then Some root' else None.

End Dom.

(* ===================================================================== *)
(** * The XPath expressions of the program *)
(* ===================================================================== *)

Module XPath.

Inductive node_test : Type :=
| AnyNode                     (* node() *)
| TextNode                    (* text() *)
| Tag (name : string).        (* a, div, td, ... *)

Inductive predicate : Type :=
| AttrEq (a v : string)           (* [@a="v"] *)
| NotAttrEq (a v : string)        (* [not(@a="v")] *)
| AttrStartsWith (a v : string)   (* [starts-with(@a, "v")] *)
| Position (k : nat).             (* [k] *)

Inductive step : Type :=
| DescendantOrSelf                                   (* the step of // *)
| Child (t : node_test) (ps : list predicate)
| FollowingSibling (t : node_test) (ps : list predicate).

Definition expr : Type := list step.

Definition test_node (t : node_test) (n : node) : bool :=
  match t, n with
  | AnyNode, _ => true
  | TextNode, Text _ => true
  | TextNode, Elem _ _ _ _ => false
  | Tag _, Text _ => false
  | Tag name, Elem _ tg _ _ => String.eqb name tg
  end.

Definition attr_is (a v : string) (n : node) : bool :=
  match Dom.get a n with
  | Some v' => String.eqb v v'
  | None => false
  end.

(** The candidates of a step carry their position among the children of
    their parent; a predicate keeps some of them, and a number [k] keeps
    the [k]-th of those still there. *)
Definition apply_predicate (p : predicate) (cands : list (nat * node))
  : list (nat * node) :=
  match p with
  | AttrEq a v => filter (fun c => attr_is a v (snd c) = true) cands
  | NotAttrEq a v => filter (fun c => attr_is a v (snd c) = false) cands
  | AttrStartsWith a v =>
      filter (fun c => String.prefix v (default "" (Dom.get a (snd c))) = true)
             cands
  | Position k =>
      match k with
      | 0 => []
      | S k' => match cands !! k' with
                | Some c => [c]
                | None => []
                end
      end
  end.

Definition select (t : node_test) (ps : list predicate)
  (cands : list (nat * node)) : list (nat * node) :=
  foldl (fun cs p => apply_predicate p cs)
        (filter (fun c => test_node t (snd c) = true) cands) ps.

(** Children selected below the element [u]: positions in [kids]. *)
Definition child_selector (t : node_test) (ps : list predicate)
  (ctx : list nat) (u : nat) (kids : list node) : list nat :=
  if bool_decide (u ∈ ctx) then (select t ps (enumerate kids)).*1 else [].

(** Children selected as following siblings of a child in the context. *)
Definition sibling_selector (t : node_test) (ps : list predicate)
  (ctx : list nat) (u : nat) (kids : list node) : list nat :=
  concat (imap (fun i k =>
                  match Dom.uid_of k with
                  | Some v =>
                      if bool_decide (v ∈ ctx)
                      then (select t ps (drop (S i) (enumerate kids))).*1
                      else []
                  | None => []
                  end) kids).

(** The selected children of every element, in document order. *)
Fixpoint emit (sel : list nat) (i : nat) (kids : list node)
  (below : list (list node)) : list node :=
  match kids, below with
  | k :: kids', b :: below' =>
      (if bool_decide (i ∈ sel) then [k] else []) ++ b
      ++ emit sel (S i) kids' below'
  | _, _ => []
  end.

Fixpoint walk (selector : nat -> list node -> list nat) (n : node)
  : list node :=
  match n with
  | Text _ => []
  | Elem u _ _ kids =>
      emit (selector u kids) 0 kids (map (walk selector) kids)
  end.

(** descendant-or-self::node() of the context nodes, in document order. *)
Fixpoint descendants (inherited : bool) (ctx : list nat) (n : node)
  : list node :=
  match n with
  | Text _ => if inherited then [n] else []
  | Elem u _ _ kids =>
      let here := inherited || bool_decide (u ∈ ctx) in
      (if here then [n] else []) ++ concat (map (descendants here ctx) kids)
  end.

Definition eval_step (root : node) (ctx : list node) (s : step)
  : list node :=
  let ids := omap Dom.uid_of ctx in
  match s with
  | DescendantOrSelf => descendants false ids root
  | Child t ps => walk (child_selector t ps ids) root
  | FollowingSibling t ps => walk (sibling_selector t ps ids) root
  end.

(** [root.xpath(e)]: the context node is [root] itself. *)
Definition eval (e : expr) (root : node) : list node :=
  foldl (eval_step root) [root] e.

End XPath.

(* ===================================================================== *)
(** * Exceptions, effects and the file system *)
(* ===================================================================== *)

(** What makes [open], [read] or [fromstring] fail, other than a parse
    error. *)
Inductive read_error : Type :=
| FileNotFoundError
| IsADirectoryError
| PermissionError
| UnicodeError.

Inductive exn : Type :=
| StopIteration
| KeyError (key : string)
| IndexError
| AttributeError
| TypeError
| RuntimeError (msg arg : string)     (* RuntimeError(msg, arg) *)
| RuntimeErrorOf (msg : string)       (* RuntimeError(msg) *)
| ValueError (msg : string)
| ReadError (e : read_error).

Inductive result (A : Type) : Type :=
| Ok (a : A)
| Raise (e : exn).
Arguments Ok {A} a.
Arguments Raise {A} e.

(** One attempt at [open(path).read()] followed by [fromstring]. *)
Inductive attempt : Type :=
| Parsed (xml : node)
| ParserError
| Failed (e : read_error).

(** What the file system answers. Reads are numbered by a clock, since a
    file that another worker is writing can fail to parse at one moment
    and parse at the next. *)
Record World : Type := {
  path_exists : string -> bool;                (* Path(p).exists() *)
  read_attempt : string -> nat -> attempt;     (* the read made at a tick *)
  glob_html : string -> list string;           (* directory.glob("**/*.html") *)
  cpu_count : nat;                             (* multiprocessing.cpu_count() *)
}.

Inductive event : Type :=
| Sleep (ms : nat)                             (* time.sleep(ms / 1000) *)
| AddPrevious (target : nat) (anchor : node)   (* target.addprevious(anchor) *)
| WriteFile (path : string) (content : node)   (* open(path, "w").write(...) *)
| AppendFile (path : string).                  (* open(path, "a").write(...) *)

Record St : Type := {
  tick : nat;            (* number of read attempts made so far *)
  trace : list event;    (* effects, oldest first *)
}.

Definition M (A : Type) : Type := St -> result A * St.

#[global] Instance M_ret : MRet M := fun A a st => (Ok a, st).
#[global] Instance M_bind : MBind M := fun A B f m st =>
  match m st with
  | (Ok a, st') => f a st'
  | (Raise e, st') => (Raise e, st')
  end.

#[global] Instance result_ret : MRet result := fun A a => Ok a.
#[global] Instance result_bind : MBind result := fun A B f m =>
  match m with
  | Ok a => f a
  | Raise e => Raise e
  end.

Definition raise {A : Type} (e : exn) : M A := fun st => (Raise e, st).

Definition lift {A : Type} (r : result A) : M A := fun st => (r, st).

Definition emit_event (e : event) : M unit := fun st =>
  (Ok tt, {| tick := tick st; trace := trace st ++ [e] |}).

(** A [for] loop that updates the variables [b]. *)
Fixpoint foldM {A B : Type} (f : B -> A -> M B) (l : list A) (b : B) : M B :=
  match l with
  | [] => mret b
  | a :: l' => b' ← f b a; foldM f l' b'
  end.

(** [[f(x) for x in l]] *)
Fixpoint mapM {A B : Type} (f : A -> M B) (l : list A) : M (list B) :=
  match l with
  | [] => mret []
  | a :: l' => b ← f a; bs ← mapM f l'; mret (b :: bs)
  end.

(* ===================================================================== *)
(** * The structured-document reader *)
(* ===================================================================== *)

Definition could_not_parse : string :=
  "Could not parse " +:+ Str.quot +:+ "%s" +:+ Str.quot +:+ " file!".

(** The [while i < attempts] loop of [read_xml_file]; [remaining] is
    [attempts - i]. An attempt that raises [ParserError] is followed by a
    sleep of 0.1 s and the next round; any other exception leaves the
    function; when no round is left the function raises [RuntimeError]. *)
Fixpoint read_xml_file_loop (w : World) (xml_path : string) (remaining : nat)
  : M node :=
  fun st =>
    match remaining with
    | 0 => (Raise (RuntimeError could_not_parse xml_path), st)
    | S remaining' =>
        let st1 := {| tick := S (tick st); trace := trace st |} in
        match read_attempt w xml_path (tick st) with
        | Parsed xml => (Ok xml, st1)
        | ParserError =>
            read_xml_file_loop w xml_path remaining'
              {| tick := tick st1; trace := trace st1 ++ [Sleep 100] |}
        | Failed e => (Raise (ReadError e), st1)
        end
    end.

Definition read_xml_file (w : World) (xml_path : string) (attempts : nat)
  : M node :=
  read_xml_file_loop w xml_path attempts.

(** The default value of [attempts]. *)
Definition default_attempts : nat := 10.

(* ===================================================================== *)
(** * Data model *)
(* ===================================================================== *)

Module ApiInformation.
Record t : Type := mk {
  name : option string;        (* name: str | None *)
  ue_type : option string;     (* ue_type: str | None *)
  dash_type : option string;   (* dash_type: str | None *)
}.
End ApiInformation.

Module Entry.
Record t : Type := mk {
  name : string;
  path : string;
  type : string;
}.

#[global] Instance eq_dec : EqDecision t.
Proof. solve_decision. Defined.

#[global] Instance countable : Countable t.
Proof.
  apply (inj_countable'
           (fun e => (name e, path e, type e))
           (fun p => mk p.1.1 p.1.2 p.2)).
  intros []. reflexivity.
Defined.
End Entry.

Module Collector.
(** [processor] receives the selected elements, the API information of
    the page and the path of the page. The names it returns come from
    [ApiInformation.name], hence may be [None] as far as the types go. *)
Record t : Type := mk {
  type : string;
  xpath : XPath.expr;
  processor : World -> list node -> ApiInformation.t -> string ->
              M (list (option string * string));
}.
End Collector.

(** Insertion order of the dictionary. *)
Definition MAPPING_API_TYPE_TO_ENTRY_TYPE : list (string * string) :=
  [ ("class", "Class");
    ("UCLASS", "Class");
    ("struct", "Struct");
    ("USTRUCT", "Struct");
    ("union", "Union") ].

(** The variables of the loops of a page processor. *)
Record Locals : Type := {
  xml : node;
  anchors : list string;
  entries : list Entry.t;
}.

(** A method of [str] called on a value: [None] has none. *)
Definition str_method (o : option string) : M string :=
  match o with
  | Some s_ => mret s_
  | None => raise AttributeError
  end.

(** [cast(str, o)]. [typing.cast] does nothing at run time; an [Entry]
    field is a [str], and [TypeError] stands for the [None] that the
    annotations allow here. The classifier never returns one. *)
Definition cast_str (o : option string) : M string :=
  match o with
  | Some s_ => mret s_
  | None => raise TypeError
  end.

(** [elements[i]] *)
Definition element_at (elements : list node) (i : nat) : M node :=
  match elements !! i with
  | Some e => mret e
  | None => raise IndexError
  end.

(** [target.addprevious(anchor)] on the page [root]. A text result of an
    XPath query is a string and has no such method. *)
Definition addprevious (target anchor root : node) : M node :=
  match Dom.uid_of target with
  | None => raise AttributeError
  | Some u =>
      match Dom.add_previous u anchor root with
      | None => raise TypeError
      | Some root' => _ ← emit_event (AddPrevious u anchor); mret root'
      end
  end.

(** [anchors.count(anchor_name)] *)
Definition count (x : string) (l : list string) : nat :=
  length (filter (fun y => y = x) l).

(** Lines 551-554 of the source: the suffix of a recurring anchor name. *)
Definition overload_suffix (anchors : list string) (anchor_name : string)
  : string :=
  if bool_decide (anchor_name ∈ anchors)
  then " (Overload " +:+ Str.of_nat (count anchor_name anchors) +:+ ")"
  else "".

(** The anchor element: [class] is set first, then [name]. *)
Definition dash_anchor (scheme : string) (uid : nat)
  (collected_type : option string) (anchor_name : string) : node :=
  Elem uid "a"
       [ ("class", "dashAnchor");
         ("name", "//apple_ref/" +:+ scheme +:+ "/"
                  +:+ Str.of_optional collected_type +:+ "/"
                  +:+ Str.escape anchor_name) ]
       [].

(** [index_path.exists()] decides what a link becomes. *)
Definition localiser (w : World) (html_path : string) (link : string)
  : string :=
  let index_path :=
    PathLib.div (PathLib.div (PathLib.parent html_path) link) "index.html" in
  if negb (path_exists w index_path) then link
  else link +:+ "/index.html".

(** [set(chain( *results ))] *)
Definition aggregate (results : list (list Entry.t)) : gset Entry.t :=
  list_to_set (concat results).

(** The queries of the classifier and of the page processors. *)
Definition title_xpath : XPath.expr :=       (* .//h1[@id="H1TitleId"]/text() *)
  [ XPath.DescendantOrSelf;
    XPath.Child (XPath.Tag "h1") [XPath.AttrEq "id" "H1TitleId"];
    XPath.Child XPath.TextNode [] ].

Definition syntax_xpath : XPath.expr :=      (* .//div[@class="simplecode_api"]/p *)
  [ XPath.DescendantOrSelf;
    XPath.Child (XPath.Tag "div") [XPath.AttrEq "class" "simplecode_api"];
    XPath.Child (XPath.Tag "p") [] ].

Definition dash_anchor_xpath : XPath.expr := (* .//a[@class="dashAnchor"] *)
  [ XPath.DescendantOrSelf;
    XPath.Child (XPath.Tag "a") [XPath.AttrEq "class" "dashAnchor"] ].

(** [.//REGION//td[@class="name-cell"]CELL/LEAF] *)
Definition cells (region : XPath.step) (cell : list XPath.predicate)
  (leaf : XPath.step) : XPath.expr :=
  [ XPath.DescendantOrSelf; region;
    XPath.DescendantOrSelf;
    XPath.Child (XPath.Tag "td") (XPath.AttrEq "class" "name-cell" :: cell);
    leaf ].

Definition div_id (id : string) : XPath.step :=          (* div[@id="..."] *)
  XPath.Child (XPath.Tag "div") [XPath.AttrEq "id" id].
Definition div_class (c : string) : XPath.step :=        (* div[@class="..."] *)
  XPath.Child (XPath.Tag "div") [XPath.AttrEq "class" c].
Definition div_id_prefix (id : string) : XPath.step :=   (* div[starts-with(@id, "...")] *)
  XPath.Child (XPath.Tag "div") [XPath.AttrStartsWith "id" id].
Definition plain_a : XPath.step :=                       (* a[not(@class="dashAnchor")] *)
  XPath.Child (XPath.Tag "a") [XPath.NotAttrEq "class" "dashAnchor"].
Definition any_p : XPath.step :=                         (* p *)
  XPath.Child (XPath.Tag "p") [].

(** [.//h2[@id="ID"]/following-sibling::div[@class="member-list"]
      //td[@class="name-cell"]/a[not(@class="dashAnchor")]] *)
Definition members_after (id : string) : XPath.expr :=
  [ XPath.DescendantOrSelf;
    XPath.Child (XPath.Tag "h2") [XPath.AttrEq "id" id];
    XPath.FollowingSibling (XPath.Tag "div") [XPath.AttrEq "class" "member-list"];
    XPath.DescendantOrSelf;
    XPath.Child (XPath.Tag "td") [XPath.AttrEq "class" "name-cell"];
    plain_a ].

(** What [re.search] answers: a match object, [None], or [re.error]. *)
Inductive search : Type :=
| Match
| NoMatch
| ReError.

(* ===================================================================== *)
(** * The pipeline *)
(* ===================================================================== *)

Section Pipeline.

(** [re.search(pattern, text, re.MULTILINE)] *)
Variable re_search : string -> string -> search.

(** [xml.rewrite_links(f)], as the tree it leaves. *)
Variable rewrite_links : (string -> string) -> node -> node.

(** ** The API classifier *)

Definition collect_api_name_and_syntax (xml : node)
  : result (string * string) :=
  match XPath.eval title_xpath xml with
  | [] => Raise StopIteration                  (* next(iter([])) *)
  | first :: _ =>
      let title := Dom.text_content first in
      let syntax :=
        String.concat (String Str.newline EmptyString)
          (map Dom.text_content (XPath.eval syntax_xpath xml)) in
      Ok (title, syntax)
  end.

(** The [for] loop of [collect_api_information] over the items of the
    mapping. *)
Fixpoint classify (mapping : list (string * string))
  (api_name api_syntax : string) : ApiInformation.t :=
  match mapping with
  | [] => ApiInformation.mk (Some api_name) (Some "object") (Some "Object")
  | (api_type, entry_type) :: mapping' =>
      match re_search (api_type +:+ " " +:+ api_name) api_syntax with
      | ReError => classify mapping' api_name api_syntax      (* continue *)
      | Match =>
          ApiInformation.mk (Some api_name) (Some api_type) (Some entry_type)
      | NoMatch => classify mapping' api_name api_syntax
      end
  end.

Definition collect_api_information (xml : node) : result ApiInformation.t :=
  '(api_name, api_syntax) ← collect_api_name_and_syntax xml;
  mret (classify MAPPING_API_TYPE_TO_ENTRY_TYPE api_name api_syntax).

(** ** Collectors *)

(** [element.attrib["href"]] *)
Definition href (element : node) : M string :=
  match Dom.get "href" element with
  | Some h => mret h
  | None => raise (KeyError "href")
  end.

Definition collector_cpp_default (w : World) (elements : list node)
  (parent_api_information : ApiInformation.t) (html_path : string)
  : M (list (option string * string)) :=
  foldM (fun collection element =>
           h ← href element;
           let collected_path := PathLib.join_path html_path h in
           if negb (path_exists w collected_path) then mret collection
           else
             collected_xml ← read_xml_file w collected_path default_attempts;
             info ← lift (collect_api_information collected_xml);
             let collected_name := ApiInformation.name info in
             mret (collection ++ [(collected_name, collected_path)]))
        elements [].

Definition collector_cpp_nohref (w : World) (elements : list node)
  (parent_api_information : ApiInformation.t) (html_path : string)
  : M (list (option string * string)) :=
  foldM (fun collection element =>
           let name := Dom.text_content element in
           let name :=
             match ApiInformation.ue_type parent_api_information with
             | Some _ =>
                 Str.of_optional (ApiInformation.name parent_api_information)
                 +:+ "." +:+ name
             | None => name
             end in
           mret (collection ++ [(Some name, html_path +:+ "#" +:+ name)]))
        elements [].

Definition collector_blueprint_default (w : World) (elements : list node)
  (parent_api_information : ApiInformation.t) (html_path : string)
  : M (list (option string * string)) :=
  foldM (fun collection element =>
           h ← href element;
           let collected_path := PathLib.join_path html_path h in
           if negb (path_exists w collected_path) then mret collection
           else
             collected_xml ← read_xml_file w collected_path default_attempts;
             info ← lift (collect_api_information collected_xml);
             let collected_name := ApiInformation.name info in
             mret (collection ++
                   [(Some (Str.of_optional
                             (ApiInformation.name parent_api_information)
                           +:+ "." +:+ Str.of_optional collected_name),
                     collected_path)]))
        elements [].

Definition COLLECTORS_CPP : list Collector.t :=
  [ Collector.mk "Module"
      (cells (div_class "modules-list") [] plain_a)
      collector_cpp_default;
    Collector.mk "Class"
      (cells (div_id "classes") [XPath.Position 1] plain_a)
      collector_cpp_default;
    Collector.mk "Constructor"
      (cells (div_id "constructor") [XPath.Position 1] plain_a)
      collector_cpp_default;
    Collector.mk "Destructor"
      (cells (div_id "destructor") [XPath.Position 1] plain_a)
      collector_cpp_default;
    Collector.mk "Type"
      (cells (div_id "typedefs") [XPath.Position 1] plain_a)
      collector_cpp_default;
    Collector.mk "Enum"
      (cells (div_id "enums") [XPath.Position 1] plain_a)
      collector_cpp_default;
    Collector.mk "Variable"
      (cells (div_id "variables") [XPath.Position 2] plain_a)
      collector_cpp_default;
    Collector.mk "Variable"
      (cells (div_id "deprecatedvariables") [XPath.Position 2] plain_a)
      collector_cpp_default;
    Collector.mk "Variable"
      (cells (div_id "variables") [XPath.Position 2] any_p)
      collector_cpp_nohref;
    Collector.mk "Variable"
      (cells (div_id "deprecatedvariables") [XPath.Position 2] any_p)
      collector_cpp_nohref;
    Collector.mk "Constant"
      (cells (div_id "constants") [XPath.Position 1] plain_a)
      collector_cpp_default;
    Collector.mk "Function"
      (cells (div_id_prefix "functions_") [XPath.Position 2] plain_a)
      collector_cpp_default;
    Collector.mk "Function"
      (cells (div_id_prefix "deprecatedfunctions") [XPath.Position 2] plain_a)
      collector_cpp_default ].

Definition COLLECTORS_BLUEPRINT : list Collector.t :=
  [ Collector.mk "Function" (members_after "actions")
      collector_blueprint_default;
    Collector.mk "Category" (members_after "categories")
      collector_blueprint_default ].

(** ** The C++ page processor *)

(** The body of the inner loop of [process_cpp_html_file], for the
    [i]-th pair of the collection. The calls of [logger] and of [print]
    are left out. *)
Definition process_cpp_collection (w : World) (collector : Collector.t)
  (add_dash_anchors has_dash_anchors : bool) (elements : list node)
  (loc : Locals) (item : nat * (option string * string)) : M Locals :=
  let '(i, (collected_name, collected_html_path)) := item in
  if negb (path_exists w collected_html_path) then mret loc   (* continue *)
  else
    collected_type ←
      (if String.eqb (Collector.type collector) "Class" then
         collected_xml ←
           read_xml_file w collected_html_path default_attempts;
         collected_api_information ←
           lift (collect_api_information collected_xml);
         mret (ApiInformation.dash_type collected_api_information)
       else mret (Some (Collector.type collector)));
    loc ←
      (if add_dash_anchors && negb has_dash_anchors then
         name ← str_method collected_name;
         let anchor_name := Str.last_segment name in
         let suffix := overload_suffix (anchors loc) anchor_name in
         let anchors' := anchors loc ++ [anchor_name] in
         let anchor_name := anchor_name +:+ suffix in
         let anchor_element :=
           dash_anchor "cpp" (S (Dom.max_uid (xml loc)))
                       collected_type anchor_name in
         target ← element_at elements i;
         xml' ← addprevious target anchor_element (xml loc);
         mret {| xml := xml'; anchors := anchors'; entries := entries loc |}
       else mret loc);
    name ← cast_str collected_name;
    type ← cast_str collected_type;
    mret {| xml := xml loc;
            anchors := anchors loc;
            entries := entries loc
                       ++ [Entry.mk name collected_html_path type] |}.

(** The body of the outer loop: one collector. [anchors] starts empty
    for every collector. *)
Definition process_cpp_collector (w : World) (html_path : string)
  (api_information : ApiInformation.t)
  (add_dash_anchors has_dash_anchors : bool)
  (page : node * list Entry.t) (collector : Collector.t)
  : M (node * list Entry.t) :=
  let elements := XPath.eval (Collector.xpath collector) page.1 in
  collection ←
    Collector.processor collector w elements api_information html_path;
  loc ← foldM (process_cpp_collection w collector add_dash_anchors
                 has_dash_anchors elements)
              (enumerate collection)
              {| xml := page.1; anchors := []; entries := page.2 |};
  mret (xml loc, entries loc).

Definition has_dash_anchors_of (xml : node) : bool :=
  negb (length (XPath.eval dash_anchor_xpath xml) =? 0)%nat.

Definition process_cpp_html_file (w : World) (html_path : string)
  (collectors : list Collector.t) (add_dash_anchors : bool)
  : M (list Entry.t) :=
  xml ← read_xml_file w html_path default_attempts;
  let xml := rewrite_links (localiser w html_path) xml in
  api_information ← lift (collect_api_information xml);
  let has_dash_anchors := has_dash_anchors_of xml in
  page ← foldM (process_cpp_collector w html_path api_information
                  add_dash_anchors has_dash_anchors)
               collectors (xml, []);
  _ ← emit_event (WriteFile html_path page.1);
  mret page.2.

(** ** The Blueprint page processor *)

Definition process_blueprint_collection (w : World) (collector : Collector.t)
  (add_dash_anchors has_dash_anchors : bool) (elements : list node)
  (loc : Locals) (item : nat * (option string * string)) : M Locals :=
  let '(i, (collected_name, collected_html_path)) := item in
  if negb (path_exists w collected_html_path) then mret loc   (* continue *)
  else
    let collected_type := Some (Collector.type collector) in
    loc ←
      (if add_dash_anchors && negb has_dash_anchors then
         name ← str_method collected_name;
         let anchor_element :=
           dash_anchor "blueprint" (S (Dom.max_uid (xml loc)))
                       collected_type name in
         target ← element_at elements i;
         xml' ← addprevious target anchor_element (xml loc);
         mret {| xml := xml'; anchors := anchors loc;
                 entries := entries loc |}
       else mret loc);
    name ← cast_str collected_name;
    type ← cast_str collected_type;
    mret {| xml := xml loc;
            anchors := anchors loc;
            entries := entries loc
                       ++ [Entry.mk name collected_html_path type] |}.

Definition process_blueprint_collector (w : World) (html_path : string)
  (api_information : ApiInformation.t)
  (add_dash_anchors has_dash_anchors : bool)
  (page : node * list Entry.t) (collector : Collector.t)
  : M (node * list Entry.t) :=
  let elements := XPath.eval (Collector.xpath collector) page.1 in
  collection ←
    Collector.processor collector w elements api_information html_path;
  loc ← foldM (process_blueprint_collection w collector add_dash_anchors
                 has_dash_anchors elements)
              (enumerate collection)
              {| xml := page.1; anchors := []; entries := page.2 |};
  mret (xml loc, entries loc).

Definition process_blueprint_html_file (w : World) (html_path : string)
  (collectors : list Collector.t) (add_dash_anchors : bool)
  : M (list Entry.t) :=
  xml ← read_xml_file w html_path default_attempts;
  let xml := rewrite_links (localiser w html_path) xml in
  api_information ← lift (collect_api_information xml);
  let has_dash_anchors := has_dash_anchors_of xml in
  page ← foldM (process_blueprint_collector w html_path api_information
                  add_dash_anchors has_dash_anchors)
               collectors (xml, []);
  _ ← emit_event (WriteFile html_path page.1);
  mret page.2.

(** ** The docset processors

    [process_map] makes a pool of [max_workers] worker processes, which
    [ProcessPoolExecutor] refuses with [ValueError] when the number is
    not positive, and hands the files to the workers; the results come
    back in the order of [html_files]. The workers are run here one
    after the other. The results are read from a generator: the
    exception of a worker is raised again inside it, where a
    [StopIteration] is turned into a [RuntimeError]. The style sheet is
    taken to be there to append to. *)

Definition css_path (api_directory : string) : string :=
  api_directory +:+ "/../../Include/CSS/udn_public.css".

(** An exception as it leaves the generator in which it is raised. *)
Definition from_generator (e : exn) : exn :=
  match e with
  | StopIteration => RuntimeErrorOf "generator raised StopIteration"
  | _ => e
  end.

(** [process_map(f, l, max_workers=max_workers, chunksize=16)] *)
Definition process_map {A B : Type} (f : A -> M B) (l : list A)
  (max_workers : nat) : M (list B) :=
  fun st =>
    if (max_workers =? 0)%nat
    then (Raise (ValueError "max_workers must be greater than 0"), st)
    else match mapM f l st with
         | (Ok results, st') => (Ok results, st')
         | (Raise e, st') => (Raise (from_generator e), st')
         end.

(** The number of workers when [max_workers] is not given. *)
Definition default_max_workers (w : World) : nat :=
  Nat.min 32 (cpu_count w + 4).

Definition process_cpp_docset (w : World) (api_directory : string)
  : M (gset Entry.t) :=
  _ ← emit_event (AppendFile (css_path api_directory));
  let html_files := glob_html w api_directory in
  results ← process_map (fun html_path =>
                           process_cpp_html_file w html_path
                                                 COLLECTORS_CPP true)
                        html_files (default_max_workers w);
  mret (aggregate results).

Definition process_blueprint_docset (w : World) (api_directory : string)
  : M (gset Entry.t) :=
  _ ← emit_event (AppendFile (css_path api_directory));
  let html_files := glob_html w api_directory in
  results ← process_map (fun html_path =>
                           process_blueprint_html_file w html_path
                             COLLECTORS_BLUEPRINT true)
                        html_files (cpu_count w - 2);
  mret (aggregate results).

End Pipeline.

(* ===================================================================== *)
(** * The manifest of [generate_docset] *)
(* ===================================================================== *)

(** The flavour read from the name of the archive; [None] is the
    unsupported case, in which [generate_docset] logs an error and
    returns. *)
Definition docset_type_of (input : string) : option string :=
  let stem := Str.lower (PathLib.stem input) in
  if Str.contains "blueprint" stem then Some "blueprint"
  else if Str.contains "cpp" stem then Some "cpp"
  else None.

(** The [mapping] that [generate_docset] hands to [generate_plist]: a
    list of (key, type, value). *)
Definition generate_docset_mapping (input : string)
  : option (list (string * string * option string)) :=
  docset_type ← docset_type_of input;
  let docset_name := "UnrealEngine" +:+ Str.title docset_type +:+ ".docset" in
  '(label, online) ←
    (if String.eqb docset_type "blueprint"
     then Some ("Blueprint", "https://docs.unrealengine.com/en-US/BlueprintAPI")
     else if String.eqb docset_type "cpp"
     then Some ("C++", "https://docs.unrealengine.com/en-US/API")
     else None);
  let docset_label := "Unreal Engine " +:+ label +:+ " Docset" in
  let mapping :=
    [ ("CFBundleIdentifier", "string", Some docset_name);
      ("CFBundleName", "string", Some docset_label);
      ("DashDocSetDeclaredInStyle", "string", Some "originalName");
      ("DashDocSetFallbackURL", "string", Some online);
      ("DashDocSetFamily", "string", Some "python");
      ("DocSetPlatformFamily", "string", Some "Unreal Engine");
      ("isDashDocset", "true", None);
      ("isJavaScriptEnabled", "true", None) ] in
  let mapping :=
    if String.eqb docset_type "cpp"
    then mapping ++ [("dashIndexFilePath", "string",
                      Some "en-US/API/index.html")]
    else if String.eqb docset_type "cpp"
    then mapping ++ [("dashIndexFilePath", "string",
                      Some "en-US/BluepringAPI/index.html")]
    else mapping in
  Some mapping.

(** The keys of a mapping. *)
Definition keys (mapping : list (string * string * option string))
  : list string :=
  map (fun kv => kv.1.1) mapping.

(** The value stored under a key. *)
Definition value_of (key : string)
  (mapping : list (string * string * option string)) : option string :=
  match filter (fun kv => kv.1.1 = key) mapping with
  | kv :: _ => kv.2
  | [] => None
  end.

(* ===================================================================== *)
(** * Observations on traces and pages *)
(* ===================================================================== *)

(** The anchors given to [addprevious], oldest first. *)
Definition injected (t : list event) : list node :=
  omap (fun e => match e with AddPrevious _ a => Some a | _ => None end) t.

(** The pages written back, oldest first. *)
Definition written (t : list event) : list (string * node) :=
  omap (fun e => match e with WriteFile p x => Some (p, x) | _ => None end) t.

(** The state moved on without an anchor injected or a page written. *)
Definition calm (st st' : St) : Prop :=
  injected (trace st') = injected (trace st)
  /\ written (trace st') = written (trace st).

(** Some node of the page, the root included, satisfies [P]. *)
Fixpoint has_element (P : node -> bool) (n : node) : bool :=
  P n ||
  match n with
  | Text _ => false
  | Elem _ _ _ kids => existsb (has_element P) kids
  end.

(** An [h1] element whose [id] is [H1TitleId]. *)
Definition is_title_heading (n : node) : bool :=
  XPath.test_node (XPath.Tag "h1") n && XPath.attr_is "id" "H1TitleId" n.

Definition is_empty_text (n : node) : bool :=
  match n with
  | Text EmptyString => true
  | _ => false
  end.

(** A parser makes a text node out of one character at least. *)
Definition parsed_tree (xml : node) : Prop :=
  has_element is_empty_text xml = false.

(** The parent is one of the typed API objects of the mapping. *)
Definition typed_api_object (info : ApiInformation.t) : bool :=
  match ApiInformation.ue_type info with
  | Some k => bool_decide (k ∈ MAPPING_API_TYPE_TO_ENTRY_TYPE.*1)
  | None => false
  end.

(** The name that [collector_cpp_nohref] gives to an element. *)
Definition nohref_name (parent : ApiInformation.t) (element : node) : string :=
  match ApiInformation.ue_type parent with
  | Some _ =>
      Str.of_optional (ApiInformation.name parent)
      +:+ "." +:+ Dom.text_content element
  | None => Dom.text_content element
  end.

(** The name as the specification words it: qualified when the parent is
    a typed API object, bare otherwise. *)
Definition claimed_nohref_name (parent : ApiInformation.t) (element : node)
  : string :=
  if typed_api_object parent
  then Str.of_optional (ApiInformation.name parent)
       +:+ "." +:+ Dom.text_content element
  else Dom.text_content element.

(** The suffix of the occurrence that [n] earlier occurrences precede. *)
Definition overload (n : nat) : string :=
  match n with
  | 0 => ""
  | S _ => " (Overload " +:+ Str.of_nat n +:+ ")"
  end.

(** Anchor names of a run of local names, the names in [seen] having
    occurred before: every name is followed by the suffix of its number of
    earlier occurrences. *)
Fixpoint number_overloads (seen names : list string) : list string :=
  match names with
  | [] => []
  | n :: names' =>
      (n +:+ overload (count n seen)) :: number_overloads (seen ++ [n]) names'
  end.

(** The local anchor names of the pairs of a collection whose target
    exists, in order. *)
Definition surviving_names (w : World)
  (collection : list (option string * string)) : list string :=
  omap (fun c => if path_exists w c.2 then Str.last_segment <$> c.1 else None)
       collection.

(** The collections that the collectors of a table return while a page
    is processed, in the order of the table: every collector selects its
    elements in the page as the collectors before it left it, and runs in
    the state in which they left off. The list ends where a collector
    raises. *)
Fixpoint collections_of (re_search : string -> string -> search) (w : World)
  (html_path : string) (info : ApiInformation.t) (add has : bool)
  (collectors : list Collector.t) (page : node * list Entry.t) (st : St)
  : list (list (option string * string)) :=
  match collectors with
  | [] => []
  | c :: collectors' =>
      match (Collector.processor c w (XPath.eval (Collector.xpath c) page.1)
                                 info html_path st).1 with
      | Ok collection =>
          collection ::
          match process_cpp_collector re_search w html_path info add has
                                      page c st with
          | (Ok page', st') =>
              collections_of re_search w html_path info add has collectors'
                             page' st'
          | (Raise _, _) => []
          end
      | Raise _ => []
      end
  end.

(** The anchors of entries: the element made for an entry carries the
    kind of the entry and the anchor name given to it. *)
Definition anchors_of (scheme : string) (uids : list nat)
  (entries : list Entry.t) (names : list string) : list node :=
  zip_with (fun uid en => dash_anchor scheme uid (Some (Entry.type en.1)) en.2)
           uids (zip entries names).

(** A processor that neither injects anchors nor writes pages. *)
Definition quiet (processor : World -> list node -> ApiInformation.t ->
                              string -> M (list (option string * string)))
  : Prop :=
  forall w elements info html_path st,
    calm st (processor w elements info html_path st).2.

(** The key of an entry in the index. *)
Definition triple (e : Entry.t) : string * string * string :=
  (Entry.name e, Entry.type e, Entry.path e).

(** Entries whose target exists. *)
Definition existing (w : World) (entries : list Entry.t) : Prop :=
  Forall (fun e => path_exists w (Entry.path e) = true) entries.

(* ===================================================================== *)
(** * Reference behaviour of the libraries, for running examples *)
(* ===================================================================== *)

Module Ref.

(** The special characters of a regular expression. *)
Definition special (c : ascii) : bool :=
  existsb (Ascii.eqb c) (list_ascii_of_string ".^$*+?{}[]\|()").

Fixpoint literal (pattern : string) : bool :=
  match pattern with
  | EmptyString => true
  | String c rest => negb (special c) && literal rest
  end.

(** [re.search] on patterns without special characters; the others are
    reported as errors. *)
Definition re_search (pattern text : string) : search :=
  if literal pattern
  then if Str.contains pattern text then Match else NoMatch
  else ReError.

Definition link_attribute (a : string) : bool :=
  String.eqb a "href" || String.eqb a "src".

(** [rewrite_links] on pages whose links are [href] and [src]
    attributes. *)
Fixpoint rewrite_links (f : string -> string) (n : node) : node :=
  match n with
  | Text _ => n
  | Elem u t a kids =>
      Elem u t
           (map (fun kv => if link_attribute kv.1 then (kv.1, f kv.2) else kv) a)
           (map (rewrite_links f) kids)
  end.

(** A file system with the given files, all of them well formed. *)
Definition world_of (files : list (string * node)) : World :=
  {| path_exists := fun p => bool_decide (p ∈ files.*1);
     read_attempt := fun p _ =>
       match filter (fun f => f.1 = p) files with
       | f :: _ => Parsed f.2
       | [] => Failed FileNotFoundError
       end;
     glob_html := fun _ => files.*1;
     cpu_count := 8 |}.

(** The same file system, seen while the first [k] reads fail to parse. *)
Definition flaky (k : nat) (w : World) : World :=
  {| path_exists := path_exists w;
     read_attempt := fun p n =>
       if (n <? k)%nat then ParserError else read_attempt w p n;
     glob_html := glob_html w;
     cpu_count := cpu_count w |}.

(** The same file system on a machine with [n] processors. *)
Definition with_processors (n : nat) (w : World) : World :=
  {| path_exists := path_exists w;
     read_attempt := read_attempt w;
     glob_html := glob_html w;
     cpu_count := n |}.

Definition start : St := {| tick := 0; trace := [] |}.

End Ref.

(** A law of [re.search]: a pattern without special characters matches
    where it occurs. *)
Definition literal_search (re_search : string -> string -> search) : Prop :=
  forall pattern text,
    Ref.literal pattern = true ->
    re_search pattern text
    = if Str.contains pattern text then Match else NoMatch.

Module Sample.

Definition heading (title : string) : node :=
  Elem 2 "h1" [("id", "H1TitleId")] [Text title].

Definition syntax (u : nat) (text : string) : node :=
  Elem u "div" [("class", "simplecode_api")] [Elem (S u) "p" [] [Text text]].

(** A row of a member table: a cell for the type, a cell for the link. *)
Definition row (u : nat) (link label : string) : node :=
  Elem u "tr" []
       [ Elem (u + 1) "td" [("class", "name-cell")] [Text "void"];
         Elem (u + 2) "td" [("class", "name-cell")]
              [Elem (u + 3) "a" [("href", link)] [Text label]] ].

Definition region (u : nat) (id : string) (rows : list node) : node :=
  Elem u "div" [("id", id)] [Elem (S u) "table" [] rows].

(** The page of a function. *)
Definition bar : node :=
  Elem 1 "html" [] [heading "Foo::Bar"].

(** The page of a class with one function and one deprecated function
    of the same name. *)
Definition foo : node :=
  Elem 1 "html" []
       [ heading "Foo";
         syntax 3 "class Foo : public Bar";
         region 10 "functions_0" [row 20 "Bar/1/index.html" "Bar"];
         region 30 "deprecatedfunctions" [row 40 "Bar/2/index.html" "Bar"] ].

(** The page of a class with two functions of the same name. *)
Definition baz : node :=
  Elem 1 "html" []
       [ heading "Baz";
         syntax 3 "struct Baz";
         region 10 "functions_0"
                [ row 20 "Bar/1/index.html" "Bar";
                  row 30 "Bar/2/index.html" "Bar" ] ].

(** The first page, once processed. *)
Definition anchored : node :=
  Elem 1 "html" []
       [ heading "Foo";
         Elem 5 "a" [("class", "dashAnchor");
                     ("name", "//apple_ref/cpp/Function/Bar")] [];
         region 10 "functions_0" [row 20 "Bar/1/index.html" "Bar"] ].

(** A page that declares nothing: a title and no syntax block. *)
Definition plain : node :=
  Elem 1 "html" [] [heading "Foo"].

(** A page without a title. *)
Definition untitled : node :=
  Elem 1 "html" [] [Elem 2 "p" [] [Text "nothing here"]].

Definition files : list (string * node) :=
  [ ("Foo/index.html", foo);
    ("Foo/Bar/1/index.html", bar);
    ("Foo/Bar/2/index.html", bar);
    ("Baz/index.html", baz);
    ("Baz/Bar/1/index.html", bar);
    ("Baz/Bar/2/index.html", bar);
    ("Old/index.html", anchored);
    ("Old/Bar/1/index.html", bar) ].

Definition world : World := Ref.world_of files.

(** A variable of a page documented in place, without a link. *)
Definition member : node := Elem 7 "p" [] [Text "Size"].

(** What the classifier says of a page that declares nothing. *)
Definition plain_object : ApiInformation.t :=
  ApiInformation.mk (Some "Foo") (Some "object") (Some "Object").

Definition entry (name path type : string) : Entry.t :=
  Entry.mk name path type.

(** The C++ page processor on the sample files. *)
Definition run (html_path : string) : result (list Entry.t) * St :=
  process_cpp_html_file Ref.re_search Ref.rewrite_links world html_path
                        (COLLECTORS_CPP Ref.re_search) true Ref.start.

(** The sample files after a first run on the class page: the page
    written back takes the place of the page read. *)
Definition world_after_first_run : World :=
  Ref.world_of (written (trace (run "Foo/index.html").2) ++ files).

(** The [name] attributes of the anchors injected in a run. *)
Definition anchor_names (st : St) : list (option string) :=
  Dom.get "name" <$> injected (trace st).

End Sample.

(* ===================================================================== *)
(** * More of the program: text replacement and the search index *)
(* ===================================================================== *)

Module StrOps.

(** The scan of [s.replace(old, new)] for a non-empty [old]: occurrences
    are found left to right and do not overlap; [skip] characters of an
    occurrence just replaced are still to be passed over. *)
Fixpoint replace_from (old new : string) (skip : nat) (s : string) : string :=
  match s with
  | EmptyString => EmptyString
  | String c rest =>
      match skip with
      | S skip' => replace_from old new skip' rest
      | 0 =>
          if String.prefix old s
          then new +:+ replace_from old new (String.length old - 1) rest
          else String c (replace_from old new 0 rest)
      end
  end.

(** With an empty [old], [new] goes before every character and at the
    end. *)
Fixpoint between (new s : string) : string :=
  match s with
  | EmptyString => EmptyString
  | String c rest => String c (new +:+ between new rest)
  end.

(** [s.replace(old, new)] *)
Definition replace (old new s : string) : string :=
  match old with
  | EmptyString => new +:+ between new s
  | String _ _ => replace_from old new 0 s
  end.

Definition backslash : string := String Str.backslash EmptyString.

(** The last character of a text. *)
Definition last_char (s : string) : option ascii :=
  head (rev (list_ascii_of_string s)).

End StrOps.

Module Database.

(** A row of [searchIndex(id, name, type, path)]. *)
Record row : Type := mk_row {
  id : nat;
  name : string;
  type : string;
  path : string;
}.

(** The table, and whether the unique index [anchor] on
    [(name, type, path)] is there. *)
Record t : Type := mk {
  rows : list row;
  unique : bool;
}.

Definition key (r : row) : string * string * string :=
  (name r, type r, path r).

(** [CREATE TABLE] and [CREATE UNIQUE INDEX], inside the [try]: on a file
    that has the table already the first statement raises
    [OperationalError], a warning is logged and the table is left as it
    is. [None] is a file without the table. *)
Definition create (db : option t) : t :=
  match db with
  | None => {| rows := []; unique := true |}
  | Some d => d
  end.

(** The largest [id] that SQLite gives to a row. *)
Definition max_rowid : Z := (2 ^ 63 - 1)%Z.

(** The [id] of a new row: one more than the largest, as long as the
    largest is below [max_rowid]. (At [max_rowid] SQLite looks for an
    unused [id] at random; the statements about the ids of new rows are
    made for tables that stay below.) *)
Definition next_id (rs : list row) : nat :=
  S (foldr Nat.max 0 (id <$> rs)).

(** [INSERT OR IGNORE INTO searchIndex(name, type, path) VALUES (?,?,?)] *)
Definition insert_or_ignore (d : t) (n ty p : string) : t :=
  if unique d && bool_decide ((n, ty, p) ∈ key <$> rows d) then d
  else {| rows := rows d ++ [mk_row (next_id (rows d)) n ty p];
          unique := unique d |}.

(** [sorted(entries, key=lambda x: x.name)]: the sort is stable. *)
Fixpoint insert_by_name (e : Entry.t) (l : list Entry.t) : list Entry.t :=
  match l with
  | [] => [e]
  | y :: l' =>
      if String.leb (Entry.name e) (Entry.name y) then e :: y :: l'
      else y :: insert_by_name e l'
  end.

Definition sorted_by_name (entries : list Entry.t) : list Entry.t :=
  foldr insert_by_name [] entries.

(** [f"{documents_directory}/".replace("\\", "/")] *)
Definition documents_prefix (documents_directory : string) : string :=
  StrOps.replace StrOps.backslash "/" (documents_directory +:+ "/").

(** [entry.path.replace("\\", "/").replace(documents_directory, "")] *)
Definition stored_path (documents_directory path : string) : string :=
  StrOps.replace (documents_prefix documents_directory) ""
                 (StrOps.replace StrOps.backslash "/" path).

(** [generate_database]: [entries] lists the set in the order in which
    Python iterates it; [db] is what the file holds before. *)
Definition store (documents_directory : string) (d : t) (entry : Entry.t)
  : t :=
  insert_or_ignore d (Entry.name entry) (Entry.type entry)
                   (stored_path documents_directory (Entry.path entry)).

Definition generate_database (documents_directory : string)
  (entries : list Entry.t) (db : option t) : t :=
  foldl (store documents_directory) (create db) (sorted_by_name entries).

(** The key under which an entry is stored. *)
Definition stored_key (documents_directory : string) (e : Entry.t)
  : string * string * string :=
  (Entry.name e, Entry.type e, stored_path documents_directory (Entry.path e)).

End Database.

(** What the links of a page contribute to a collection: the targets,
    joined to the path of the page, that exist, in order. *)
Definition existing_targets (w : World) (html_path : string)
  (hrefs : list string) : list string :=
  filter (fun p => path_exists w p = true)
         (PathLib.join_path html_path <$> hrefs).

(** The elements before which anchors were put, oldest first. *)
Definition targets (t : list event) : list nat :=
  omap (fun e => match e with AddPrevious u _ => Some u | _ => None end) t.

(** Some element of the page has a child that satisfies [P]. *)
Fixpoint has_child (P : node -> bool) (n : node) : bool :=
  match n with
  | Text _ => false
  | Elem _ _ _ kids => existsb P kids || existsb (has_child P) kids
  end.

(** An [a] element of class [dashAnchor]. *)
Definition is_dash_anchor (n : node) : bool :=
  XPath.test_node (XPath.Tag "a") n && XPath.attr_is "class" "dashAnchor" n.

(** The identities of the elements of a page. *)
Fixpoint uids (n : node) : list nat :=
  match n with
  | Text _ => []
  | Elem u _ _ kids => u :: concat (map uids kids)
  end.

(** The kinds of entry that the classifier can give. *)
Definition entry_kinds : list string := ["Class"; "Struct"; "Union"; "Object"].


(** What holds of a page while it is processed: nothing was added yet,
    or, with injection, the page has an anchor, and without, the page is
    the one that was read. *)
Definition page_state (flag : bool) (xml0 : node) (entries0 : list Entry.t)
  (xml : node) (entries : list Entry.t) : Prop :=
  (entries = entries0 /\ xml = xml0)
  \/ (if flag then has_child is_dash_anchor xml = true else xml = xml0).

(** The manifests of the two flavours, as [generate_docset] builds them. *)
Definition fixed_manifest (docset_name docset_label online : string)
  : list (string * string * option string) :=
  [ ("CFBundleIdentifier", "string", Some docset_name);
    ("CFBundleName", "string", Some docset_label);
    ("DashDocSetDeclaredInStyle", "string", Some "originalName");
    ("DashDocSetFallbackURL", "string", Some online);
    ("DashDocSetFamily", "string", Some "python");
    ("DocSetPlatformFamily", "string", Some "Unreal Engine");
    ("isDashDocset", "true", None);
    ("isJavaScriptEnabled", "true", None) ].

Module More.

(** A page whose first function link has no target. *)
Definition gap : node :=
  Elem 1 "html" []
       [ Sample.heading "Gap";
         Sample.region 10 "functions_0"
           [ Sample.row 20 "Lost/index.html" "Lost";
             Sample.row 30 "Bar/1/index.html" "Bar" ] ].

(** A row of a table of classes: the link is in the first cell. *)
Definition class_row (u : nat) (link label : string) : node :=
  Elem u "tr" []
       [ Elem (u + 1) "td" [("class", "name-cell")]
              [Elem (u + 2) "a" [("href", link)] [Text label]];
         Elem (u + 3) "td" [("class", "desc-cell")] [Text "A class."] ].

(** A row of a table of variables documented in place, without a
    link. *)
Definition variable_row (u : nat) (label : string) : node :=
  Elem u "tr" []
       [ Elem (u + 1) "td" [("class", "name-cell")] [Text "int32"];
         Elem (u + 2) "td" [("class", "name-cell")]
              [Elem (u + 3) "p" [] [Text label]] ].

(** The page of a module with a structure among its classes and a
    variable without a link. *)
Definition kit : node :=
  Elem 1 "html" []
       [ Sample.heading "Kit";
         Sample.region 10 "classes" [class_row 20 "Baz/index.html" "Baz"];
         Sample.region 30 "variables" [variable_row 40 "Size"] ].

(** A Blueprint page with two actions of the same name, and the page of
    such an action. *)
Definition actor : node :=
  Elem 1 "html" []
       [ Sample.heading "Actor";
         Elem 5 "h2" [("id", "actions")] [Text "Actions"];
         Elem 10 "div" [("class", "member-list")]
              [ Elem 11 "table" []
                  [ Elem 20 "tr" []
                      [ Elem 21 "td" [("class", "name-cell")]
                          [Elem 22 "a" [("href", "Jump/1/index.html")]
                                [Text "Jump"]] ];
                    Elem 30 "tr" []
                      [ Elem 31 "td" [("class", "name-cell")]
                          [Elem 32 "a" [("href", "Jump/2/index.html")]
                                [Text "Jump"]] ] ] ] ].

Definition jump : node :=
  Elem 1 "html" [] [Sample.heading "Jump"].

Definition files : list (string * node) :=
  [ ("Gap/index.html", gap);
    ("Gap/Bar/1/index.html", Sample.bar);
    ("Kit/index.html", kit);
    ("Kit/Baz/index.html", Sample.baz);
    ("Actor/index.html", actor);
    ("Actor/Jump/1/index.html", jump);
    ("Actor/Jump/2/index.html", jump) ]
  ++ Sample.files.

Definition world : World := Ref.world_of files.

Definition run (html_path : string) : result (list Entry.t) * St :=
  process_cpp_html_file Ref.re_search Ref.rewrite_links world html_path
                        (COLLECTORS_CPP Ref.re_search) true Ref.start.

Definition functions : Collector.t :=
  Collector.mk "Function"
    (cells (div_id_prefix "functions_") [XPath.Position 2] plain_a)
    (collector_cpp_default Ref.re_search).

Definition variables_nohref : Collector.t :=
  Collector.mk "Variable"
    (cells (div_id "variables") [XPath.Position 2] any_p)
    collector_cpp_nohref.


Definition actions : Collector.t :=
  Collector.mk "Function" (members_after "actions")
    (collector_blueprint_default Ref.re_search).

(** What the classifier says of the two pages. *)
Definition kit_object : ApiInformation.t :=
  ApiInformation.mk (Some "Kit") (Some "object") (Some "Object").

Definition actor_object : ApiInformation.t :=
  ApiInformation.mk (Some "Actor") (Some "object") (Some "Object").

End More.

(* ===================================================================== *)
(** * Running the model *)
(* ===================================================================== *)

Example join_path_index :
  PathLib.join_path "API/Runtime/index.html" "Core/index.html"
  = "API/Runtime/Core/index.html".
Proof. reflexivity. Qed.

Example join_path_plain :
  PathLib.join_path "API/Runtime/Foo.html" "Bar" = "API/Runtime/Foo.html/Bar".
Proof. reflexivity. Qed.

Example last_segment_scoped :
  Str.last_segment "FVector::Normalize" = "Normalize".
Proof. reflexivity. Qed.

Example last_segment_triple : Str.last_segment "a:::b" = ":b".
Proof. reflexivity. Qed.

Example stem_archive :
  PathLib.stem "/tmp/UnrealEngineBlueprintAPI-HTML.tgz"
  = "UnrealEngineBlueprintAPI-HTML".
Proof. reflexivity. Qed.

Example name_trailing_slash :
  PathLib.name "Downloads/cpp/" = "cpp" /\ PathLib.stem "a/./b.tar.gz/." = "b.tar".
Proof. split; reflexivity. Qed.

Example title_cpp : Str.title "cpp" = "Cpp".
Proof. reflexivity. Qed.

Example overload_twelve : overload 12 = " (Overload 12)".
Proof. reflexivity. Qed.

Example join_path_backslash :
  PathLib.join_path (String.append "API" (String Str.backslash "index.html"))
                    "Core"
  = "API/Core".
Proof. reflexivity. Qed.

Example escape_markup : Str.escape "operator<" = "operator&lt;".
Proof. reflexivity. Qed.

Example title_of_sample :
  XPath.eval title_xpath Sample.foo = [Text "Foo"].
Proof. reflexivity. Qed.

Example links_of_sample :
  Dom.uid_of <$> XPath.eval
    (cells (div_id_prefix "functions_") [XPath.Position 2] plain_a) Sample.baz
  = [Some 23; Some 33].
Proof. reflexivity. Qed.

(* ===================================================================== *)
(** * Induction over pages, and the monad *)
(* ===================================================================== *)

(** Induction over a page, with the hypothesis on all children. *)
Lemma node_rect' (P : node -> Type) (Q : list node -> Type)
  (HText : forall s, P (Text s))
  (HElem : forall u t a kids, Q kids -> P (Elem u t a kids))
  (Hnil : Q [])
  (Hcons : forall k kids, P k -> Q kids -> Q (k :: kids)) :
  forall n, P n.
Proof.
  fix IH 1. intros [s | u t a kids].
  - apply HText.
  - apply HElem. induction kids as [| k kids IHkids].
    + exact Hnil.
    + apply Hcons; [apply IH | exact IHkids].
Defined.

Lemma node_ind' (P : node -> Prop)
  (HText : forall s, P (Text s))
  (HElem : forall u t a kids, Forall P kids -> P (Elem u t a kids)) :
  forall n, P n.
Proof.
  apply (node_rect' P (Forall P)); auto.
Qed.

Lemma bind_Ok {A B : Type} (m : M A) (f : A -> M B) st a st1 :
  m st = (Ok a, st1) -> (m ≫= f) st = f a st1.
Proof. intros H. unfold mbind, M_bind. rewrite H. reflexivity. Qed.

Lemma bind_Raise {A B : Type} (m : M A) (f : A -> M B) st e st1 :
  m st = (Raise e, st1) -> (m ≫= f) st = (Raise e, st1).
Proof. intros H. unfold mbind, M_bind. rewrite H. reflexivity. Qed.

Lemma elem_of_concat {A : Type} (x : A) (ls : list (list A)) :
  x ∈ concat ls <-> exists l, l ∈ ls /\ x ∈ l.
Proof.
  rewrite list_elem_of_In, in_concat. split; intros [l [H1 H2]]; exists l;
    rewrite ?list_elem_of_In in *; auto.
Qed.

(** What a bind that returns went through. *)
Lemma bind_inv_Ok {A B : Type} (m : M A) (f : A -> M B) st b st' :
  (m ≫= f) st = (Ok b, st') ->
  exists a st1, m st = (Ok a, st1) /\ f a st1 = (Ok b, st').
Proof.
  unfold mbind, M_bind. destruct (m st) as [[a | e] st1]; intros H.
  - exists a, st1. split; [reflexivity | exact H].
  - discriminate H.
Qed.

(** A property of the loop variables and the state that every round
    keeps, and a property of the state that every round keeps also when
    it raises, hold when the loop ends. *)
Lemma process_map_Ok {A B : Type} (f : A -> M B) (l : list A)
  (max_workers : nat) (st : St) (results : list B) (st' : St) :
  process_map f l max_workers st = (Ok results, st') ->
  max_workers <> 0 /\ mapM f l st = (Ok results, st').
Proof.
  unfold process_map. intros H.
  destruct (max_workers =? 0)%nat eqn:E; [discriminate H |].
  apply Nat.eqb_neq in E. split; [exact E |].
  destruct (mapM f l st) as [[rs | e] st1]; [| discriminate H].
  injection H as <- <-. reflexivity.
Qed.

Lemma foldM_invariant {A B : Type} (f : B -> A -> M B)
  (I : B -> St -> Prop) (J : St -> Prop) :
  (forall b a st, I b st ->
     match f b a st with
     | (Ok b', st') => I b' st'
     | (Raise _, st') => J st'
     end) ->
  forall l b st, I b st ->
    match foldM f l b st with
    | (Ok b', st') => I b' st'
    | (Raise _, st') => J st'
    end.
Proof.
  intros Hstep l. induction l as [| a l IH]; intros b st HI; simpl.
  - exact HI.
  - specialize (Hstep b a st HI). unfold mbind, M_bind.
    destruct (f b a st) as [[b' | e] st1].
    + apply IH. exact Hstep.
    + exact Hstep.
Qed.

(* ===================================================================== *)
(** * The reader *)
(* ===================================================================== *)

Section Reader.

Variable w : World.
Variable xml_path : string.

Lemma read_loop_exhausted (n : nat) : forall st,
  (forall k, k < n -> read_attempt w xml_path (tick st + k) = ParserError) ->
  read_xml_file_loop w xml_path n st
  = (Raise (RuntimeError could_not_parse xml_path),
     {| tick := tick st + n; trace := trace st ++ replicate n (Sleep 100) |}).
Proof.
  induction n as [| n IH]; intros [t tr] H; simpl in *.
  - rewrite Nat.add_0_r, app_nil_r. reflexivity.
  - pose proof (H 0 ltac:(lia)) as H0. rewrite Nat.add_0_r in H0.
    rewrite H0, IH; simpl.
    + rewrite <- app_assoc. simpl. do 3 f_equal. lia.
    + intros k Hk. rewrite <- (H (S k)) by lia. f_equal. lia.
Qed.

Lemma read_loop_settled (n : nat) : forall k st,
  k < n ->
  (forall j, j < k -> read_attempt w xml_path (tick st + j) = ParserError) ->
  read_xml_file_loop w xml_path n st
  = (match read_attempt w xml_path (tick st + k) with
     | Parsed xml => Ok xml
     | ParserError => Raise (RuntimeError could_not_parse xml_path)
     | Failed e => Raise (ReadError e)
     end,
     {| tick := tick st + S k; trace := trace st ++ replicate k (Sleep 100) |})
  \/ read_attempt w xml_path (tick st + k) = ParserError.
Proof.
  induction n as [| n IH]; intros k [t tr] Hk H; [lia |].
  destruct k as [| k]; simpl in *.
  - rewrite Nat.add_0_r, app_nil_r.
    destruct (read_attempt w xml_path t); [left | right | left];
      try reflexivity; do 2 f_equal; lia.
  - pose proof (H 0 ltac:(lia)) as H0. rewrite Nat.add_0_r in H0.
    rewrite H0.
    destruct (IH k {| tick := S t; trace := tr ++ [Sleep 100] |}) as [E | E].
    + lia.
    + intros j Hj. simpl. rewrite <- (H (S j)) by lia. f_equal. lia.
    + left. rewrite E. simpl. rewrite <- app_assoc. simpl.
      replace (S (t + k)) with (t + S k) by lia.
      replace (S (t + S k)) with (t + S (S k)) by lia.
      reflexivity.
    + right. simpl in E. rewrite <- E. f_equal. lia.
Qed.

Lemma read_loop_runtime_error (n : nat) : forall st msg arg st',
  read_xml_file_loop w xml_path n st = (Raise (RuntimeError msg arg), st') ->
  forall k, k < n -> read_attempt w xml_path (tick st + k) = ParserError.
Proof.
  induction n as [| n IH]; intros [t tr] msg arg st' H k Hk; [lia |].
  simpl in H.
  destruct (read_attempt w xml_path t) eqn:E; try discriminate H.
  destruct k as [| k]; simpl.
  - rewrite Nat.add_0_r. exact E.
  - specialize (IH _ _ _ _ H k ltac:(lia)). simpl in IH.
    rewrite <- IH. f_equal. lia.
Qed.

End Reader.

(** C6. [read_xml_file], called with its default budget of ten attempts:
    it raises its [RuntimeError] only when ten attempts in a row failed
    to parse, each of them followed by a sleep of 100 ms; ten such
    failures do make it raise; and when the attempts before the [k]-th
    fail to parse and the [k]-th, one of the ten, parses, it returns that
    tree after [k] sleeps. *)
Theorem read_xml_file_retry_budget (w : World) (xml_path : string) (st : St) :
  (forall msg arg st',
     read_xml_file w xml_path default_attempts st
     = (Raise (RuntimeError msg arg), st') ->
     (forall k, k < 10 ->
                read_attempt w xml_path (tick st + k) = ParserError)
     /\ st' = {| tick := tick st + 10;
                 trace := trace st ++ replicate 10 (Sleep 100) |})
  /\ ((forall k, k < 10 ->
                 read_attempt w xml_path (tick st + k) = ParserError) ->
      (read_xml_file w xml_path default_attempts st).1
      = Raise (RuntimeError could_not_parse xml_path))
  /\ (forall k xml,
        k < 10 ->
        (forall j, j < k ->
                   read_attempt w xml_path (tick st + j) = ParserError) ->
        read_attempt w xml_path (tick st + k) = Parsed xml ->
        read_xml_file w xml_path default_attempts st
        = (Ok xml, {| tick := tick st + S k;
                      trace := trace st ++ replicate k (Sleep 100) |})).
Proof.
  unfold read_xml_file, default_attempts. repeat split.
  - eapply read_loop_runtime_error. exact H.
  - pose proof (read_loop_runtime_error _ _ _ _ _ _ _ H) as Hall.
    rewrite (read_loop_exhausted w xml_path 10 st Hall) in H.
    congruence.
  - intros Hall. rewrite (read_loop_exhausted w xml_path 10 st Hall).
    reflexivity.
  - intros k xml Hk Hbefore Hparsed.
    destruct (read_loop_settled w xml_path 10 k st Hk Hbefore) as [E | E].
    + rewrite E, Hparsed. reflexivity.
    + congruence.
Qed.

Lemma read_xml_file_retry_budget_witness :
  read_xml_file (Ref.flaky 3 Sample.world) "Foo/index.html" default_attempts
                Ref.start
  = (Ok Sample.foo, {| tick := 4; trace := replicate 3 (Sleep 100) |})
  /\ (read_xml_file (Ref.flaky 10 Sample.world) "Foo/index.html"
                    default_attempts Ref.start).1
     = Raise (RuntimeError could_not_parse "Foo/index.html").
Proof.
  split.
  - apply (proj2 (proj2 (read_xml_file_retry_budget
                           (Ref.flaky 3 Sample.world) "Foo/index.html"
                           Ref.start)) 3 Sample.foo).
    + lia.
    + intros j Hj. destruct j as [| [| [| j]]]; try reflexivity. lia.
    + reflexivity.
  - apply (proj1 (proj2 (read_xml_file_retry_budget
                           (Ref.flaky 10 Sample.world) "Foo/index.html"
                           Ref.start))).
    intros k Hk. simpl.
    destruct (Nat.ltb_spec k 10) as [_ | Hge]; [reflexivity | lia].
Defined.

(** C10. An attempt of [read_xml_file] that fails for another reason than
    a parse error is the last one: when the first attempt fails so, the
    exception leaves the function at once, one read made and nothing
    added to the trace, hence no sleep. *)
Theorem read_xml_file_propagates (w : World) (xml_path : string)
  (attempts : nat) (st : St) (e : read_error) :
  0 < attempts ->
  read_attempt w xml_path (tick st) = Failed e ->
  read_xml_file w xml_path attempts st
  = (Raise (ReadError e), {| tick := S (tick st); trace := trace st |}).
Proof.
  intros Hpos Hfail. unfold read_xml_file.
  destruct attempts as [| n]; [lia |].
  simpl. rewrite Hfail. reflexivity.
Qed.

Lemma read_xml_file_propagates_witness :
  read_xml_file Sample.world "Foo/Missing.html" default_attempts Ref.start
  = (Raise (ReadError FileNotFoundError), {| tick := 1; trace := [] |}).
Proof.
  apply (read_xml_file_propagates Sample.world "Foo/Missing.html"
           default_attempts Ref.start FileNotFoundError).
  - unfold default_attempts. lia.
  - reflexivity.
Defined.

(* ===================================================================== *)
(** * XPath: what a query can select *)
(* ===================================================================== *)

Section Selection.

Import XPath.

Lemma elem_of_emit (sel : list nat) (x : node) :
  forall kids below i,
    x ∈ emit sel i kids below ->
    (exists j, kids !! j = Some x /\ i + j ∈ sel)
    \/ (exists b, b ∈ below /\ x ∈ b).
Proof.
  induction kids as [| k kids IH]; intros below i H; simpl in H.
  - destruct below; inversion H.
  - destruct below as [| b below]; [inversion H |].
    rewrite !elem_of_app in H. destruct H as [H | [H | H]].
    + case_bool_decide as Hi; [| inversion H].
      apply list_elem_of_singleton in H. subst x.
      left. exists 0. rewrite Nat.add_0_r. split; [reflexivity | exact Hi].
    + right. exists b. split; [left | exact H].
    + destruct (IH _ _ H) as [[j [Hj Hs]] | [b' [Hb Hx]]].
      * left. exists (S j). split; [exact Hj |].
        replace (i + S j) with (S i + j) by lia. exact Hs.
      * right. exists b'. split; [right; exact Hb | exact Hx].
Qed.

(** A selected node is a node of the page. *)
Lemma walk_subnode (P : node -> bool) (selector : nat -> list node -> list nat)
  (x : node) :
  P x = true ->
  forall n, x ∈ walk selector n -> has_element P n = true.
Proof.
  intros HP. induction n as [s | u t a kids IH] using node_ind'; intros H.
  - inversion H.
  - simpl in H. simpl. apply orb_true_iff. right.
    apply existsb_exists.
    destruct (elem_of_emit _ _ _ _ _ H) as [[j [Hj _]] | [b [Hb Hx]]].
    + exists x. split.
      * apply list_elem_of_In. eapply list_elem_of_lookup_2. exact Hj.
      * destruct x; simpl; rewrite HP; reflexivity.
    + apply list_elem_of_fmap in Hb. destruct Hb as [k [-> Hk]].
      exists k. split; [apply list_elem_of_In; exact Hk |].
      rewrite Forall_forall in IH. apply IH; assumption.
Qed.

Lemma apply_predicate_subseteq (p : predicate) (cands : list (nat * node)) :
  apply_predicate p cands ⊆ cands.
Proof.
  intros c H. destruct p as [a v | a v | a v | k]; simpl in H;
    try (apply list_elem_of_filter in H; tauto).
  destruct k as [| k]; [inversion H |].
  destruct (cands !! k) as [c' |] eqn:E; [| inversion H].
  apply list_elem_of_singleton in H. subst c'.
  eapply list_elem_of_lookup_2. exact E.
Qed.

Lemma foldl_predicates_subseteq (ps : list predicate) :
  forall cands,
    foldl (fun cs p => apply_predicate p cs) cands ps ⊆ cands.
Proof.
  induction ps as [| p ps IH]; intros cands c H; simpl in H; [exact H |].
  apply (apply_predicate_subseteq p). apply IH. exact H.
Qed.

Lemma foldl_predicates_attr (ps : list predicate) (a v : string) :
  AttrEq a v ∈ ps ->
  forall cands c,
    c ∈ foldl (fun cs p => apply_predicate p cs) cands ps ->
    attr_is a v c.2 = true.
Proof.
  induction ps as [| p ps IH]; intros Hin cands c H; [inversion Hin |].
  simpl in H. apply elem_of_cons in Hin. destruct Hin as [<- | Hin].
  - apply foldl_predicates_subseteq in H. simpl in H.
    apply list_elem_of_filter in H. tauto.
  - eapply IH; eassumption.
Qed.

(** What [select] keeps was a candidate, passes the node test and has
    the attributes that the predicates ask for. *)
Lemma select_sound (t : node_test) (ps : list predicate)
  (cands : list (nat * node)) (c : nat * node) :
  c ∈ select t ps cands ->
  c ∈ cands /\ test_node t c.2 = true
  /\ forall a v, AttrEq a v ∈ ps -> attr_is a v c.2 = true.
Proof.
  unfold select. intros H. split; [| split].
  - apply foldl_predicates_subseteq in H.
    apply list_elem_of_filter in H. tauto.
  - apply foldl_predicates_subseteq in H.
    apply list_elem_of_filter in H. tauto.
  - intros a v Hin. eapply foldl_predicates_attr; eassumption.
Qed.

Lemma elem_of_enumerate {A : Type} (l : list A) (i : nat) (x : A) :
  (i, x) ∈ enumerate l -> l !! i = Some x.
Proof.
  unfold enumerate. intros H.
  apply list_elem_of_lookup in H. destruct H as [j Hj].
  rewrite list_lookup_imap in Hj.
  destruct (l !! j) as [y |] eqn:E; simpl in Hj; [| discriminate].
  injection Hj as -> ->. exact E.
Qed.

(** A node selected by a child step passes the test of the step and has
    the attributes its predicates ask for. *)
Lemma walk_child_sound (t : node_test) (ps : list predicate)
  (ctx : list nat) (x : node) :
  forall n,
    x ∈ walk (child_selector t ps ctx) n ->
    test_node t x = true
    /\ forall a v, AttrEq a v ∈ ps -> attr_is a v x = true.
Proof.
  induction n as [s | u tg at_ kids IH] using node_ind'; intros H.
  - inversion H.
  - simpl in H.
    destruct (elem_of_emit _ _ _ _ _ H) as [[j [Hj Hs]] | [b [Hb Hx]]].
    + unfold child_selector in Hs. case_bool_decide; [| inversion Hs].
      simpl in Hs. apply list_elem_of_fmap in Hs.
      destruct Hs as [[j' k] [Hfst Hc]]. simpl in Hfst. subst j'.
      destruct (select_sound _ _ _ _ Hc) as [Hin [Ht Ha]].
      apply elem_of_enumerate in Hin. rewrite Hj in Hin.
      injection Hin as <-. split; assumption.
    + apply list_elem_of_fmap in Hb. destruct Hb as [k [-> Hk]].
      rewrite Forall_forall in IH. apply (IH k Hk Hx).
Qed.

Lemma emit_nothing (kids : list node) :
  forall below i,
    Forall (fun b => b = []) below -> emit [] i kids below = [].
Proof.
  induction kids as [| k kids IH]; intros below i H; simpl; [reflexivity |].
  destruct below as [| b below]; [reflexivity |].
  inversion H as [| ? ? Hb Hbelow]; subst.
  rewrite (IH _ _ Hbelow). reflexivity.
Qed.

(** A child step from an empty context selects nothing. *)
Lemma walk_empty_context (t : node_test) (ps : list predicate) (n : node) :
  walk (child_selector t ps []) n = [].
Proof.
  induction n as [s | u tg at_ kids IH] using node_ind'; [reflexivity |].
  simpl. unfold child_selector at 1.
  case_bool_decide as Hu; [inversion Hu |].
  apply emit_nothing. apply Forall_fmap.
  eapply Forall_impl; [exact IH |]. intros k Hk. exact Hk.
Qed.

End Selection.

(* ===================================================================== *)
(** * The classifier *)
(* ===================================================================== *)

Section Classifier.

Variable re_search : string -> string -> search.

Lemma classify_fields (mapping : list (string * string))
  (api_name api_syntax : string) :
  ApiInformation.name (classify re_search mapping api_name api_syntax)
  = Some api_name
  /\ is_Some (ApiInformation.ue_type
                (classify re_search mapping api_name api_syntax))
  /\ is_Some (ApiInformation.dash_type
                (classify re_search mapping api_name api_syntax)).
Proof.
  induction mapping as [| [t e] mapping IH]; simpl.
  - repeat split; eexists; reflexivity.
  - destruct (re_search _ _); try exact IH.
    repeat split; eexists; reflexivity.
Qed.

(** The first match of the mapping wins. *)
Lemma classify_first_match (api_name api_syntax : string)
  (before : list (string * string)) :
  forall api_type entry_type after,
    (forall t, t ∈ before.*1 ->
               re_search (t +:+ " " +:+ api_name) api_syntax <> Match) ->
    re_search (api_type +:+ " " +:+ api_name) api_syntax = Match ->
    classify re_search (before ++ (api_type, entry_type) :: after)
             api_name api_syntax
    = ApiInformation.mk (Some api_name) (Some api_type) (Some entry_type).
Proof.
  induction before as [| [t e] before IH]; intros api_type entry_type after
    Hbefore Hmatch; simpl.
  - rewrite Hmatch. reflexivity.
  - pose proof (Hbefore t ltac:(simpl; left)) as Ht.
    destruct (re_search (t +:+ " " +:+ api_name) api_syntax);
      try contradiction; apply IH; try assumption;
      intros t' Ht'; apply Hbefore; simpl; right; exact Ht'.
Qed.

Lemma classify_no_match (api_name api_syntax : string)
  (mapping : list (string * string)) :
  (forall t, t ∈ mapping.*1 ->
             re_search (t +:+ " " +:+ api_name) api_syntax <> Match) ->
  classify re_search mapping api_name api_syntax
  = ApiInformation.mk (Some api_name) (Some "object") (Some "Object").
Proof.
  induction mapping as [| [t e] mapping IH]; intros H; simpl.
  - reflexivity.
  - pose proof (H t ltac:(simpl; left)) as Ht.
    destruct (re_search (t +:+ " " +:+ api_name) api_syntax);
      try contradiction; apply IH;
      intros t' Ht'; apply H; simpl; right; exact Ht'.
Qed.

Lemma collect_api_information_Ok (xml : node) (api_name api_syntax : string) :
  collect_api_name_and_syntax xml = Ok (api_name, api_syntax) ->
  collect_api_information re_search xml
  = Ok (classify re_search MAPPING_API_TYPE_TO_ENTRY_TYPE
                 api_name api_syntax).
Proof.
  intros H. unfold collect_api_information. rewrite H. reflexivity.
Qed.

Lemma collect_api_information_inv (xml : node) (info : ApiInformation.t) :
  collect_api_information re_search xml = Ok info ->
  exists first rest api_syntax,
    XPath.eval title_xpath xml = first :: rest
    /\ info = classify re_search MAPPING_API_TYPE_TO_ENTRY_TYPE
                       (Dom.text_content first) api_syntax.
Proof.
  unfold collect_api_information, collect_api_name_and_syntax.
  destruct (XPath.eval title_xpath xml) as [| first rest]; simpl;
    [discriminate |].
  intros H. injection H as <-. eauto.
Qed.

(** The title query, step by step. *)
Lemma eval_title_xpath (xml : node) :
  XPath.eval title_xpath xml
  = XPath.walk
      (XPath.child_selector XPath.TextNode []
         (omap Dom.uid_of
            (XPath.walk
               (XPath.child_selector (XPath.Tag "h1")
                  [XPath.AttrEq "id" "H1TitleId"]
                  (omap Dom.uid_of
                     (XPath.descendants false (omap Dom.uid_of [xml]) xml)))
               xml)))
      xml.
Proof. reflexivity. Qed.

(** Without a title heading the title query selects nothing. *)
Lemma no_title_heading (xml : node) :
  has_element is_title_heading xml = false ->
  XPath.eval title_xpath xml = [].
Proof.
  intros Hnone. rewrite eval_title_xpath.
  match goal with
  | |- XPath.walk (XPath.child_selector _ _ (omap _ ?hs)) _ = _ =>
      destruct hs as [| h others] eqn:E
  end.
  - apply walk_empty_context.
  - assert (Hin : h ∈ h :: others) by left. rewrite <- E in Hin.
    destruct (walk_child_sound _ _ _ _ _ Hin) as [Htag Hattr].
    assert (Hh : is_title_heading h = true).
    { unfold is_title_heading. rewrite Htag. simpl.
      apply Hattr. left. }
    rewrite (walk_subnode _ _ _ Hh _ Hin) in Hnone. discriminate.
Qed.

(** The title is the content of a text node of the page. *)
Lemma title_is_text (xml first : node) (rest : list node) :
  XPath.eval title_xpath xml = first :: rest ->
  exists s_,
    first = Text s_
    /\ forall P, P first = true -> has_element P xml = true.
Proof.
  rewrite eval_title_xpath. intros E.
  assert (Hin : first ∈ first :: rest) by left. rewrite <- E in Hin.
  destruct (walk_child_sound _ _ _ _ _ Hin) as [Htest _].
  destruct first as [s_ | u t a kids]; [| discriminate Htest].
  exists s_. split; [reflexivity |].
  intros P HP. eapply walk_subnode; [exact HP | exact Hin].
Qed.

End Classifier.

(** C4. The classifier tries the source kinds in the order class, UCLASS,
    struct, USTRUCT, union, searching the declaration text for the kind,
    a space and the symbol name; the first kind whose search matches
    gives the result; when no search matches the result is object/Object;
    and for the declaration text "class Foo : public Bar" and the name
    Foo the result is class/Class, [re.search] finding a pattern without
    special characters where it occurs. *)
Theorem collect_api_information_first_match
  (re_search : string -> string -> search) (xml : node)
  (api_name api_syntax : string) :
  collect_api_name_and_syntax xml = Ok (api_name, api_syntax) ->
  MAPPING_API_TYPE_TO_ENTRY_TYPE.*1
  = ["class"; "UCLASS"; "struct"; "USTRUCT"; "union"]
  /\ (forall before api_type entry_type after,
        MAPPING_API_TYPE_TO_ENTRY_TYPE
        = before ++ (api_type, entry_type) :: after ->
        (forall t, t ∈ before.*1 ->
                   re_search (t +:+ " " +:+ api_name) api_syntax <> Match) ->
        re_search (api_type +:+ " " +:+ api_name) api_syntax = Match ->
        collect_api_information re_search xml
        = Ok (ApiInformation.mk (Some api_name) (Some api_type)
                                (Some entry_type)))
  /\ ((forall t, t ∈ MAPPING_API_TYPE_TO_ENTRY_TYPE.*1 ->
                 re_search (t +:+ " " +:+ api_name) api_syntax <> Match) ->
      collect_api_information re_search xml
      = Ok (ApiInformation.mk (Some api_name) (Some "object") (Some "Object")))
  /\ (literal_search re_search ->
      api_name = "Foo" ->
      api_syntax = "class Foo : public Bar" ->
      collect_api_information re_search xml
      = Ok (ApiInformation.mk (Some "Foo") (Some "class") (Some "Class"))).
Proof.
  intros Hpage. rewrite (collect_api_information_Ok _ _ _ _ Hpage).
  split; [reflexivity |]. split; [| split].
  - intros before api_type entry_type after -> Hbefore Hmatch.
    f_equal. apply classify_first_match; assumption.
  - intros Hnone. f_equal. apply classify_no_match. exact Hnone.
  - intros Hlaw -> ->. f_equal.
    apply (classify_first_match re_search "Foo" "class Foo : public Bar" []).
    + intros t Ht. inversion Ht.
    + rewrite Hlaw; reflexivity.
Qed.

Lemma collect_api_information_first_match_witness :
  collect_api_information Ref.re_search Sample.foo
  = Ok (ApiInformation.mk (Some "Foo") (Some "class") (Some "Class"))
  /\ collect_api_information Ref.re_search Sample.plain
     = Ok (ApiInformation.mk (Some "Foo") (Some "object") (Some "Object")).
Proof.
  split.
  - apply (proj2 (proj2 (proj2
             (collect_api_information_first_match Ref.re_search Sample.foo
                "Foo" "class Foo : public Bar" eq_refl)))).
    + intros pattern text Hliteral. unfold Ref.re_search.
      rewrite Hliteral. reflexivity.
    + reflexivity.
    + reflexivity.
  - apply (proj1 (proj2 (proj2
             (collect_api_information_first_match Ref.re_search Sample.plain
                "Foo" "" eq_refl)))).
    intros t Ht. repeat (apply elem_of_cons in Ht; destruct Ht as [-> | Ht]);
      [vm_compute; discriminate .. | inversion Ht].
Defined.

(** C9. On a page that has no [h1] element with the id [H1TitleId], the
    classifier raises ([StopIteration], from [next] on an empty result);
    so every [ApiInformation] it returns has a name, and the name is not
    empty since it is the content of a text node of the parsed page. *)
Theorem collect_api_information_name
  (re_search : string -> string -> search) (xml : node) :
  (has_element is_title_heading xml = false ->
   collect_api_information re_search xml = Raise StopIteration)
  /\ (forall info,
        collect_api_information re_search xml = Ok info ->
        exists s_,
          ApiInformation.name info = Some s_
          /\ (parsed_tree xml -> s_ <> "")).
Proof.
  split.
  - intros Hnone. unfold collect_api_information, collect_api_name_and_syntax.
    rewrite (no_title_heading xml Hnone). reflexivity.
  - intros info Hinfo.
    destruct (collect_api_information_inv _ _ _ Hinfo)
      as [first [rest [api_syntax [Htitle ->]]]].
    exists (Dom.text_content first). split.
    + apply classify_fields.
    + intros Hparsed Hempty.
      destruct (title_is_text _ _ _ Htitle) as [s_ [-> Hnode]].
      simpl in Hempty. subst s_. unfold parsed_tree in Hparsed.
      rewrite (Hnode is_empty_text eq_refl) in Hparsed. discriminate.
Qed.

Lemma collect_api_information_name_witness :
  collect_api_information Ref.re_search Sample.untitled = Raise StopIteration
  /\ exists s_,
       ApiInformation.name
         (ApiInformation.mk (Some "Foo") (Some "class") (Some "Class"))
       = Some s_
       /\ (parsed_tree Sample.foo -> s_ <> "").
Proof.
  split.
  - apply (proj1 (collect_api_information_name Ref.re_search Sample.untitled)).
    reflexivity.
  - apply (proj2 (collect_api_information_name Ref.re_search Sample.foo)).
    reflexivity.
Defined.

(* ===================================================================== *)
(** * The collector of entries without a link *)
(* ===================================================================== *)

Lemma collector_cpp_nohref_from (parent : ApiInformation.t)
  (html_path : string) (elements : list node) :
  forall collection st,
    foldM (fun collection element =>
             let name := Dom.text_content element in
             let name :=
               match ApiInformation.ue_type parent with
               | Some _ =>
                   Str.of_optional (ApiInformation.name parent)
                   +:+ "." +:+ name
               | None => name
               end in
             mret (collection ++ [(Some name, html_path +:+ "#" +:+ name)]))
          elements collection st
    = (Ok (collection
           ++ map (fun element =>
                     (Some (nohref_name parent element),
                      html_path +:+ "#" +:+ nohref_name parent element))
                  elements), st).
Proof.
  induction elements as [| element elements IH]; intros collection st; simpl.
  - rewrite app_nil_r. reflexivity.
  - unfold mbind, M_bind, mret, M_ret at 1. simpl. rewrite IH.
    rewrite <- app_assoc. reflexivity.
Qed.

(** C3, as the code has it. The no-link collector names an element
    [parentName.memberName] whenever the source kind of the parent is
    present, which it is for every classified page, the kind [object] of
    a page that declares nothing included; it uses the bare text of the
    element only when the source kind is absent. In both cases the
    target is the path of the page, [#] and that name. *)
Theorem collector_cpp_nohref_names (w : World) (elements : list node)
  (parent : ApiInformation.t) (html_path : string) (st : St) :
  collector_cpp_nohref w elements parent html_path st
  = (Ok (map (fun element =>
                (Some (nohref_name parent element),
                 html_path +:+ "#" +:+ nohref_name parent element))
             elements), st)
  /\ forall element,
       (is_Some (ApiInformation.ue_type parent) ->
        nohref_name parent element
        = Str.of_optional (ApiInformation.name parent)
          +:+ "." +:+ Dom.text_content element)
       /\ (ApiInformation.ue_type parent = None ->
           nohref_name parent element = Dom.text_content element).
Proof.
  split.
  - unfold collector_cpp_nohref. rewrite collector_cpp_nohref_from.
    reflexivity.
  - intros element. unfold nohref_name. split.
    + intros [k ->]. reflexivity.
    + intros ->. reflexivity.
Qed.

Lemma collector_cpp_nohref_names_witness :
  nohref_name Sample.plain_object Sample.member = "Foo.Size"
  /\ nohref_name (ApiInformation.mk (Some "Foo") None None) Sample.member
     = "Size".
Proof.
  split.
  - apply (proj1 (proj2 (collector_cpp_nohref_names
                           Sample.world [Sample.member] Sample.plain_object
                           "Foo/index.html" Ref.start) Sample.member)).
    eexists. reflexivity.
  - apply (proj2 (proj2 (collector_cpp_nohref_names
                           Sample.world [Sample.member]
                           (ApiInformation.mk (Some "Foo") None None)
                           "Foo/index.html" Ref.start) Sample.member)).
    reflexivity.
Defined.

(** C3, as the specification words it, fails: a page that declares
    nothing classifies as [object], which is not a typed API object, and
    its members are qualified all the same. *)
Lemma collector_cpp_nohref_object_parent :
  collect_api_information Ref.re_search Sample.plain = Ok Sample.plain_object
  /\ typed_api_object Sample.plain_object = false
  /\ claimed_nohref_name Sample.plain_object Sample.member = "Size"
  /\ collector_cpp_nohref Sample.world [Sample.member] Sample.plain_object
                          "Foo/index.html" Ref.start
     = (Ok [(Some "Foo.Size", "Foo/index.html#Foo.Size")], Ref.start)
  /\ ~ (forall w elements parent html_path st,
          (collector_cpp_nohref w elements parent html_path st).1
          = Ok (map (fun element =>
                       (Some (claimed_nohref_name parent element),
                        html_path +:+ "#"
                        +:+ claimed_nohref_name parent element))
                    elements)).
Proof.
  repeat split; try reflexivity.
  intros Hclaim.
  specialize (Hclaim Sample.world [Sample.member] Sample.plain_object
                     "Foo/index.html" Ref.start).
  vm_compute in Hclaim. discriminate Hclaim.
Qed.

(* ===================================================================== *)
(** * The page processor *)
(* ===================================================================== *)

Lemma calm_refl (st : St) : calm st st.
Proof. split; reflexivity. Qed.

Lemma calm_trans (st1 st2 st3 : St) : calm st1 st2 -> calm st2 st3 -> calm st1 st3.
Proof. intros [H1 H2] [H3 H4]. split; congruence. Qed.

Lemma read_xml_file_calm (w : World) (xml_path : string) (n : nat) :
  forall st r st',
    read_xml_file w xml_path n st = (r, st') -> calm st st'.
Proof.
  unfold read_xml_file.
  induction n as [| n IH]; intros [t tr] r st' H; simpl in H.
  - injection H as _ <-. apply calm_refl.
  - destruct (read_attempt w xml_path t).
    + injection H as _ <-. split; reflexivity.
    + apply IH in H. destruct H as [H1 H2]. split; simpl in *.
      * rewrite H1. unfold injected. rewrite omap_app. simpl.
        apply app_nil_r.
      * rewrite H2. unfold written. rewrite omap_app. simpl.
        apply app_nil_r.
    + injection H as _ <-. split; reflexivity.
Qed.

(** A tree that the reader returns was read at a tick of the call. *)
Lemma read_xml_file_ticks (w : World) (xml_path : string) (n : nat) :
  forall st r st',
    read_xml_file w xml_path n st = (r, st') ->
    tick st <= tick st'
    /\ forall xml, r = Ok xml ->
                   exists t, tick st <= t < tick st'
                             /\ read_attempt w xml_path t = Parsed xml.
Proof.
  unfold read_xml_file.
  induction n as [| n IH]; intros [t tr] r st' H; simpl in H.
  - injection H as <- <-. split; [reflexivity | intros xml Hxml; discriminate].
  - destruct (read_attempt w xml_path t) as [xml0 | | e] eqn:E.
    + injection H as <- <-. simpl. split; [lia |].
      intros xml Hxml. injection Hxml as <-. exists t. split; [lia | exact E].
    + apply IH in H. simpl in H. destruct H as [Hle Hread]. simpl.
      split; [lia |]. intros xml Hxml.
      destruct (Hread xml Hxml) as [t' [Ht' Hparsed]].
      exists t'. split; [lia | exact Hparsed].
    + injection H as <- <-. simpl. split; [lia |].
      intros xml Hxml. discriminate.
Qed.

Lemma injected_snoc_anchor (tr : list event) (u : nat) (a : node) :
  injected (tr ++ [AddPrevious u a]) = injected tr ++ [a].
Proof. unfold injected. rewrite omap_app. reflexivity. Qed.

Lemma written_snoc_anchor (tr : list event) (u : nat) (a : node) :
  written (tr ++ [AddPrevious u a]) = written tr.
Proof. unfold written. rewrite omap_app. simpl. apply app_nil_r. Qed.

Lemma injected_snoc_write (tr : list event) (p : string) (x : node) :
  injected (tr ++ [WriteFile p x]) = injected tr.
Proof. unfold injected. rewrite omap_app. simpl. apply app_nil_r. Qed.

Lemma written_snoc_write (tr : list event) (p : string) (x : node) :
  written (tr ++ [WriteFile p x]) = written tr ++ [(p, x)].
Proof. unfold written. rewrite omap_app. reflexivity. Qed.

Lemma overload_suffix_count (seen : list string) (n : string) :
  overload_suffix seen n = overload (count n seen).
Proof.
  unfold overload_suffix, count. case_bool_decide as Hin.
  - destruct (filter (fun y => y = n) seen) as [| y ys] eqn:E.
    + exfalso. assert (Hn : n ∈ filter (fun y => y = n) seen).
      { apply list_elem_of_filter. split; [reflexivity | exact Hin]. }
      rewrite E in Hn. inversion Hn.
    + reflexivity.
  - destruct (filter (fun y => y = n) seen) as [| y ys] eqn:E; [reflexivity |].
    exfalso. apply Hin.
    assert (Hy : y ∈ filter (fun y => y = n) seen) by (rewrite E; left).
    apply list_elem_of_filter in Hy. destruct Hy as [-> Hy]. exact Hy.
Qed.

Lemma number_overloads_lookup (names : list string) :
  forall seen k,
    number_overloads seen names !! k
    = (fun n => n +:+ overload (count n (seen ++ take k names)))
        <$> names !! k.
Proof.
  induction names as [| n names IH]; intros seen k; [reflexivity |].
  destruct k as [| k]; simpl.
  - rewrite app_nil_r. reflexivity.
  - rewrite IH. rewrite <- app_assoc. reflexivity.
Qed.

#[local] Opaque read_xml_file collect_api_information.

(** Runs a monadic computation in a hypothesis, a case for every way in
    which it can go. *)
Ltac plain_term x :=
  lazymatch x with
  | context [match _ with _ => _ end] => fail
  | _ => idtac
  end.

Ltac run_M H :=
  repeat (
    unfold mbind, M_bind, mret, M_ret, raise, lift, emit_event, str_method,
      cast_str, element_at, addprevious, href in H;
    simpl in H;
    match type of H with
    | context [if ?b then _ else _] => plain_term b; destruct b eqn:?
    | context [match ?x with Some _ => _ | None => _ end] =>
        plain_term x; destruct x eqn:?
    | context [match ?x with Ok _ => _ | Raise _ => _ end] =>
        plain_term x; destruct x eqn:?
    | context [let (_, _) := ?x in _] => plain_term x; destruct x eqn:?
    end).

Ltac calm_reads :=
  repeat match goal with
    | E : read_xml_file _ _ _ _ = _ |- _ => apply read_xml_file_calm in E
    end.

Section PageProcessor.

Variable re_search : string -> string -> search.
Variable rewrite_links : (string -> string) -> node -> node.
Variable w : World.

(** A pair whose target does not exist changes nothing. *)
Lemma process_cpp_collection_missing (c : Collector.t) (add has : bool)
  (elements : list node) (loc : Locals) (i : nat) (name : option string)
  (p : string) (st : St) :
  path_exists w p = false ->
  process_cpp_collection re_search w c add has elements loc (i, (name, p)) st
  = (Ok loc, st).
Proof.
  intros H. unfold process_cpp_collection. rewrite H. reflexivity.
Qed.

(** A round of the inner loop that returns has added one entry, for a
    target that exists, or none. *)
Lemma process_cpp_collection_entries (c : Collector.t) (add has : bool)
  (elements : list node) (loc loc' : Locals) (i : nat)
  (name : option string) (p : string) (st st' : St) :
  process_cpp_collection re_search w c add has elements loc (i, (name, p)) st
  = (Ok loc', st') ->
  entries loc' = entries loc
  \/ (path_exists w p = true
      /\ exists n ty, entries loc' = entries loc ++ [Entry.mk n p ty]).
Proof.
  intros H. unfold process_cpp_collection in H.
  destruct (path_exists w p) eqn:Hp; simpl in H.
  - right. split; [reflexivity |].
    run_M H; try discriminate H; injection H as <- <-; simpl; eauto.
  - left. injection H as <- _. reflexivity.
Qed.

(** Without injection, a round keeps the page and the trace of anchors
    and writes, whether it returns or raises. *)
Lemma process_cpp_collection_calm (c : Collector.t) (add has : bool)
  (elements : list node) (loc : Locals) (item : nat * (option string * string))
  (st : St) (r : result Locals) (st' : St) :
  add && negb has = false ->
  process_cpp_collection re_search w c add has elements loc item st
  = (r, st') ->
  calm st st'
  /\ forall loc', r = Ok loc' -> xml loc' = xml loc.
Proof.
  intros Hoff H. destruct item as [i [name p]].
  unfold process_cpp_collection in H. rewrite Hoff in H.
  run_M H; injection H as <- <-; calm_reads;
    (split; [first [assumption | apply calm_refl] |]);
    intros loc' Hloc'; try discriminate Hloc';
    injection Hloc' as <-; reflexivity.
Qed.

(** With injection, a round for a target that exists records the local
    name and hands [addprevious] an anchor whose name carries the suffix
    of the names recorded so far. *)
Lemma process_cpp_collection_anchor (c : Collector.t)
  (elements : list node) (loc loc' : Locals) (i : nat)
  (name : option string) (p : string) (st st' : St) :
  path_exists w p = true ->
  process_cpp_collection re_search w c true false elements loc
                         (i, (name, p)) st
  = (Ok loc', st') ->
  exists n ty,
    name = Some n
    /\ anchors loc' = anchors loc ++ [Str.last_segment n]
    /\ entries loc' = entries loc ++ [Entry.mk n p ty]
    /\ injected (trace st')
       = injected (trace st)
         ++ [dash_anchor "cpp" (S (Dom.max_uid (xml loc))) (Some ty)
               (Str.last_segment n
                +:+ overload (count (Str.last_segment n) (anchors loc)))].
Proof.
  intros Hp H. unfold process_cpp_collection in H. rewrite Hp in H.
  run_M H; try discriminate H; injection H as <- <-; calm_reads;
    eexists _, _; (split; [reflexivity |]); (split; [reflexivity |]);
    (split; [reflexivity |]);
    simpl; rewrite injected_snoc_anchor, overload_suffix_count;
    f_equal;
    match goal with
    | Hc : calm _ _ |- _ => destruct Hc as [Hc _]; exact Hc
    | |- _ => reflexivity
    end.
Qed.

(** ** The loops *)

Lemma inner_loop_existing (c : Collector.t) (add has : bool)
  (elements : list node) (items : list (nat * (option string * string)))
  (loc loc' : Locals) (st st' : St) :
  foldM (process_cpp_collection re_search w c add has elements) items loc st
  = (Ok loc', st') ->
  existing w (entries loc) -> existing w (entries loc').
Proof.
  intros H Hloc.
  pose proof (foldM_invariant
                (process_cpp_collection re_search w c add has elements)
                (fun b _ => existing w (entries b)) (fun _ => True)) as Hinv.
  specialize (Hinv ltac:(
    intros b [i [name p]] s Hb;
    destruct (process_cpp_collection _ _ _ _ _ _ _ _ _) as [[b' | e] s']
      eqn:E; [| exact I];
    apply process_cpp_collection_entries in E;
    destruct E as [-> | [Hp [n [ty ->]]]]; [exact Hb |];
    apply Forall_app; split; [exact Hb |];
    apply Forall_singleton; exact Hp) items loc st Hloc).
  rewrite H in Hinv. exact Hinv.
Qed.

Lemma process_cpp_collector_existing (html_path : string)
  (info : ApiInformation.t) (add has : bool) (page page' : node * list Entry.t)
  (c : Collector.t) (st st' : St) :
  process_cpp_collector re_search w html_path info add has page c st
  = (Ok page', st') ->
  existing w page.2 -> existing w page'.2.
Proof.
  unfold process_cpp_collector. intros H Hpage.
  apply bind_inv_Ok in H. destruct H as [collection [st1 [_ H]]].
  apply bind_inv_Ok in H. destruct H as [loc [st2 [Hloop H]]].
  injection H as <- _. simpl.
  apply (inner_loop_existing _ _ _ _ _ _ _ _ _ Hloop). exact Hpage.
Qed.

Lemma outer_loop_existing (html_path : string) (info : ApiInformation.t)
  (add has : bool) (collectors : list Collector.t)
  (page page' : node * list Entry.t) (st st' : St) :
  foldM (process_cpp_collector re_search w html_path info add has)
        collectors page st
  = (Ok page', st') ->
  existing w page.2 -> existing w page'.2.
Proof.
  intros H Hpage.
  pose proof (foldM_invariant
                (process_cpp_collector re_search w html_path info add has)
                (fun b _ => existing w b.2) (fun _ => True)) as Hinv.
  specialize (Hinv ltac:(
    intros b c s Hb;
    destruct (process_cpp_collector _ _ _ _ _ _ _ _ _) as [[b' | e] s']
      eqn:E; [| exact I];
    apply (process_cpp_collector_existing _ _ _ _ _ _ _ _ _ E Hb))
    collectors page st Hpage).
  rewrite H in Hinv. exact Hinv.
Qed.

Lemma process_cpp_html_file_existing (html_path : string)
  (collectors : list Collector.t) (add : bool) (st st' : St)
  (result : list Entry.t) :
  process_cpp_html_file re_search rewrite_links w html_path collectors add st
  = (Ok result, st') ->
  existing w result.
Proof.
  unfold process_cpp_html_file. intros H.
  apply bind_inv_Ok in H. destruct H as [xml0 [st1 [_ H]]].
  apply bind_inv_Ok in H. destruct H as [info [st2 [_ H]]].
  apply bind_inv_Ok in H. destruct H as [page [st3 [Hloop H]]].
  apply bind_inv_Ok in H. destruct H as [u [st4 [_ H]]].
  injection H as <- _.
  apply (outer_loop_existing _ _ _ _ _ _ _ _ _ Hloop). constructor.
Qed.

Lemma mapM_Forall {A B : Type} (f : A -> M B) (P : B -> Prop) :
  (forall a st b st', f a st = (Ok b, st') -> P b) ->
  forall l st bs st', mapM f l st = (Ok bs, st') -> Forall P bs.
Proof.
  intros Hf l. induction l as [| a l IH]; intros st bs st' H; simpl in H.
  - injection H as <- _. constructor.
  - apply bind_inv_Ok in H. destruct H as [b [st1 [Hb H]]].
    apply bind_inv_Ok in H. destruct H as [bs' [st2 [Hbs H]]].
    injection H as <- _. constructor; [eapply Hf | eapply IH]; eassumption.
Qed.

Lemma aggregate_existing (results : list (list Entry.t)) :
  Forall (existing w) results ->
  forall e, e ∈ aggregate results -> path_exists w (Entry.path e) = true.
Proof.
  intros H e He. unfold aggregate in He.
  apply elem_of_list_to_set in He. apply elem_of_concat in He.
  destruct He as [l [Hl Hel]].
  rewrite Forall_forall in H. specialize (H l Hl).
  unfold existing in H. rewrite Forall_forall in H. apply H. exact Hel.
Qed.

(** ** Without injection the page is left as it is *)

Lemma inner_loop_calm (c : Collector.t) (add has : bool)
  (elements : list node) (items : list (nat * (option string * string)))
  (loc : Locals) (st : St) (r : result Locals) (st' : St) :
  add && negb has = false ->
  foldM (process_cpp_collection re_search w c add has elements) items loc st
  = (r, st') ->
  calm st st' /\ forall loc', r = Ok loc' -> xml loc' = xml loc.
Proof.
  intros Hoff H.
  pose proof (foldM_invariant
                (process_cpp_collection re_search w c add has elements)
                (fun b s => calm st s /\ xml b = xml loc)
                (fun s => calm st s)) as Hinv.
  specialize (Hinv ltac:(
    intros b item s [Hs Hb];
    destruct (process_cpp_collection _ _ _ _ _ _ _ _ _) as [[b' | e] s']
      eqn:E;
    destruct (process_cpp_collection_calm _ _ _ _ _ _ _ _ _ Hoff E)
      as [Hcalm Hxml];
    [ split; [eapply calm_trans; eassumption |];
      rewrite (Hxml b' eq_refl); exact Hb
    | eapply calm_trans; eassumption ])
    items loc st (conj (calm_refl st) eq_refl)).
  rewrite H in Hinv. destruct r as [loc' | e].
  - destruct Hinv as [Hcalm Hxml]. split; [exact Hcalm |].
    intros loc'' Heq. injection Heq as <-. exact Hxml.
  - split; [exact Hinv |]. intros loc' Heq. discriminate Heq.
Qed.

Lemma process_cpp_collector_calm (html_path : string)
  (info : ApiInformation.t) (add has : bool) (page : node * list Entry.t)
  (c : Collector.t) (st : St) (r : result (node * list Entry.t)) (st' : St) :
  quiet (Collector.processor c) ->
  add && negb has = false ->
  process_cpp_collector re_search w html_path info add has page c st
  = (r, st') ->
  calm st st' /\ forall page', r = Ok page' -> page'.1 = page.1.
Proof.
  intros Hquiet Hoff H. unfold process_cpp_collector in H.
  pose proof (Hquiet w (XPath.eval (Collector.xpath c) page.1) info
                     html_path st) as Hproc.
  unfold mbind, M_bind in H.
  destruct (Collector.processor c w _ info html_path st)
    as [[collection | e] st1]; simpl in Hproc.
  - destruct (foldM _ (enumerate collection) _ st1) as [[loc | e] st2] eqn:E;
      destruct (inner_loop_calm _ _ _ _ _ _ _ _ _ Hoff E) as [Hcalm Hxml];
      injection H as <- <-;
      (split; [eapply calm_trans; eassumption |]);
      intros page' Heq; try discriminate Heq.
    injection Heq as <-. simpl. apply (Hxml loc eq_refl).
  - injection H as <- <-. split; [exact Hproc |].
    intros page' Heq. discriminate Heq.
Qed.

Lemma outer_loop_calm (html_path : string) (info : ApiInformation.t)
  (add has : bool) (collectors : list Collector.t)
  (page : node * list Entry.t) (st : St)
  (r : result (node * list Entry.t)) (st' : St) :
  Forall (fun c => quiet (Collector.processor c)) collectors ->
  add && negb has = false ->
  foldM (process_cpp_collector re_search w html_path info add has)
        collectors page st
  = (r, st') ->
  calm st st' /\ forall page', r = Ok page' -> page'.1 = page.1.
Proof.
  intros Hquiet Hoff. revert page st r st'.
  induction Hquiet as [| c collectors Hc Hcs IH]; intros page st r st' H;
    simpl in H.
  - injection H as <- <-. split; [apply calm_refl |].
    intros page' Heq. injection Heq as <-. reflexivity.
  - unfold mbind, M_bind in H.
    destruct (process_cpp_collector _ _ _ _ _ _ _ _ _) as [[page1 | e] st1]
      eqn:E;
      destruct (process_cpp_collector_calm _ _ _ _ _ _ _ _ _ Hc Hoff E)
        as [Hcalm Hpage].
    + destruct (IH _ _ _ _ H) as [Hcalm' Hpage'].
      split; [eapply calm_trans; eassumption |].
      intros page' Heq. rewrite (Hpage' page' Heq). apply Hpage. reflexivity.
    + injection H as <- <-. split; [exact Hcalm |].
      intros page' Heq. discriminate Heq.
Qed.

(** ** The shipped processors are quiet *)

Lemma foldM_calm {A B : Type} (f : B -> A -> M B) :
  (forall b a st, calm st (f b a st).2) ->
  forall l b st, calm st (foldM f l b st).2.
Proof.
  intros Hf l. induction l as [| a l IH]; intros b st; simpl.
  - apply calm_refl.
  - unfold mbind, M_bind. specialize (Hf b a st).
    destruct (f b a st) as [[b' | e] st1]; simpl in Hf.
    + eapply calm_trans; [exact Hf | apply IH].
    + exact Hf.
Qed.

Lemma collector_cpp_default_quiet : quiet (collector_cpp_default re_search).
Proof.
  intros w' elements info html_path st. unfold collector_cpp_default.
  apply foldM_calm. intros b a s.
  match goal with
  | |- calm _ (?m s).2 => destruct (m s) as [r s'] eqn:E
  end.
  simpl. run_M E; injection E as <- <-; calm_reads;
    first [assumption | apply calm_refl].
Qed.

Lemma collector_cpp_nohref_quiet : quiet collector_cpp_nohref.
Proof.
  intros w' elements info html_path st.
  unfold collector_cpp_nohref. rewrite collector_cpp_nohref_from.
  apply calm_refl.
Qed.

Lemma collector_blueprint_default_quiet :
  quiet (collector_blueprint_default re_search).
Proof.
  intros w' elements info html_path st. unfold collector_blueprint_default.
  apply foldM_calm. intros b a s.
  match goal with
  | |- calm _ (?m s).2 => destruct (m s) as [r s'] eqn:E
  end.
  simpl. run_M E; injection E as <- <-; calm_reads;
    first [assumption | apply calm_refl].
Qed.

Lemma COLLECTORS_CPP_quiet :
  Forall (fun c => quiet (Collector.processor c)) (COLLECTORS_CPP re_search).
Proof.
  unfold COLLECTORS_CPP.
  repeat constructor; simpl;
    first [apply collector_cpp_default_quiet | apply collector_cpp_nohref_quiet].
Qed.

Lemma COLLECTORS_BLUEPRINT_quiet :
  Forall (fun c => quiet (Collector.processor c))
         (COLLECTORS_BLUEPRINT re_search).
Proof.
  unfold COLLECTORS_BLUEPRINT.
  repeat constructor; simpl; apply collector_blueprint_default_quiet.
Qed.

(** ** The overload counter of one collector *)

Lemma anchors_of_app (scheme : string) (uids1 uids2 : list nat)
  (new1 new2 : list Entry.t) (names1 names2 : list string) :
  length uids1 = length new1 ->
  length new1 = length names1 ->
  anchors_of scheme (uids1 ++ uids2) (new1 ++ new2) (names1 ++ names2)
  = anchors_of scheme uids1 new1 names1 ++ anchors_of scheme uids2 new2 names2.
Proof.
  revert new1 names1.
  induction uids1 as [| u uids1 IH]; intros [| e new1] [| n names1] H1 H2;
    simpl in H1, H2; try discriminate; [reflexivity |].
  unfold anchors_of in *. simpl. f_equal. apply IH; lia.
Qed.

Lemma inner_loop_anchors (c : Collector.t) (elements : list node)
  (items : list (nat * (option string * string))) :
  forall loc st loc' st',
    foldM (process_cpp_collection re_search w c true false elements)
          items loc st
    = (Ok loc', st') ->
    anchors loc' = anchors loc ++ surviving_names w items.*2
    /\ exists (new : list Entry.t) (uids : list nat),
         entries loc' = entries loc ++ new
         /\ (fun e => Str.last_segment (Entry.name e)) <$> new
            = surviving_names w items.*2
         /\ length uids = length new
         /\ injected (trace st')
            = injected (trace st)
              ++ anchors_of "cpp" uids new
                   (number_overloads (anchors loc)
                                     (surviving_names w items.*2)).
Proof.
  induction items as [| [i [name p]] items IH]; intros loc st loc' st' H;
    cbn [foldM] in H.
  - injection H as <- <-. simpl. rewrite app_nil_r. split; [reflexivity |].
    exists [], []. rewrite !app_nil_r. repeat split.
  - apply bind_inv_Ok in H. destruct H as [loc1 [st1 [Hstep Hrest]]].
    destruct (IH _ _ _ _ Hrest)
      as [Hanchors [new [uids [Hentries [Hnames [Hlen Hinj]]]]]].
    unfold surviving_names in *. simpl.
    destruct (path_exists w p) eqn:Hp.
    + apply process_cpp_collection_anchor in Hstep; [| exact Hp].
      destruct Hstep as [n [ty [-> [Hloc1 [Hentries1 Hst1]]]]]. simpl.
      rewrite Hloc1, <- app_assoc in Hanchors. split; [exact Hanchors |].
      exists (Entry.mk n p ty :: new), (S (Dom.max_uid (xml loc)) :: uids).
      split; [rewrite Hentries, Hentries1, <- app_assoc; reflexivity |].
      split; [rewrite fmap_cons, Hnames; reflexivity |].
      split; [simpl; rewrite Hlen; reflexivity |].
      rewrite Hinj, Hst1, Hloc1, <- app_assoc. reflexivity.
    + rewrite process_cpp_collection_missing in Hstep by exact Hp.
      injection Hstep as <- <-. split; [exact Hanchors |].
      exists new, uids. repeat split; assumption.
Qed.

Lemma enumerate_values {A : Type} (l : list A) : (enumerate l).*2 = l.
Proof.
  unfold enumerate. rewrite fmap_imap.
  rewrite <- (list_fmap_id l) at 2. rewrite <- imap_const.
  apply imap_ext. reflexivity.
Qed.

End PageProcessor.

(* ===================================================================== *)
(** * The Blueprint page processor *)
(* ===================================================================== *)

Section BlueprintProcessor.

Variable re_search : string -> string -> search.
Variable rewrite_links : (string -> string) -> node -> node.
Variable w : World.

(** A pair whose target does not exist changes nothing. *)
Lemma process_blueprint_collection_missing (c : Collector.t) (add has : bool)
  (elements : list node) (loc : Locals) (i : nat) (name : option string)
  (p : string) (st : St) :
  path_exists w p = false ->
  process_blueprint_collection w c add has elements loc (i, (name, p)) st
  = (Ok loc, st).
Proof.
  intros H. unfold process_blueprint_collection. rewrite H. reflexivity.
Qed.

(** A round of the inner loop that returns has added one entry, for a
    target that exists, or none. *)
Lemma process_blueprint_collection_entries (c : Collector.t) (add has : bool)
  (elements : list node) (loc loc' : Locals) (i : nat)
  (name : option string) (p : string) (st st' : St) :
  process_blueprint_collection w c add has elements loc (i, (name, p)) st
  = (Ok loc', st') ->
  entries loc' = entries loc
  \/ (path_exists w p = true
      /\ exists n ty, entries loc' = entries loc ++ [Entry.mk n p ty]).
Proof.
  intros H. unfold process_blueprint_collection in H.
  destruct (path_exists w p) eqn:Hp; simpl in H.
  - right. split; [reflexivity |].
    run_M H; try discriminate H; injection H as <- <-; simpl; eauto.
  - left. injection H as <- _. reflexivity.
Qed.

(** Without injection, a round keeps the page and the trace of anchors
    and writes, whether it returns or raises. *)
Lemma process_blueprint_collection_calm (c : Collector.t) (add has : bool)
  (elements : list node) (loc : Locals) (item : nat * (option string * string))
  (st : St) (r : result Locals) (st' : St) :
  add && negb has = false ->
  process_blueprint_collection w c add has elements loc item st
  = (r, st') ->
  calm st st'
  /\ forall loc', r = Ok loc' -> xml loc' = xml loc.
Proof.
  intros Hoff H. destruct item as [i [name p]].
  unfold process_blueprint_collection in H. rewrite Hoff in H.
  run_M H; injection H as <- <-; calm_reads;
    (split; [first [assumption | apply calm_refl] |]);
    intros loc' Hloc'; try discriminate Hloc';
    injection Hloc' as <-; reflexivity.
Qed.

Lemma blueprint_inner_loop_existing (c : Collector.t) (add has : bool)
  (elements : list node) (items : list (nat * (option string * string)))
  (loc loc' : Locals) (st st' : St) :
  foldM (process_blueprint_collection w c add has elements) items loc st
  = (Ok loc', st') ->
  existing w (entries loc) -> existing w (entries loc').
Proof.
  intros H Hloc.
  pose proof (foldM_invariant
                (process_blueprint_collection w c add has elements)
                (fun b _ => existing w (entries b)) (fun _ => True)) as Hinv.
  specialize (Hinv ltac:(
    intros b [i [name p]] s Hb;
    destruct (process_blueprint_collection _ _ _ _ _ _ _ _) as [[b' | e] s']
      eqn:E; [| exact I];
    apply process_blueprint_collection_entries in E;
    destruct E as [-> | [Hp [n [ty ->]]]]; [exact Hb |];
    apply Forall_app; split; [exact Hb |];
    apply Forall_singleton; exact Hp) items loc st Hloc).
  rewrite H in Hinv. exact Hinv.
Qed.

Lemma process_blueprint_collector_existing (html_path : string)
  (info : ApiInformation.t) (add has : bool) (page page' : node * list Entry.t)
  (c : Collector.t) (st st' : St) :
  process_blueprint_collector w html_path info add has page c st
  = (Ok page', st') ->
  existing w page.2 -> existing w page'.2.
Proof.
  unfold process_blueprint_collector. intros H Hpage.
  apply bind_inv_Ok in H. destruct H as [collection [st1 [_ H]]].
  apply bind_inv_Ok in H. destruct H as [loc [st2 [Hloop H]]].
  injection H as <- _. simpl.
  apply (blueprint_inner_loop_existing _ _ _ _ _ _ _ _ _ Hloop). exact Hpage.
Qed.

Lemma blueprint_outer_loop_existing (html_path : string) (info : ApiInformation.t)
  (add has : bool) (collectors : list Collector.t)
  (page page' : node * list Entry.t) (st st' : St) :
  foldM (process_blueprint_collector w html_path info add has)
        collectors page st
  = (Ok page', st') ->
  existing w page.2 -> existing w page'.2.
Proof.
  intros H Hpage.
  pose proof (foldM_invariant
                (process_blueprint_collector w html_path info add has)
                (fun b _ => existing w b.2) (fun _ => True)) as Hinv.
  specialize (Hinv ltac:(
    intros b c s Hb;
    destruct (process_blueprint_collector _ _ _ _ _ _ _ _) as [[b' | e] s']
      eqn:E; [| exact I];
    apply (process_blueprint_collector_existing _ _ _ _ _ _ _ _ _ E Hb))
    collectors page st Hpage).
  rewrite H in Hinv. exact Hinv.
Qed.

Lemma process_blueprint_html_file_existing (html_path : string)
  (collectors : list Collector.t) (add : bool) (st st' : St)
  (result : list Entry.t) :
  process_blueprint_html_file re_search rewrite_links w html_path collectors add st
  = (Ok result, st') ->
  existing w result.
Proof.
  unfold process_blueprint_html_file. intros H.
  apply bind_inv_Ok in H. destruct H as [xml0 [st1 [_ H]]].
  apply bind_inv_Ok in H. destruct H as [info [st2 [_ H]]].
  apply bind_inv_Ok in H. destruct H as [page [st3 [Hloop H]]].
  apply bind_inv_Ok in H. destruct H as [u [st4 [_ H]]].
  injection H as <- _.
  apply (blueprint_outer_loop_existing _ _ _ _ _ _ _ _ _ Hloop). constructor.
Qed.

Lemma blueprint_inner_loop_calm (c : Collector.t) (add has : bool)
  (elements : list node) (items : list (nat * (option string * string)))
  (loc : Locals) (st : St) (r : result Locals) (st' : St) :
  add && negb has = false ->
  foldM (process_blueprint_collection w c add has elements) items loc st
  = (r, st') ->
  calm st st' /\ forall loc', r = Ok loc' -> xml loc' = xml loc.
Proof.
  intros Hoff H.
  pose proof (foldM_invariant
                (process_blueprint_collection w c add has elements)
                (fun b s => calm st s /\ xml b = xml loc)
                (fun s => calm st s)) as Hinv.
  specialize (Hinv ltac:(
    intros b item s [Hs Hb];
    destruct (process_blueprint_collection _ _ _ _ _ _ _ _) as [[b' | e] s']
      eqn:E;
    destruct (process_blueprint_collection_calm _ _ _ _ _ _ _ _ _ Hoff E)
      as [Hcalm Hxml];
    [ split; [eapply calm_trans; eassumption |];
      rewrite (Hxml b' eq_refl); exact Hb
    | eapply calm_trans; eassumption ])
    items loc st (conj (calm_refl st) eq_refl)).
  rewrite H in Hinv. destruct r as [loc' | e].
  - destruct Hinv as [Hcalm Hxml]. split; [exact Hcalm |].
    intros loc'' Heq. injection Heq as <-. exact Hxml.
  - split; [exact Hinv |]. intros loc' Heq. discriminate Heq.
Qed.

Lemma process_blueprint_collector_calm (html_path : string)
  (info : ApiInformation.t) (add has : bool) (page : node * list Entry.t)
  (c : Collector.t) (st : St) (r : result (node * list Entry.t)) (st' : St) :
  quiet (Collector.processor c) ->
  add && negb has = false ->
  process_blueprint_collector w html_path info add has page c st
  = (r, st') ->
  calm st st' /\ forall page', r = Ok page' -> page'.1 = page.1.
Proof.
  intros Hquiet Hoff H. unfold process_blueprint_collector in H.
  pose proof (Hquiet w (XPath.eval (Collector.xpath c) page.1) info
                     html_path st) as Hproc.
  unfold mbind, M_bind in H.
  destruct (Collector.processor c w _ info html_path st)
    as [[collection | e] st1]; simpl in Hproc.
  - destruct (foldM _ (enumerate collection) _ st1) as [[loc | e] st2] eqn:E;
      destruct (blueprint_inner_loop_calm _ _ _ _ _ _ _ _ _ Hoff E) as [Hcalm Hxml];
      injection H as <- <-;
      (split; [eapply calm_trans; eassumption |]);
      intros page' Heq; try discriminate Heq.
    injection Heq as <-. simpl. apply (Hxml loc eq_refl).
  - injection H as <- <-. split; [exact Hproc |].
    intros page' Heq. discriminate Heq.
Qed.

Lemma blueprint_outer_loop_calm (html_path : string) (info : ApiInformation.t)
  (add has : bool) (collectors : list Collector.t)
  (page : node * list Entry.t) (st : St)
  (r : result (node * list Entry.t)) (st' : St) :
  Forall (fun c => quiet (Collector.processor c)) collectors ->
  add && negb has = false ->
  foldM (process_blueprint_collector w html_path info add has)
        collectors page st
  = (r, st') ->
  calm st st' /\ forall page', r = Ok page' -> page'.1 = page.1.
Proof.
  intros Hquiet Hoff. revert page st r st'.
  induction Hquiet as [| c collectors Hc Hcs IH]; intros page st r st' H;
    simpl in H.
  - injection H as <- <-. split; [apply calm_refl |].
    intros page' Heq. injection Heq as <-. reflexivity.
  - unfold mbind, M_bind in H.
    destruct (process_blueprint_collector _ _ _ _ _ _ _ _) as [[page1 | e] st1]
      eqn:E;
      destruct (process_blueprint_collector_calm _ _ _ _ _ _ _ _ _ Hc Hoff E)
        as [Hcalm Hpage].
    + destruct (IH _ _ _ _ H) as [Hcalm' Hpage'].
      split; [eapply calm_trans; eassumption |].
      intros page' Heq. rewrite (Hpage' page' Heq). apply Hpage. reflexivity.
    + injection H as <- <-. split; [exact Hcalm |].
      intros page' Heq. discriminate Heq.
Qed.

End BlueprintProcessor.

(* ===================================================================== *)
(** * Entries and the files they point to *)
(* ===================================================================== *)

Lemma elem_of_aggregate (results : list (list Entry.t)) (e : Entry.t) :
  e ∈ aggregate results <-> exists l, l ∈ results /\ e ∈ l.
Proof.
  unfold aggregate. rewrite elem_of_list_to_set. apply elem_of_concat.
Qed.

(** C1. A pair whose target does not exist leaves the variables of the
    loop and the state as they are: no entry, no anchor. Hence the paths
    of the entries that a page processor returns exist, and so do the
    paths of the set into which a docset processor gathers them. *)
Theorem entries_reference_existing_files
  (re_search : string -> string -> search)
  (rewrite_links : (string -> string) -> node -> node) (w : World) :
  (forall c add has elements loc i name p st,
     path_exists w p = false ->
     process_cpp_collection re_search w c add has elements loc
                            (i, (name, p)) st
     = (Ok loc, st)
     /\ process_blueprint_collection w c add has elements loc
                                     (i, (name, p)) st
        = (Ok loc, st))
  /\ (forall html_path collectors add st result st',
        process_cpp_html_file re_search rewrite_links w html_path
                              collectors add st
        = (Ok result, st')
        \/ process_blueprint_html_file re_search rewrite_links w html_path
                                       collectors add st
           = (Ok result, st') ->
        forall e, e ∈ result -> path_exists w (Entry.path e) = true)
  /\ (forall api_directory st found st',
        process_cpp_docset re_search rewrite_links w api_directory st
        = (Ok found, st')
        \/ process_blueprint_docset re_search rewrite_links w api_directory st
           = (Ok found, st') ->
        forall e, e ∈ found -> path_exists w (Entry.path e) = true).
Proof.
  split; [| split].
  - intros c add has elements loc i name p st Hp. split.
    + apply process_cpp_collection_missing. exact Hp.
    + apply process_blueprint_collection_missing. exact Hp.
  - intros html_path collectors add st result st' H e He.
    assert (Hall : existing w result).
    { destruct H as [H | H].
      - eapply process_cpp_html_file_existing. exact H.
      - eapply process_blueprint_html_file_existing. exact H. }
    unfold existing in Hall. rewrite Forall_forall in Hall.
    apply Hall. exact He.
  - intros api_directory st found st' H e He.
    assert (Hall : exists results,
               found = aggregate results /\ Forall (existing w) results).
    { destruct H as [H | H].
      - unfold process_cpp_docset in H.
        apply bind_inv_Ok in H. destruct H as [u [st1 [_ H]]].
        apply bind_inv_Ok in H. destruct H as [results [st2 [Hmap H]]].
        apply process_map_Ok in Hmap. destruct Hmap as [_ Hmap].
        injection H as <- _. exists results. split; [reflexivity |].
        eapply mapM_Forall; [| exact Hmap].
        intros a s b s' Hrun.
        eapply process_cpp_html_file_existing. exact Hrun.
      - unfold process_blueprint_docset in H.
        apply bind_inv_Ok in H. destruct H as [u [st1 [_ H]]].
        apply bind_inv_Ok in H. destruct H as [results [st2 [Hmap H]]].
        apply process_map_Ok in Hmap. destruct Hmap as [_ Hmap].
        injection H as <- _. exists results. split; [reflexivity |].
        eapply mapM_Forall; [| exact Hmap].
        intros a s b s' Hrun.
        eapply process_blueprint_html_file_existing. exact Hrun. }
    destruct Hall as [results [-> Hall]].
    eapply aggregate_existing; eassumption.
Qed.

Lemma entries_reference_existing_files_witness :
  path_exists Sample.world "Foo/Bar/2/index.html" = true
  /\ process_cpp_collection Ref.re_search Sample.world
       (Collector.mk "Variable"
          (cells (div_id "variables") [XPath.Position 2] any_p)
          collector_cpp_nohref)
       true false [Sample.member]
       {| xml := Sample.foo; anchors := []; entries := [] |}
       (0, (Some "Foo.Size", "Foo/index.html#Foo.Size")) Ref.start
     = (Ok {| xml := Sample.foo; anchors := []; entries := [] |}, Ref.start).
Proof.
  split.
  - apply (proj1 (proj2 (entries_reference_existing_files
                           Ref.re_search Ref.rewrite_links Sample.world))
             "Foo/index.html" (COLLECTORS_CPP Ref.re_search) true Ref.start
             [ Sample.entry "Foo::Bar" "Foo/Bar/1/index.html" "Function";
               Sample.entry "Foo::Bar" "Foo/Bar/2/index.html" "Function" ]
             (Sample.run "Foo/index.html").2)
      with (e := Sample.entry "Foo::Bar" "Foo/Bar/2/index.html" "Function").
    + left. vm_compute. reflexivity.
    + right. left.
  - apply (proj1 (entries_reference_existing_files
                    Ref.re_search Ref.rewrite_links Sample.world)).
    reflexivity.
Defined.

(* ===================================================================== *)
(** * Overload numbering *)
(* ===================================================================== *)

Lemma length_number_overloads (names : list string) :
  forall seen, length (number_overloads seen names) = length names.
Proof.
  induction names as [| n names IH]; intros seen; simpl;
    [reflexivity | rewrite IH; reflexivity].
Qed.

(** One collector: the anchors it injects are the numbering, from an empty
    counter, of the local names of its pairs whose target exists, each
    with the kind of the entry added for the pair. *)
Lemma process_cpp_collector_anchors
  (re_search : string -> string -> search) (w : World) (html_path : string)
  (info : ApiInformation.t) (page page' : node * list Entry.t)
  (c : Collector.t) (st st' : St) :
  quiet (Collector.processor c) ->
  process_cpp_collector re_search w html_path info true false page c st
  = (Ok page', st') ->
  exists collection (new : list Entry.t) (uids : list nat),
    (Collector.processor c w (XPath.eval (Collector.xpath c) page.1)
                         info html_path st).1
    = Ok collection
    /\ page'.2 = page.2 ++ new
    /\ (fun e => Str.last_segment (Entry.name e)) <$> new
       = surviving_names w collection
    /\ length uids = length new
    /\ injected (trace st')
       = injected (trace st)
         ++ anchors_of "cpp" uids new
              (number_overloads [] (surviving_names w collection)).
Proof.
  intros Hquiet H. unfold process_cpp_collector in H.
  pose proof (Hquiet w (XPath.eval (Collector.xpath c) page.1) info
                     html_path st) as Hproc.
  apply bind_inv_Ok in H. destruct H as [collection [st1 [Hcollect H]]].
  apply bind_inv_Ok in H. destruct H as [loc [st2 [Hloop H]]].
  injection H as <- <-. rewrite Hcollect in Hproc. simpl in Hproc.
  apply inner_loop_anchors in Hloop. rewrite enumerate_values in Hloop.
  destruct Hloop as [_ [new [uids [Hentries [Hnames [Hlen Hinj]]]]]].
  simpl in Hinj, Hentries.
  exists collection, new, uids. rewrite Hcollect. simpl.
  split; [reflexivity |]. split; [exact Hentries |].
  split; [exact Hnames |]. split; [exact Hlen |].
  rewrite Hinj. destruct Hproc as [-> _]. reflexivity.
Qed.

(** All collectors of a table: the numberings follow one another, each
    from an empty counter, over the collections that the collectors
    returned. *)
Lemma outer_loop_anchors
  (re_search : string -> string -> search) (w : World) (html_path : string)
  (info : ApiInformation.t) (collectors : list Collector.t) :
  Forall (fun c => quiet (Collector.processor c)) collectors ->
  forall page st page' st',
    foldM (process_cpp_collector re_search w html_path info true false)
          collectors page st
    = (Ok page', st') ->
    length (collections_of re_search w html_path info true false
                           collectors page st)
    = length collectors
    /\ exists (new : list Entry.t) (uids : list nat),
         page'.2 = page.2 ++ new
         /\ (fun e => Str.last_segment (Entry.name e)) <$> new
            = concat (surviving_names w
                        <$> collections_of re_search w html_path info
                              true false collectors page st)
         /\ length uids = length new
         /\ injected (trace st')
            = injected (trace st)
              ++ anchors_of "cpp" uids new
                   (concat (number_overloads []
                              <$> (surviving_names w
                                     <$> collections_of re_search w html_path
                                           info true false collectors
                                           page st))).
Proof.
  induction 1 as [| c collectors Hc Hcs IH]; intros page st page' st' H;
    cbn [foldM] in H.
  - injection H as <- <-. split; [reflexivity |].
    exists [], []. simpl. rewrite !app_nil_r. repeat split.
  - apply bind_inv_Ok in H. destruct H as [page1 [st1 [Hstep Hrest]]].
    destruct (process_cpp_collector_anchors _ _ _ _ _ _ _ _ _ Hc Hstep)
      as [collection [new1 [uids1 [Hcollect [Hnew1 [Hnames1 [Hlen1 Hinj1]]]]]]].
    destruct (IH _ _ _ _ Hrest)
      as [Hcount [new [uids [Hnew [Hnames [Hlen Hinj]]]]]].
    cbn [collections_of]. rewrite Hcollect, Hstep.
    split; [simpl; rewrite Hcount; reflexivity |].
    exists (new1 ++ new), (uids1 ++ uids).
    split; [rewrite Hnew, Hnew1, <- app_assoc; reflexivity |].
    split; [rewrite fmap_app, Hnames1, Hnames; reflexivity |].
    split; [rewrite !length_app, Hlen1, Hlen; reflexivity |].
    rewrite !fmap_cons. cbn [concat].
    rewrite anchors_of_app.
    + rewrite Hinj, Hinj1, <- app_assoc. reflexivity.
    + exact Hlen1.
    + rewrite length_number_overloads, <- Hnames1, length_fmap. reflexivity.
Qed.

(** C2, as the code has it. With injection on and no Dash anchor in the
    page, the occurrence counter of a local anchor name belongs to one
    collector of the table: [anchors] is emptied before every collector.
    Take the collections that the collectors of the table return in the
    processing of the page, and of each the local names of the pairs
    whose target exists: these are the local names of the entries
    returned, in order, and the anchors injected are, entry after entry,
    these names, each collection numbered on its own: a name that [N]
    earlier pairs of the same collection share gets the bare name for
    [N = 0] and the suffix " (Overload N)" otherwise, so the second
    occurrence within a collector gets " (Overload 1)", and the first
    occurrence in a later collector the bare name again. *)
Theorem overload_counter_per_collector
  (re_search : string -> string -> search)
  (rewrite_links : (string -> string) -> node -> node) (w : World)
  (html_path : string) (collectors : list Collector.t)
  (st : St) (xml0 : node) (st0 : St) (info : ApiInformation.t)
  (result : list Entry.t) (st' : St) :
  Forall (fun c => quiet (Collector.processor c)) collectors ->
  read_xml_file w html_path default_attempts st = (Ok xml0, st0) ->
  collect_api_information re_search
    (rewrite_links (localiser w html_path) xml0)
  = Ok info ->
  has_dash_anchors_of (rewrite_links (localiser w html_path) xml0) = false ->
  process_cpp_html_file re_search rewrite_links w html_path collectors true st
  = (Ok result, st') ->
  exists (groups : list (list string)) (uids : list nat),
    groups
    = surviving_names w
      <$> collections_of re_search w html_path info true false collectors
            (rewrite_links (localiser w html_path) xml0, []) st0
    /\ length groups = length collectors
    /\ (fun e => Str.last_segment (Entry.name e)) <$> result = concat groups
    /\ length uids = length result
    /\ injected (trace st')
       = injected (trace st)
         ++ anchors_of "cpp" uids result
              (concat (number_overloads [] <$> groups))
    /\ (forall names k n,
          names ∈ groups ->
          names !! k = Some n ->
          number_overloads [] names !! k
          = Some (n +:+ overload (count n (take k names))))
    /\ overload 0 = ""
    /\ overload 1 = " (Overload 1)".
Proof.
  intros Hquiet Hread Hinfo Hnone H.
  pose proof (read_xml_file_calm _ _ _ _ _ _ Hread) as [Hi0 _].
  unfold process_cpp_html_file in H.
  rewrite (bind_Ok _ _ _ _ _ Hread) in H.
  apply bind_inv_Ok in H. destruct H as [info' [st1 [Hinfo' H]]].
  unfold lift in Hinfo'. rewrite Hinfo in Hinfo'.
  injection Hinfo' as <- <-.
  rewrite Hnone in H.
  apply bind_inv_Ok in H. destruct H as [page [st2 [Hloop H]]].
  apply bind_inv_Ok in H. destruct H as [u [st3 [Hwrite H]]].
  injection H as <- <-. unfold emit_event in Hwrite.
  injection Hwrite as _ <-. simpl.
  destruct (outer_loop_anchors _ _ _ _ _ Hquiet _ _ _ _ Hloop)
    as [Hcount [new [uids [Hnew [Hnames [Hlen Hinj]]]]]].
  simpl in Hnew. subst new.
  eexists _, uids. split; [reflexivity |].
  split; [rewrite length_fmap; exact Hcount |].
  split; [exact Hnames |]. split; [exact Hlen |]. split; [| split].
  - rewrite injected_snoc_write, Hinj, Hi0. reflexivity.
  - intros names k n _ Hk. rewrite number_overloads_lookup, Hk. reflexivity.
  - split; reflexivity.
Qed.

Lemma overload_counter_per_collector_witness :
  exists (groups : list (list string)) (uids : list nat),
    groups
    = surviving_names Sample.world
      <$> collections_of Ref.re_search Sample.world "Baz/index.html"
            (ApiInformation.mk (Some "Baz") (Some "struct") (Some "Struct"))
            true false (COLLECTORS_CPP Ref.re_search)
            (Ref.rewrite_links (localiser Sample.world "Baz/index.html")
                               Sample.baz, [])
            {| tick := 1; trace := [] |}
    /\ length groups = length (COLLECTORS_CPP Ref.re_search)
    /\ (fun e => Str.last_segment (Entry.name e))
       <$> [ Sample.entry "Foo::Bar" "Baz/Bar/1/index.html" "Function";
             Sample.entry "Foo::Bar" "Baz/Bar/2/index.html" "Function" ]
       = concat groups
    /\ length uids = 2
    /\ injected (trace (Sample.run "Baz/index.html").2)
       = injected (trace Ref.start)
         ++ anchors_of "cpp" uids
              [ Sample.entry "Foo::Bar" "Baz/Bar/1/index.html" "Function";
                Sample.entry "Foo::Bar" "Baz/Bar/2/index.html" "Function" ]
              (concat (number_overloads [] <$> groups))
    /\ (forall names k n,
          names ∈ groups ->
          names !! k = Some n ->
          number_overloads [] names !! k
          = Some (n +:+ overload (count n (take k names))))
    /\ overload 0 = ""
    /\ overload 1 = " (Overload 1)".
Proof.
  apply (overload_counter_per_collector
           Ref.re_search Ref.rewrite_links Sample.world "Baz/index.html"
           (COLLECTORS_CPP Ref.re_search) Ref.start Sample.baz
           {| tick := 1; trace := [] |}
           (ApiInformation.mk (Some "Baz") (Some "struct") (Some "Struct"))
           [ Sample.entry "Foo::Bar" "Baz/Bar/1/index.html" "Function";
             Sample.entry "Foo::Bar" "Baz/Bar/2/index.html" "Function" ]
           (Sample.run "Baz/index.html").2).
  - apply COLLECTORS_CPP_quiet.
  - vm_compute. reflexivity.
  - vm_compute. reflexivity.
  - vm_compute. reflexivity.
  - vm_compute. reflexivity.
Defined.

(** C2, as the specification words it, fails: the sample class page lists
    one function among the current ones and one of the same name among
    the deprecated ones. The second occurrence of the local name [Bar] in
    the processing of the page falls to another collector and gets the
    bare name again, not " (Overload 1)". *)
Lemma second_occurrence_in_another_collector :
  has_dash_anchors_of
    (Ref.rewrite_links (localiser Sample.world "Foo/index.html") Sample.foo)
  = false
  /\ (Sample.run "Foo/index.html").1
     = Ok [ Sample.entry "Foo::Bar" "Foo/Bar/1/index.html" "Function";
            Sample.entry "Foo::Bar" "Foo/Bar/2/index.html" "Function" ]
  /\ Str.last_segment "Foo::Bar" = "Bar"
  /\ Sample.anchor_names (Sample.run "Foo/index.html").2
     = [ Some "//apple_ref/cpp/Function/Bar";
         Some "//apple_ref/cpp/Function/Bar" ]
  /\ Sample.anchor_names (Sample.run "Foo/index.html").2
     <> [ Some "//apple_ref/cpp/Function/Bar";
          Some "//apple_ref/cpp/Function/Bar (Overload 1)" ].
Proof.
  repeat split; try (vm_compute; reflexivity).
  vm_compute. discriminate.
Qed.

(** The groups of the sample class page: the two functions fall to the
    last two collectors of the table. *)
Example groups_of_sample :
  surviving_names Sample.world
  <$> collections_of Ref.re_search Sample.world "Foo/index.html"
        (ApiInformation.mk (Some "Foo") (Some "class") (Some "Class"))
        true false (COLLECTORS_CPP Ref.re_search)
        (Ref.rewrite_links (localiser Sample.world "Foo/index.html")
                           Sample.foo, [])
        {| tick := 1; trace := [] |}
  = [ []; []; []; []; []; []; []; []; []; []; []; ["Bar"]; ["Bar"] ].
Proof. vm_compute. reflexivity. Qed.

(** Within one collector the second occurrence is numbered. *)
Example second_occurrence_in_the_same_collector :
  Sample.anchor_names (Sample.run "Baz/index.html").2
  = [ Some "//apple_ref/cpp/Function/Bar";
      Some "//apple_ref/cpp/Function/Bar (Overload 1)" ].
Proof. vm_compute. reflexivity. Qed.

(* ===================================================================== *)
(** * Pages that carry Dash anchors already *)
(* ===================================================================== *)

(** C5. A page that contains an [a] element of class [dashAnchor] when the
    processor looks for one, its links localised, gets no anchor: with or
    without injection asked for, no [addprevious] is made, whether the
    processing returns or raises, and when it returns the page written
    back is the page as it was read, links localised. The processors of
    the collectors are the shipped ones, or any that is quiet. *)
Theorem anchored_page_gets_no_anchor
  (re_search : string -> string -> search)
  (rewrite_links : (string -> string) -> node -> node) (w : World)
  (html_path : string) (collectors : list Collector.t) (add : bool)
  (st : St) (xml0 : node) (st0 : St) :
  Forall (fun c => quiet (Collector.processor c)) collectors ->
  read_xml_file w html_path default_attempts st = (Ok xml0, st0) ->
  has_dash_anchors_of (rewrite_links (localiser w html_path) xml0) = true ->
  (forall r st',
     process_cpp_html_file re_search rewrite_links w html_path collectors
                           add st
     = (r, st') ->
     injected (trace st') = injected (trace st)
     /\ forall result,
          r = Ok result ->
          written (trace st')
          = written (trace st)
            ++ [(html_path, rewrite_links (localiser w html_path) xml0)])
  /\ (forall r st',
        process_blueprint_html_file re_search rewrite_links w html_path
                                    collectors add st
        = (r, st') ->
        injected (trace st') = injected (trace st)
        /\ forall result,
             r = Ok result ->
             written (trace st')
             = written (trace st)
               ++ [(html_path, rewrite_links (localiser w html_path) xml0)]).
Proof.
  intros Hquiet Hread Hhas.
  pose proof (read_xml_file_calm _ _ _ _ _ _ Hread) as Hcalm0.
  assert (Hoff : add && negb true = false) by (destruct add; reflexivity).
  split; intros r st' H.
  - unfold process_cpp_html_file in H.
    rewrite (bind_Ok _ _ _ _ _ Hread) in H.
    unfold mbind at 1, M_bind at 1, lift in H.
    destruct (collect_api_information re_search _) as [info | e].
    + rewrite Hhas in H. unfold mbind at 1, M_bind at 1 in H.
      destruct (foldM _ collectors _ st0) as [[page | e] st2] eqn:E;
        destruct (outer_loop_calm _ _ _ _ _ _ _ _ _ _ _ Hquiet Hoff E)
          as [Hcalm Hpage].
      * simpl in H. injection H as <- <-. simpl.
        destruct (calm_trans _ _ _ Hcalm0 Hcalm) as [Hi Hw].
        rewrite injected_snoc_write, written_snoc_write, Hi, Hw.
        split; [reflexivity |]. intros result _.
        rewrite (Hpage page eq_refl). reflexivity.
      * injection H as <- <-.
        destruct (calm_trans _ _ _ Hcalm0 Hcalm) as [Hi _].
        split; [exact Hi |]. intros result Heq. discriminate Heq.
    + injection H as <- <-. destruct Hcalm0 as [Hi _].
      split; [exact Hi |]. intros result Heq. discriminate Heq.
  - unfold process_blueprint_html_file in H.
    rewrite (bind_Ok _ _ _ _ _ Hread) in H.
    unfold mbind at 1, M_bind at 1, lift in H.
    destruct (collect_api_information re_search _) as [info | e].
    + rewrite Hhas in H. unfold mbind at 1, M_bind at 1 in H.
      destruct (foldM _ collectors _ st0) as [[page | e] st2] eqn:E;
        destruct (blueprint_outer_loop_calm _ _ _ _ _ _ _ _ _ _ Hquiet Hoff E)
          as [Hcalm Hpage].
      * simpl in H. injection H as <- <-. simpl.
        destruct (calm_trans _ _ _ Hcalm0 Hcalm) as [Hi Hw].
        rewrite injected_snoc_write, written_snoc_write, Hi, Hw.
        split; [reflexivity |]. intros result _.
        rewrite (Hpage page eq_refl). reflexivity.
      * injection H as <- <-.
        destruct (calm_trans _ _ _ Hcalm0 Hcalm) as [Hi _].
        split; [exact Hi |]. intros result Heq. discriminate Heq.
    + injection H as <- <-. destruct Hcalm0 as [Hi _].
      split; [exact Hi |]. intros result Heq. discriminate Heq.
Qed.

Lemma anchored_page_gets_no_anchor_witness :
  injected (trace (Sample.run "Old/index.html").2) = injected (trace Ref.start).
Proof.
  apply (proj1 (anchored_page_gets_no_anchor
                  Ref.re_search Ref.rewrite_links Sample.world
                  "Old/index.html" (COLLECTORS_CPP Ref.re_search) true
                  Ref.start Sample.anchored {| tick := 1; trace := [] |}
                  (COLLECTORS_CPP_quiet Ref.re_search)
                  eq_refl eq_refl)
           (Sample.run "Old/index.html").1 (Sample.run "Old/index.html").2).
  apply surjective_pairing.
Defined.

(** A second run on the sample class page injects nothing and writes back
    the page it read. *)
Example second_run_on_sample :
  let second :=
    process_cpp_html_file Ref.re_search Ref.rewrite_links
      Sample.world_after_first_run "Foo/index.html"
      (COLLECTORS_CPP Ref.re_search) true Ref.start in
  injected (trace second.2) = []
  /\ written (trace second.2) = written (trace (Sample.run "Foo/index.html").2)
  /\ second.1 = (Sample.run "Foo/index.html").1.
Proof. vm_compute. repeat split; reflexivity. Qed.

(* ===================================================================== *)
(** * Aggregation *)
(* ===================================================================== *)

#[local] Instance triple_inj : Inj (=) (=) triple.
Proof.
  intros [n1 p1 t1] [n2 p2 t2] H. unfold triple in H. simpl in H.
  injection H as -> -> ->. reflexivity.
Qed.

Lemma mapM_length {A B : Type} (f : A -> M B) (l : list A) :
  forall st rs st', mapM f l st = (Ok rs, st') -> length rs = length l.
Proof.
  induction l as [| a l IH]; intros st rs st' H; simpl in H.
  - injection H as <- _. reflexivity.
  - apply bind_inv_Ok in H. destruct H as [b [st1 [_ H]]].
    apply bind_inv_Ok in H. destruct H as [bs [st2 [Hbs H]]].
    injection H as <- _. simpl. f_equal. eapply IH. exact Hbs.
Qed.

Lemma aggregate_twice (results : list (list Entry.t)) :
  aggregate (results ++ results) = aggregate results.
Proof.
  apply set_eq. intros e. rewrite !elem_of_aggregate.
  split; intros [l [Hl He]]; exists l; (split; [| exact He]).
  - apply elem_of_app in Hl. tauto.
  - apply elem_of_app. left. exact Hl.
Qed.

Lemma aggregate_permutation (results results' : list (list Entry.t)) :
  results ≡ₚ results' -> aggregate results = aggregate results'.
Proof.
  intros Hperm. apply set_eq. intros e. rewrite !elem_of_aggregate.
  split; intros [l [Hl He]]; exists l; (split; [| exact He]).
  - rewrite <- Hperm. exact Hl.
  - rewrite Hperm. exact Hl.
Qed.

(** A docset processor returns when every page processor does. *)
Lemma process_cpp_docset_Ok
  (re_search : string -> string -> search)
  (rewrite_links : (string -> string) -> node -> node) (w : World)
  (api_directory : string) (st : St) (per_file : list (list Entry.t))
  (st' : St) :
  mapM (fun html_path =>
          process_cpp_html_file re_search rewrite_links w html_path
                                (COLLECTORS_CPP re_search) true)
       (glob_html w api_directory)
       {| tick := tick st;
          trace := trace st ++ [AppendFile (css_path api_directory)] |}
  = (Ok per_file, st') ->
  process_cpp_docset re_search rewrite_links w api_directory st
  = (Ok (aggregate per_file),
     (process_cpp_docset re_search rewrite_links w api_directory st).2).
Proof.
  intros H. unfold process_cpp_docset.
  unfold mbind, M_bind, emit_event, process_map, default_max_workers.
  destruct (Nat.min 32 (cpu_count w + 4) =? 0)%nat eqn:E;
    [apply Nat.eqb_eq in E; lia |].
  rewrite H. reflexivity.
Qed.

(** C7. When a docset processor returns, the page processor has returned
    a list of entries for every file of the listing, one file after the
    other from the state in which the style sheet was appended to, and
    the set returned is the union of these lists: an entry is in it
    exactly when the list of some file has it; no two of its entries
    share the triple (name, kind, path); aggregating its own elements, or
    the lists of the files twice, gives the same set; and the order in
    which the lists of the files are combined does not matter. [cpp]
    tells the C++ processor from the Blueprint processor. *)
Theorem aggregate_is_the_union
  (re_search : string -> string -> search)
  (rewrite_links : (string -> string) -> node -> node) (w : World)
  (api_directory : string) (cpp : bool)
  (st : St) (found : gset Entry.t) (st' : St) :
  (if cpp
   then process_cpp_docset re_search rewrite_links w api_directory
   else process_blueprint_docset re_search rewrite_links w api_directory) st
  = (Ok found, st') ->
  exists per_file : list (list Entry.t),
    mapM (fun html_path =>
            if cpp
            then process_cpp_html_file re_search rewrite_links w html_path
                                       (COLLECTORS_CPP re_search) true
            else process_blueprint_html_file re_search rewrite_links w
                                             html_path
                                             (COLLECTORS_BLUEPRINT re_search)
                                             true)
         (glob_html w api_directory)
         {| tick := tick st;
            trace := trace st ++ [AppendFile (css_path api_directory)] |}
    = (Ok per_file, st')
    /\ length per_file = length (glob_html w api_directory)
    /\ (forall e, e ∈ found <-> exists l, l ∈ per_file /\ e ∈ l)
    /\ NoDup (triple <$> elements found)
    /\ aggregate [elements found] = found
    /\ aggregate (per_file ++ per_file) = found
    /\ (forall others, others ≡ₚ per_file -> aggregate others = found).
Proof.
  intros H.
  assert (Hruns : exists per_file,
             mapM (fun html_path =>
                     if cpp
                     then process_cpp_html_file re_search rewrite_links w
                            html_path (COLLECTORS_CPP re_search) true
                     else process_blueprint_html_file re_search rewrite_links
                            w html_path (COLLECTORS_BLUEPRINT re_search) true)
                  (glob_html w api_directory)
                  {| tick := tick st;
                     trace := trace st
                              ++ [AppendFile (css_path api_directory)] |}
             = (Ok per_file, st')
             /\ found = aggregate per_file).
  { destruct cpp.
    - unfold process_cpp_docset in H.
      apply bind_inv_Ok in H. destruct H as [u [st1 [Happend H]]].
      apply bind_inv_Ok in H. destruct H as [rs [st2 [Hmap H]]].
      apply process_map_Ok in Hmap. destruct Hmap as [_ Hmap].
      unfold emit_event in Happend. injection Happend as _ <-.
      injection H as <- <-. exists rs. split; [exact Hmap | reflexivity].
    - unfold process_blueprint_docset in H.
      apply bind_inv_Ok in H. destruct H as [u [st1 [Happend H]]].
      apply bind_inv_Ok in H. destruct H as [rs [st2 [Hmap H]]].
      apply process_map_Ok in Hmap. destruct Hmap as [_ Hmap].
      unfold emit_event in Happend. injection Happend as _ <-.
      injection H as <- <-. exists rs. split; [exact Hmap | reflexivity]. }
  destruct Hruns as [per_file [Hmap ->]].
  exists per_file. split; [exact Hmap |].
  split; [| split; [| split; [| split; [| split]]]].
  - eapply mapM_length. exact Hmap.
  - intros e. apply elem_of_aggregate.
  - apply NoDup_fmap_2; [apply triple_inj | apply NoDup_elements].
  - unfold aggregate at 1. simpl. rewrite app_nil_r.
    apply list_to_set_elements_L.
  - apply aggregate_twice.
  - intros others Hperm. apply aggregate_permutation. exact Hperm.
Qed.

Lemma aggregate_is_the_union_witness :
  exists per_file : list (list Entry.t),
    mapM (fun html_path =>
            if true
            then process_cpp_html_file Ref.re_search Ref.rewrite_links
                   (Ref.world_of [("Foo/index.html", Sample.foo);
                                  ("Foo/Bar/1/index.html", Sample.bar);
                                  ("Foo/Bar/2/index.html", Sample.bar)])
                   html_path (COLLECTORS_CPP Ref.re_search) true
            else process_blueprint_html_file Ref.re_search Ref.rewrite_links
                   (Ref.world_of [("Foo/index.html", Sample.foo);
                                  ("Foo/Bar/1/index.html", Sample.bar);
                                  ("Foo/Bar/2/index.html", Sample.bar)])
                   html_path (COLLECTORS_BLUEPRINT Ref.re_search) true)
         (glob_html (Ref.world_of [("Foo/index.html", Sample.foo);
                                   ("Foo/Bar/1/index.html", Sample.bar);
                                   ("Foo/Bar/2/index.html", Sample.bar)]) ".")
         {| tick := tick Ref.start;
            trace := trace Ref.start ++ [AppendFile (css_path ".")] |}
    = (Ok per_file,
       (process_cpp_docset Ref.re_search Ref.rewrite_links
          (Ref.world_of [("Foo/index.html", Sample.foo);
                         ("Foo/Bar/1/index.html", Sample.bar);
                         ("Foo/Bar/2/index.html", Sample.bar)])
          "." Ref.start).2)
    /\ length per_file
       = length (glob_html
                   (Ref.world_of [("Foo/index.html", Sample.foo);
                                  ("Foo/Bar/1/index.html", Sample.bar);
                                  ("Foo/Bar/2/index.html", Sample.bar)]) ".")
    /\ (forall e,
          e ∈ aggregate
                [ [ Sample.entry "Foo::Bar" "Foo/Bar/1/index.html" "Function";
                    Sample.entry "Foo::Bar" "Foo/Bar/2/index.html"
                                 "Function" ];
                  []; [] ]
          <-> exists l, l ∈ per_file /\ e ∈ l)
    /\ NoDup (triple
                <$> elements
                      (aggregate
                         [ [ Sample.entry "Foo::Bar" "Foo/Bar/1/index.html"
                                          "Function";
                             Sample.entry "Foo::Bar" "Foo/Bar/2/index.html"
                                          "Function" ];
                           []; [] ]))
    /\ aggregate
         [elements
            (aggregate
               [ [ Sample.entry "Foo::Bar" "Foo/Bar/1/index.html" "Function";
                   Sample.entry "Foo::Bar" "Foo/Bar/2/index.html"
                                "Function" ];
                 []; [] ])]
       = aggregate
           [ [ Sample.entry "Foo::Bar" "Foo/Bar/1/index.html" "Function";
               Sample.entry "Foo::Bar" "Foo/Bar/2/index.html" "Function" ];
             []; [] ]
    /\ aggregate (per_file ++ per_file)
       = aggregate
           [ [ Sample.entry "Foo::Bar" "Foo/Bar/1/index.html" "Function";
               Sample.entry "Foo::Bar" "Foo/Bar/2/index.html" "Function" ];
             []; [] ]
    /\ (forall others,
          others ≡ₚ per_file ->
          aggregate others
          = aggregate
              [ [ Sample.entry "Foo::Bar" "Foo/Bar/1/index.html" "Function";
                  Sample.entry "Foo::Bar" "Foo/Bar/2/index.html"
                               "Function" ];
                []; [] ]).
Proof.
  apply (aggregate_is_the_union Ref.re_search Ref.rewrite_links
           (Ref.world_of [("Foo/index.html", Sample.foo);
                          ("Foo/Bar/1/index.html", Sample.bar);
                          ("Foo/Bar/2/index.html", Sample.bar)])
           "." true Ref.start
           (aggregate
              [ [ Sample.entry "Foo::Bar" "Foo/Bar/1/index.html" "Function";
                  Sample.entry "Foo::Bar" "Foo/Bar/2/index.html"
                               "Function" ];
                []; [] ])
           (process_cpp_docset Ref.re_search Ref.rewrite_links
              (Ref.world_of [("Foo/index.html", Sample.foo);
                             ("Foo/Bar/1/index.html", Sample.bar);
                             ("Foo/Bar/2/index.html", Sample.bar)])
              "." Ref.start).2).
  eapply process_cpp_docset_Ok. vm_compute. reflexivity.
Defined.

Example aggregate_collapses_duplicates :
  elements (aggregate [ [Sample.entry "Foo" "Foo/index.html" "Class"];
                        [Sample.entry "Foo" "Foo/index.html" "Class"] ])
  = [Sample.entry "Foo" "Foo/index.html" "Class"].
Proof. vm_compute. reflexivity. Qed.

(* ===================================================================== *)
(** * The manifest *)
(* ===================================================================== *)

(** C8. The manifest of the C++ flavour has the key [dashIndexFilePath]
    with the index page of the flavour; the manifest of the Blueprint
    flavour has the eight fixed keys and no [dashIndexFilePath]: the
    branch that would add it tests for the C++ flavour a second time. *)
Theorem blueprint_manifest_has_no_index_path :
  docset_type_of "UnrealEngineCppAPI-HTML.tgz" = Some "cpp"
  /\ (value_of "dashIndexFilePath"
        <$> generate_docset_mapping "UnrealEngineCppAPI-HTML.tgz")
     = Some (Some "en-US/API/index.html")
  /\ docset_type_of "UnrealEngineBlueprintAPI-HTML.tgz" = Some "blueprint"
  /\ (keys <$> generate_docset_mapping "UnrealEngineBlueprintAPI-HTML.tgz")
     = Some [ "CFBundleIdentifier"; "CFBundleName";
              "DashDocSetDeclaredInStyle"; "DashDocSetFallbackURL";
              "DashDocSetFamily"; "DocSetPlatformFamily";
              "isDashDocset"; "isJavaScriptEnabled" ]
  /\ (value_of "dashIndexFilePath"
        <$> generate_docset_mapping "UnrealEngineBlueprintAPI-HTML.tgz")
     = Some None.
Proof. repeat split; vm_compute; reflexivity. Qed.

(** The same for every archive of the Blueprint flavour. *)
Lemma blueprint_manifest_keys (input : string) :
  docset_type_of input = Some "blueprint" ->
  keys <$> generate_docset_mapping input
  = Some [ "CFBundleIdentifier"; "CFBundleName";
           "DashDocSetDeclaredInStyle"; "DashDocSetFallbackURL";
           "DashDocSetFamily"; "DocSetPlatformFamily";
           "isDashDocset"; "isJavaScriptEnabled" ].
Proof.
  intros H. unfold generate_docset_mapping. rewrite H. reflexivity.
Qed.

(* ===================================================================== *)
(** * The reader, for every budget *)
(* ===================================================================== *)

#[local] Transparent read_xml_file.

(** X1. Whatever the budget, [read_xml_file] makes at most [attempts]
    reads; every read but the last failed to parse and was followed by
    one sleep of 100 ms; the last read decides: a parsed tree is
    returned, another failure is raised as it is, and [RuntimeError] is
    raised exactly when all [attempts] reads failed to parse (none at all
    for a budget of zero). *)
Theorem read_xml_file_budget (w : World) (xml_path : string) (attempts : nat)
  (st : St) (r : result node) (st' : St) :
  read_xml_file w xml_path attempts st = (r, st') ->
  exists reads,
    reads <= attempts
    /\ tick st' = tick st + reads
    /\ (forall j, j < reads - 1 ->
                  read_attempt w xml_path (tick st + j) = ParserError)
    /\ match r with
       | Ok xml =>
           0 < reads
           /\ read_attempt w xml_path (tick st + (reads - 1)) = Parsed xml
           /\ trace st' = trace st ++ replicate (reads - 1) (Sleep 100)
       | Raise (ReadError e) =>
           0 < reads
           /\ read_attempt w xml_path (tick st + (reads - 1)) = Failed e
           /\ trace st' = trace st ++ replicate (reads - 1) (Sleep 100)
       | Raise (RuntimeError msg arg) =>
           reads = attempts /\ msg = could_not_parse /\ arg = xml_path
           /\ (forall j, j < reads ->
                         read_attempt w xml_path (tick st + j) = ParserError)
           /\ trace st' = trace st ++ replicate reads (Sleep 100)
       | Raise _ => False
       end.
Proof.
  unfold read_xml_file. revert st r st'.
  induction attempts as [| n IH]; intros [t tr] r st' H; simpl in H.
  - injection H as <- <-. exists 0. simpl.
    rewrite Nat.add_0_r, app_nil_r.
    repeat split; try lia; intros j Hj; lia.
  - destruct (read_attempt w xml_path t) as [xml | | e] eqn:E.
    + injection H as <- <-. exists 1. simpl. rewrite Nat.add_0_r, app_nil_r.
      repeat split; try lia; try assumption; try (intros j Hj; lia).
    + apply IH in H. destruct H as [reads [Hle [Htick [Hbefore Hlast]]]].
      cbn [tick trace] in *. exists (S reads).
      replace (S reads - 1) with reads by lia.
      split; [lia |]. split; [lia |]. split.
      * intros j Hj. destruct j as [| j].
        -- rewrite Nat.add_0_r. exact E.
        -- replace (t + S j) with (S t + j) by lia. apply Hbefore. lia.
      * destruct r as [xml | []]; cbn beta iota in Hlast |- *;
          try contradiction.
        -- destruct Hlast as [Hpos [Hread Htrace]].
           split; [lia |]. split.
           ++ replace (t + reads) with (S t + (reads - 1)) by lia. exact Hread.
           ++ destruct reads as [| m]; [lia |]. rewrite Htrace, <- app_assoc.
              simpl. rewrite Nat.sub_0_r. reflexivity.
        -- destruct Hlast as [-> [-> [-> [Hall Htrace]]]].
           split; [reflexivity |]. split; [reflexivity |].
           split; [reflexivity |]. split.
           ++ intros j Hj. destruct j as [| j].
              ** rewrite Nat.add_0_r. exact E.
              ** replace (t + S j) with (S t + j) by lia. apply Hall. lia.
           ++ rewrite Htrace, <- app_assoc. reflexivity.
        -- destruct Hlast as [Hpos [Hread Htrace]].
           split; [lia |]. split.
           ++ replace (t + reads) with (S t + (reads - 1)) by lia. exact Hread.
           ++ destruct reads as [| m]; [lia |]. rewrite Htrace, <- app_assoc.
              simpl. rewrite Nat.sub_0_r. reflexivity.
    + injection H as <- <-. exists 1. simpl. rewrite Nat.add_0_r, app_nil_r.
      repeat split; try lia; try assumption; try (intros j Hj; lia).
Qed.

Lemma read_xml_file_budget_witness :
  exists reads,
    reads <= 2
    /\ 2 = tick Ref.start + reads
    /\ (forall j, j < reads - 1 ->
                  read_attempt (Ref.flaky 2 Sample.world) "Foo/index.html"
                               (tick Ref.start + j) = ParserError)
    /\ reads = 2 /\ could_not_parse = could_not_parse
    /\ "Foo/index.html" = "Foo/index.html"
    /\ (forall j, j < reads ->
                  read_attempt (Ref.flaky 2 Sample.world) "Foo/index.html"
                               (tick Ref.start + j) = ParserError)
    /\ [Sleep 100; Sleep 100]
       = trace Ref.start ++ replicate reads (Sleep 100).
Proof.
  apply (read_xml_file_budget (Ref.flaky 2 Sample.world) "Foo/index.html" 2
           Ref.start
           (Raise (RuntimeError could_not_parse "Foo/index.html"))
           {| tick := 2; trace := [Sleep 100; Sleep 100] |}).
  vm_compute. reflexivity.
Defined.

#[local] Opaque read_xml_file.

(* ===================================================================== *)
(** * Joining paths *)
(* ===================================================================== *)

Lemma list_ascii_of_string_app (a b : string) :
  list_ascii_of_string (a +:+ b)
  = list_ascii_of_string a ++ list_ascii_of_string b.
Proof.
  induction a as [| c a IH]; simpl; [reflexivity | rewrite IH; reflexivity].
Qed.

Lemma string_of_list_ascii_app (a b : list ascii) :
  string_of_list_ascii (a ++ b)
  = string_of_list_ascii a +:+ string_of_list_ascii b.
Proof.
  induction a as [| c a IH]; simpl; [reflexivity | rewrite IH; reflexivity].
Qed.

(** X2. [join_path] drops a final [index.html] of the parent together
    with the slash before it, and since the dot of the pattern is not
    escaped, any character but a newline in the place of the dot does as
    well; the name follows the remaining directory and one slash. The
    directory is one that does not end in a backslash. *)
Theorem join_path_drops_index (directory name : string) (dot : ascii) :
  dot <> Str.newline ->
  StrOps.last_char directory <> Some Str.backslash ->
  PathLib.join_path (directory +:+ "/index" +:+ String dot "html") name
  = directory +:+ "/" +:+ name.
Proof.
  intros Hdot Hlast. unfold PathLib.join_path. f_equal.
  unfold PathLib.strip_index.
  rewrite list_ascii_of_string_app. simpl list_ascii_of_string.
  rewrite rev_app_distr. simpl rev. simpl app.
  cbv beta iota zeta.
  change (Ascii.eqb "l"%char Str.newline) with false.
  cbv beta iota zeta delta [PathLib.strip_index_rev].
  rewrite (proj2 (Ascii.eqb_neq dot Str.newline) Hdot).
  cbv beta iota zeta delta [PathLib.strip_slashes_rev].
  rewrite app_nil_r. unfold StrOps.last_char in Hlast.
  destruct (rev (list_ascii_of_string directory)) as [| c r] eqn:E.
  - rewrite <- E, rev_involutive. apply string_of_list_ascii_of_string.
  - destruct (Ascii.eqb_spec c Str.backslash) as [-> | _].
    + exfalso. apply Hlast. reflexivity.
    + rewrite <- E, rev_involutive. apply string_of_list_ascii_of_string.
Qed.

Lemma join_path_drops_index_witness :
  PathLib.join_path "API/Runtime/indexQhtml" "Core" = "API/Runtime/Core".
Proof.
  apply (join_path_drops_index "API/Runtime" "Core" "Q"%char).
  - discriminate.
  - discriminate.
Defined.

(** X3. A parent that ends neither in [l] nor in a newline, such as the
    path of a directory, is kept whole: the result is the parent, a slash
    and the name. *)
Theorem join_path_keeps_directory (parent name : string) :
  StrOps.last_char parent <> Some "l"%char ->
  StrOps.last_char parent <> Some Str.newline ->
  PathLib.join_path parent name = parent +:+ "/" +:+ name.
Proof.
  intros Hl Hnl. unfold PathLib.join_path. f_equal.
  unfold PathLib.strip_index, StrOps.last_char in *.
  destruct (rev (list_ascii_of_string parent)) as [| c r]; [reflexivity |].
  destruct (Ascii.eqb_spec c Str.newline) as [-> | _];
    [exfalso; apply Hnl; reflexivity |].
  unfold PathLib.strip_index_rev.
  destruct c as [[] [] [] [] [] [] [] []]; try reflexivity.
  exfalso. apply Hl. reflexivity.
Qed.

Lemma join_path_keeps_directory_witness :
  PathLib.join_path "API/Runtime" "Core" = "API/Runtime/Core".
Proof.
  apply (join_path_keeps_directory "API/Runtime" "Core"); discriminate.
Defined.

(* ===================================================================== *)
(** * The kinds of the classifier *)
(* ===================================================================== *)

Lemma classify_kinds (re_search : string -> string -> search)
  (mapping : list (string * string)) (api_name api_syntax : string) :
  exists kind,
    kind ∈ mapping ++ [("object", "Object")]
    /\ classify re_search mapping api_name api_syntax
       = ApiInformation.mk (Some api_name) (Some kind.1) (Some kind.2).
Proof.
  induction mapping as [| [t e] mapping IH]; simpl.
  - exists ("object", "Object"). split; [left | reflexivity].
  - destruct (re_search _ _).
    + exists (t, e). split; [left | reflexivity].
    + destruct IH as [kind [Hin Heq]]. exists kind. split; [right |]; assumption.
    + destruct IH as [kind [Hin Heq]]. exists kind. split; [right |]; assumption.
Qed.

(** X4. The source kind and the entry kind of a classified page go
    together: they are a row of the mapping, or object with Object; hence
    the entry kind is one of Class, Struct, Union and Object, whatever
    [re.search] answers. *)
Theorem collect_api_information_kinds
  (re_search : string -> string -> search) (xml : node)
  (info : ApiInformation.t) :
  collect_api_information re_search xml = Ok info ->
  (exists kind,
     kind ∈ MAPPING_API_TYPE_TO_ENTRY_TYPE ++ [("object", "Object")]
     /\ ApiInformation.ue_type info = Some kind.1
     /\ ApiInformation.dash_type info = Some kind.2)
  /\ exists k, ApiInformation.dash_type info = Some k /\ k ∈ entry_kinds.
Proof.
  intros H. apply collect_api_information_inv in H.
  destruct H as [first [rest [api_syntax [_ ->]]]].
  destruct (classify_kinds re_search MAPPING_API_TYPE_TO_ENTRY_TYPE
              (Dom.text_content first) api_syntax) as [kind [Hin ->]].
  simpl. split.
  - exists kind. repeat split. exact Hin.
  - exists kind.2. split; [reflexivity |].
    unfold MAPPING_API_TYPE_TO_ENTRY_TYPE in Hin. simpl in Hin.
    unfold entry_kinds.
    repeat (apply elem_of_cons in Hin; destruct Hin as [-> | Hin]);
      simpl; [set_solver .. | inversion Hin].
Qed.

Lemma collect_api_information_kinds_witness :
  (exists kind,
     kind ∈ MAPPING_API_TYPE_TO_ENTRY_TYPE ++ [("object", "Object")]
     /\ Some "class" = Some kind.1
     /\ Some "Class" = Some kind.2)
  /\ exists k, Some "Class" = Some k /\ k ∈ entry_kinds.
Proof.
  apply (collect_api_information_kinds Ref.re_search Sample.foo
           (ApiInformation.mk (Some "Foo") (Some "class") (Some "Class"))).
  vm_compute. reflexivity.
Defined.

(* ===================================================================== *)
(** * The collectors that follow links *)
(* ===================================================================== *)

Lemma foldM_app {A B : Type} (f : B -> A -> M B) (l1 l2 : list A) :
  forall b st,
    foldM f (l1 ++ l2) b st = (foldM f l1 b ≫= foldM f l2) st.
Proof.
  induction l1 as [| a l1 IH]; intros b st; simpl.
  - reflexivity.
  - unfold mbind, M_bind. destruct (f b a st) as [[b' | e] st1].
    + rewrite IH. reflexivity.
    + reflexivity.
Qed.

Lemma collect_api_information_named
  (re_search : string -> string -> search) (xml : node)
  (info : ApiInformation.t) :
  collect_api_information re_search xml = Ok info ->
  exists n, ApiInformation.name info = Some n.
Proof.
  intros H. apply collect_api_information_inv in H.
  destruct H as [first [rest [api_syntax [_ ->]]]].
  eexists. apply classify_fields.
Qed.

Section LinkCollectors.

Variable re_search : string -> string -> search.
Variable w : World.
Variable parent : ApiInformation.t.
Variable html_path : string.

Lemma existing_targets_cons (h : string) (hrefs : list string) :
  existing_targets w html_path (h :: hrefs)
  = if path_exists w (PathLib.join_path html_path h)
    then PathLib.join_path html_path h :: existing_targets w html_path hrefs
    else existing_targets w html_path hrefs.
Proof.
  unfold existing_targets. cbn [fmap list_fmap].
  destruct (path_exists w (PathLib.join_path html_path h)) eqn:E.
  - rewrite filter_cons_True by exact E. reflexivity.
  - rewrite filter_cons_False by (rewrite E; discriminate). reflexivity.
Qed.

Lemma collector_cpp_default_from (elements : list node) :
  forall acc st collection st',
    foldM (fun collection element =>
             h ← href element;
             let collected_path := PathLib.join_path html_path h in
             if negb (path_exists w collected_path) then mret collection
             else
               collected_xml ← read_xml_file w collected_path default_attempts;
               info ← lift (collect_api_information re_search collected_xml);
               let collected_name := ApiInformation.name info in
               mret (collection ++ [(collected_name, collected_path)]))
          elements acc st
    = (Ok collection, st') ->
    exists hrefs new,
      Dom.get "href" <$> elements = Some <$> hrefs
      /\ collection = acc ++ new
      /\ new.*2 = existing_targets w html_path hrefs
      /\ Forall (fun pair => is_Some pair.1) new.
Proof.
  induction elements as [| element elements IH];
    intros acc st collection st' H; cbn [foldM] in H.
  - injection H as <- _. exists [], []. rewrite app_nil_r.
    repeat split. constructor.
  - apply bind_inv_Ok in H. destruct H as [acc1 [st1 [Hstep Hrest]]].
    destruct (IH _ _ _ _ Hrest) as [hrefs [new [Hhrefs [-> [Hnew Hnamed]]]]].
    run_M Hstep; try discriminate Hstep; injection Hstep as <- <-.
    + match goal with
      | Hh : Dom.get "href" element = Some ?h |- _ =>
          exists (h :: hrefs), new; rewrite fmap_cons, Hh, Hhrefs
      end.
      repeat split; try assumption.
      rewrite existing_targets_cons.
      match goal with
      | Hp : negb _ = true |- _ =>
          apply negb_true_iff in Hp; rewrite Hp
      end.
      exact Hnew.
    + match goal with
      | Hh : Dom.get "href" element = Some ?h,
        Hi : collect_api_information _ _ = Ok ?info |- _ =>
          exists (h :: hrefs),
            ((ApiInformation.name info, PathLib.join_path html_path h) :: new);
          rewrite fmap_cons, Hh, Hhrefs;
          destruct (collect_api_information_named _ _ _ Hi) as [n Hn]
      end.
      split; [reflexivity |]. split; [rewrite <- app_assoc; reflexivity |].
      split.
      * rewrite existing_targets_cons.
        match goal with
        | Hp : negb _ = false |- _ =>
            apply negb_false_iff in Hp; rewrite Hp
        end.
        simpl. f_equal. exact Hnew.
      * constructor; [eexists; exact Hn | exact Hnamed].
Qed.

Lemma collector_blueprint_default_from (elements : list node) :
  forall acc st collection st',
    foldM (fun collection element =>
             h ← href element;
             let collected_path := PathLib.join_path html_path h in
             if negb (path_exists w collected_path) then mret collection
             else
               collected_xml ← read_xml_file w collected_path default_attempts;
               info ← lift (collect_api_information re_search collected_xml);
               let collected_name := ApiInformation.name info in
               mret (collection ++
                     [(Some (Str.of_optional (ApiInformation.name parent)
                             +:+ "." +:+ Str.of_optional collected_name),
                       collected_path)]))
          elements acc st
    = (Ok collection, st') ->
    exists hrefs new,
      Dom.get "href" <$> elements = Some <$> hrefs
      /\ collection = acc ++ new
      /\ new.*2 = existing_targets w html_path hrefs
      /\ tick st <= tick st'
      /\ Forall (fun pair =>
                   exists t xml info,
                     tick st <= t < tick st'
                     /\ read_attempt w pair.2 t = Parsed xml
                     /\ collect_api_information re_search xml = Ok info
                     /\ pair.1
                        = Some (Str.of_optional (ApiInformation.name parent)
                                +:+ "."
                                +:+ Str.of_optional (ApiInformation.name info)))
                new.
Proof.
  induction elements as [| element elements IH];
    intros acc st collection st' H; cbn [foldM] in H.
  - injection H as <- <-. exists [], []. rewrite app_nil_r.
    split; [reflexivity |]. split; [reflexivity |]. split; [reflexivity |].
    split; [lia | constructor].
  - apply bind_inv_Ok in H. destruct H as [acc1 [st1 [Hstep Hrest]]].
    destruct (IH _ _ _ _ Hrest)
      as [hrefs [new [Hhrefs [-> [Hnew [Hle Hnamed]]]]]].
    run_M Hstep; try discriminate Hstep; injection Hstep as <- <-.
    + match goal with
      | Hh : Dom.get "href" element = Some ?h |- _ =>
          exists (h :: hrefs), new; rewrite fmap_cons, Hh, Hhrefs
      end.
      repeat split; try assumption.
      rewrite existing_targets_cons.
      match goal with
      | Hp : negb _ = true |- _ =>
          apply negb_true_iff in Hp; rewrite Hp
      end.
      exact Hnew.
    + match goal with
      | E : read_xml_file _ _ _ _ = (Ok ?xml, _) |- _ =>
          destruct (read_xml_file_ticks _ _ _ _ _ _ E) as [Hle1 Hread];
          destruct (Hread _ eq_refl) as [t [Ht Hparsed]]
      end.
      match goal with
      | Hh : Dom.get "href" element = Some ?h,
        Hi : collect_api_information _ _ = Ok ?info |- _ =>
          exists (h :: hrefs),
            ((Some (Str.of_optional (ApiInformation.name parent)
                    +:+ "." +:+ Str.of_optional (ApiInformation.name info)),
              PathLib.join_path html_path h) :: new);
          rewrite fmap_cons, Hh, Hhrefs
      end.
      split; [reflexivity |]. split; [rewrite <- app_assoc; reflexivity |].
      split; [| split; [lia |]].
      * rewrite existing_targets_cons.
        match goal with
        | Hp : negb _ = false |- _ =>
            apply negb_false_iff in Hp; rewrite Hp
        end.
        simpl. f_equal. exact Hnew.
      * constructor.
        -- eexists t, _, _. split; [lia |]. split; [exact Hparsed |].
           split; [eassumption | reflexivity].
        -- eapply Forall_impl; [exact Hnamed |].
           intros pair [t' [xml' [info' [Ht' Hrest']]]].
           exists t', xml', info'. split; [lia | exact Hrest'].
Qed.

End LinkCollectors.

(** X5. When the default C++ collector returns, every element had an
    [href]; the targets it returns are the links, joined to the path of
    the page, whose file exists, in the order of the elements, the others
    being passed over; and every pair has a name. *)
Theorem collector_cpp_default_targets
  (re_search : string -> string -> search) (w : World)
  (elements : list node) (parent : ApiInformation.t) (html_path : string)
  (st : St) (collection : list (option string * string)) (st' : St) :
  collector_cpp_default re_search w elements parent html_path st
  = (Ok collection, st') ->
  exists hrefs,
    Dom.get "href" <$> elements = Some <$> hrefs
    /\ collection.*2 = existing_targets w html_path hrefs
    /\ Forall (fun pair => is_Some pair.1 /\ path_exists w pair.2 = true)
              collection
    /\ length collection <= length elements.
Proof.
  unfold collector_cpp_default. intros H.
  apply collector_cpp_default_from in H.
  destruct H as [hrefs [new [Hhrefs [-> [Hnew Hnamed]]]]]. simpl.
  exists hrefs. split; [exact Hhrefs |]. split; [exact Hnew |]. split.
  - apply Forall_forall. intros pair Hpair. split.
    + rewrite Forall_forall in Hnamed. apply Hnamed. exact Hpair.
    + assert (Hin : pair.2 ∈ new.*2)
        by (apply list_elem_of_fmap; exists pair; split; [reflexivity | exact Hpair]).
      rewrite Hnew in Hin. unfold existing_targets in Hin.
      apply list_elem_of_filter in Hin. tauto.
  - rewrite <- (length_fmap snd new), Hnew.
    unfold existing_targets.
    etransitivity; [apply length_filter |].
    rewrite length_fmap.
    rewrite <- (length_fmap Some hrefs), <- Hhrefs, length_fmap. reflexivity.
Qed.

Lemma collector_cpp_default_targets_witness :
  exists hrefs,
    Dom.get "href" <$> XPath.eval (Collector.xpath More.functions) More.gap
    = Some <$> hrefs
    /\ [(Some "Foo::Bar", "Gap/Bar/1/index.html")].*2
       = existing_targets More.world "Gap/index.html" hrefs
    /\ Forall (fun pair => is_Some pair.1
                           /\ path_exists More.world pair.2 = true)
              [(Some "Foo::Bar", "Gap/Bar/1/index.html")]
    /\ length [(Some "Foo::Bar", "Gap/Bar/1/index.html")]
       <= length (XPath.eval (Collector.xpath More.functions) More.gap).
Proof.
  apply (collector_cpp_default_targets Ref.re_search More.world
           (XPath.eval (Collector.xpath More.functions) More.gap)
           Sample.plain_object "Gap/index.html" Ref.start
           [(Some "Foo::Bar", "Gap/Bar/1/index.html")]
           {| tick := 1; trace := [] |}).
  vm_compute. reflexivity.
Defined.

(** X6. An element without an [href] stops the default C++ collector:
    when the elements before it were collected, [KeyError] is raised,
    and nothing is returned for the elements collected so far. *)
Theorem collector_cpp_default_missing_href
  (re_search : string -> string -> search) (w : World)
  (before after : list node) (element : node) (parent : ApiInformation.t)
  (html_path : string) (st : St)
  (collection : list (option string * string)) (st' : St) :
  collector_cpp_default re_search w before parent html_path st
  = (Ok collection, st') ->
  Dom.get "href" element = None ->
  collector_cpp_default re_search w (before ++ element :: after) parent
                        html_path st
  = (Raise (KeyError "href"), st').
Proof.
  unfold collector_cpp_default. intros Hbefore Hnone.
  rewrite foldM_app. rewrite (bind_Ok _ _ _ _ _ Hbefore).
  cbn [foldM]. unfold mbind at 1, M_bind at 1.
  unfold mbind at 1, M_bind at 1, href. rewrite Hnone. reflexivity.
Qed.

Lemma collector_cpp_default_missing_href_witness :
  collector_cpp_default Ref.re_search Sample.world
    ([] ++ [Elem 5 "a" [("name", "top")] [Text "Top"]])
    Sample.plain_object "Foo/index.html" Ref.start
  = (Raise (KeyError "href"), Ref.start).
Proof.
  apply (collector_cpp_default_missing_href Ref.re_search Sample.world
           [] [] (Elem 5 "a" [("name", "top")] [Text "Top"])
           Sample.plain_object "Foo/index.html" Ref.start [] Ref.start).
  - reflexivity.
  - reflexivity.
Defined.

(** X7. When the default Blueprint collector returns, the targets are the
    links whose file exists, in the order of the elements, and every name
    is the name of the parent, a dot and the name that the classifier
    reads from the title of the target page, the page being read during
    the call (the text [None] stands for an absent name). *)
Theorem collector_blueprint_default_names
  (re_search : string -> string -> search) (w : World)
  (elements : list node) (parent : ApiInformation.t) (html_path : string)
  (st : St) (collection : list (option string * string)) (st' : St) :
  collector_blueprint_default re_search w elements parent html_path st
  = (Ok collection, st') ->
  exists hrefs,
    Dom.get "href" <$> elements = Some <$> hrefs
    /\ collection.*2 = existing_targets w html_path hrefs
    /\ Forall (fun pair =>
                 exists t xml info,
                   tick st <= t < tick st'
                   /\ read_attempt w pair.2 t = Parsed xml
                   /\ collect_api_information re_search xml = Ok info
                   /\ pair.1
                      = Some (Str.of_optional (ApiInformation.name parent)
                              +:+ "."
                              +:+ Str.of_optional (ApiInformation.name info)))
              collection.
Proof.
  unfold collector_blueprint_default. intros H.
  apply collector_blueprint_default_from in H.
  destruct H as [hrefs [new [Hhrefs [-> [Hnew [_ Hnamed]]]]]]. simpl.
  exists hrefs. repeat split; assumption.
Qed.

Lemma collector_blueprint_default_names_witness :
  exists hrefs,
    Dom.get "href" <$> XPath.eval (members_after "actions") More.actor
    = Some <$> hrefs
    /\ [ (Some "Actor.Jump", "Actor/Jump/1/index.html");
         (Some "Actor.Jump", "Actor/Jump/2/index.html") ].*2
       = existing_targets More.world "Actor/index.html" hrefs
    /\ Forall (fun pair =>
                 exists t xml info,
                   tick Ref.start <= t < tick {| tick := 2; trace := [] |}
                   /\ read_attempt More.world pair.2 t = Parsed xml
                   /\ collect_api_information Ref.re_search xml = Ok info
                   /\ pair.1
                      = Some (Str.of_optional (Some "Actor")
                              +:+ "."
                              +:+ Str.of_optional (ApiInformation.name info)))
              [ (Some "Actor.Jump", "Actor/Jump/1/index.html");
                (Some "Actor.Jump", "Actor/Jump/2/index.html") ].
Proof.
  apply (collector_blueprint_default_names Ref.re_search More.world
           (XPath.eval (members_after "actions") More.actor)
           (ApiInformation.mk (Some "Actor") (Some "object") (Some "Object"))
           "Actor/index.html" Ref.start
           [ (Some "Actor.Jump", "Actor/Jump/1/index.html");
             (Some "Actor.Jump", "Actor/Jump/2/index.html") ]
           {| tick := 2; trace := [] |}).
  vm_compute. reflexivity.
Defined.

(* ===================================================================== *)
(** * More on the page processors *)
(* ===================================================================== *)

#[local] Transparent read_xml_file.

Lemma read_xml_file_sleeps (w : World) (xml_path : string) (n : nat) :
  forall st r st',
    read_xml_file w xml_path n st = (r, st') ->
    exists k, trace st' = trace st ++ replicate k (Sleep 100).
Proof.
  unfold read_xml_file.
  induction n as [| n IH]; intros [t tr] r st' H; simpl in H.
  - injection H as _ <-. exists 0. simpl. rewrite app_nil_r. reflexivity.
  - destruct (read_attempt w xml_path t).
    + injection H as _ <-. exists 0. simpl. rewrite app_nil_r. reflexivity.
    + apply IH in H. destruct H as [k Hk]. simpl in Hk.
      exists (S k). rewrite Hk, <- app_assoc. reflexivity.
    + injection H as _ <-. exists 0. simpl. rewrite app_nil_r. reflexivity.
Qed.

#[local] Opaque read_xml_file.

Lemma targets_sleeps (tr : list event) (k : nat) :
  targets (tr ++ replicate k (Sleep 100)) = targets tr.
Proof.
  unfold targets. rewrite omap_app.
  induction k as [| k IH]; simpl in *; [apply app_nil_r | exact IH].
Qed.

Lemma read_xml_file_targets (w : World) (xml_path : string) (n : nat)
  (st : St) (r : result node) (st' : St) :
  read_xml_file w xml_path n st = (r, st') ->
  targets (trace st') = targets (trace st).
Proof.
  intros H. apply read_xml_file_sleeps in H. destruct H as [k ->].
  apply targets_sleeps.
Qed.

Lemma targets_snoc_anchor (tr : list event) (u : nat) (a : node) :
  targets (tr ++ [AddPrevious u a]) = targets tr ++ [u].
Proof. unfold targets. rewrite omap_app. reflexivity. Qed.

Lemma targets_snoc_write (tr : list event) (p : string) (x : node) :
  targets (tr ++ [WriteFile p x]) = targets tr.
Proof. unfold targets. rewrite omap_app. simpl. apply app_nil_r. Qed.

Lemma dash_type_is_kind (re_search : string -> string -> search) (xml : node)
  (info : ApiInformation.t) :
  collect_api_information re_search xml = Ok info ->
  exists k, ApiInformation.dash_type info = Some k /\ k ∈ entry_kinds.
Proof.
  intros H. apply collect_api_information_inv in H.
  destruct H as [first [rest [api_syntax [_ ->]]]].
  destruct (classify_kinds re_search MAPPING_API_TYPE_TO_ENTRY_TYPE
              (Dom.text_content first) api_syntax) as [kind [Hin ->]].
  exists kind.2. split; [reflexivity |].
  unfold MAPPING_API_TYPE_TO_ENTRY_TYPE in Hin. simpl in Hin.
  unfold entry_kinds.
  repeat (apply elem_of_cons in Hin; destruct Hin as [-> | Hin]);
    simpl; [set_solver .. | inversion Hin].
Qed.

Ltac reads_facts :=
  repeat match goal with
    | E : read_xml_file _ _ _ _ = _ |- _ =>
        let Ht := fresh "Htargets" in
        let Hc := fresh "Hcalm" in
        pose proof (read_xml_file_targets _ _ _ _ _ _ E) as Ht;
        pose proof (read_xml_file_calm _ _ _ _ _ _ E) as Hc;
        clear E
    end.

Section Rounds.

Variable re_search : string -> string -> search.
Variable w : World.

(** A round of the inner loop, in full, for a target that exists. *)
Lemma process_cpp_collection_round (c : Collector.t) (add has : bool)
  (elements : list node) (loc loc' : Locals) (i : nat)
  (name : option string) (p : string) (st st' : St) :
  path_exists w p = true ->
  process_cpp_collection re_search w c add has elements loc (i, (name, p)) st
  = (Ok loc', st') ->
  exists n ty,
    name = Some n
    /\ entries loc' = entries loc ++ [Entry.mk n p ty]
    /\ ((Collector.type c =? "Class")%string = false /\ ty = Collector.type c
        \/ (Collector.type c =? "Class")%string = true /\ ty ∈ entry_kinds)
    /\ written (trace st') = written (trace st)
    /\ if add && negb has
       then exists target u,
           elements !! i = Some target
           /\ Dom.uid_of target = Some u
           /\ targets (trace st') = targets (trace st) ++ [u]
           /\ Dom.add_previous u
                (dash_anchor "cpp" (S (Dom.max_uid (xml loc))) (Some ty)
                   (Str.last_segment n
                    +:+ overload_suffix (anchors loc) (Str.last_segment n)))
                (xml loc)
              = Some (xml loc')
       else xml loc' = xml loc
            /\ targets (trace st') = targets (trace st)
            /\ injected (trace st') = injected (trace st).
Proof.
  intros Hp H. unfold process_cpp_collection in H. rewrite Hp in H.
  destruct (add && negb has) eqn:Hflag;
    run_M H; try discriminate H; injection H as <- <-; reads_facts;
    repeat match goal with
      | Hi : collect_api_information _ _ = Ok _ |- _ =>
          apply dash_type_is_kind in Hi; destruct Hi as [k [Hk Hkind]]
      | Hc : calm _ _ |- _ => destruct Hc as [? ?]
      end;
    simpl;
    eexists _, _; (split; [reflexivity |]); (split; [reflexivity |]).
  all: repeat match goal with
         | H1 : ?x = Some ?a, H2 : ?x = Some ?b |- _ =>
             rewrite H1 in H2; injection H2 as <-
         end.
  all: split;
    [ first [ left; split; reflexivity
            | right; split; [reflexivity | assumption] ] |].
  all: rewrite ?written_snoc_anchor, ?targets_snoc_anchor.
  all: split; [first [assumption | reflexivity] |].
  all: first
    [ eexists _, _; split; [reflexivity |]; split; [eassumption |];
      split; [f_equal; first [assumption | reflexivity] | assumption]
    | repeat split; first [assumption | reflexivity] ].
Qed.


End Rounds.

Section Writes.

Variable re_search : string -> string -> search.
Variable rewrite_links : (string -> string) -> node -> node.
Variable w : World.

(** No round of an inner loop writes a page. *)
Lemma process_cpp_collection_writes_nothing (c : Collector.t)
  (add has : bool) (elements : list node) (loc : Locals)
  (item : nat * (option string * string)) (st : St) (r : result Locals)
  (st' : St) :
  process_cpp_collection re_search w c add has elements loc item st = (r, st') ->
  written (trace st') = written (trace st).
Proof.
  intros H. destruct item as [i [name p]].
  unfold process_cpp_collection in H.
  run_M H; injection H as <- <-; reads_facts;
    repeat match goal with
      | Hc : calm _ _ |- _ => destruct Hc as [? ?]
      end;
    simpl; rewrite ?written_snoc_anchor; first [assumption | reflexivity].
Qed.

Lemma process_blueprint_collection_writes_nothing (c : Collector.t)
  (add has : bool) (elements : list node) (loc : Locals)
  (item : nat * (option string * string)) (st : St) (r : result Locals)
  (st' : St) :
  process_blueprint_collection w c add has elements loc item st = (r, st') ->
  written (trace st') = written (trace st).
Proof.
  intros H. destruct item as [i [name p]].
  unfold process_blueprint_collection in H.
  run_M H; injection H as <- <-;
    simpl; rewrite ?written_snoc_anchor; reflexivity.
Qed.

Lemma foldM_keeps {A B : Type} (f : B -> A -> M B) (obs : St -> Prop) :
  (forall b a st, obs st -> obs (f b a st).2) ->
  forall l b st, obs st -> obs (foldM f l b st).2.
Proof.
  intros Hf l. induction l as [| a l IH]; intros b st Hst; simpl.
  - exact Hst.
  - unfold mbind, M_bind. specialize (Hf b a st Hst).
    destruct (f b a st) as [[b' | e] st1]; simpl in Hf.
    + apply IH. exact Hf.
    + exact Hf.
Qed.

Lemma process_cpp_collector_writes_nothing (html_path : string)
  (info : ApiInformation.t) (add has : bool) (page : node * list Entry.t)
  (c : Collector.t) (st : St) :
  quiet (Collector.processor c) ->
  written (trace (process_cpp_collector re_search w html_path info add has
                    page c st).2)
  = written (trace st).
Proof.
  intros Hquiet. unfold process_cpp_collector.
  pose proof (Hquiet w (XPath.eval (Collector.xpath c) page.1) info
                     html_path st) as [_ Hproc].
  unfold mbind at 1, M_bind at 1.
  destruct (Collector.processor c w _ info html_path st)
    as [[collection | e] st1]; simpl in Hproc; [| exact Hproc].
  unfold mbind, M_bind.
  pose proof (foldM_keeps
                (process_cpp_collection re_search w c add has
                   (XPath.eval (Collector.xpath c) page.1))
                (fun s => written (trace s) = written (trace st))) as Hloop.
  specialize (Hloop ltac:(
    intros b a s Hs;
    destruct (process_cpp_collection _ _ _ _ _ _ _ _ _) as [r s'] eqn:E;
    apply process_cpp_collection_writes_nothing in E; simpl; congruence)
    (enumerate collection)
    {| xml := page.1; anchors := []; entries := page.2 |} st1 Hproc).
  destruct (foldM _ (enumerate collection) _ st1) as [[loc | e] st2];
    exact Hloop.
Qed.

Lemma process_blueprint_collector_writes_nothing (html_path : string)
  (info : ApiInformation.t) (add has : bool) (page : node * list Entry.t)
  (c : Collector.t) (st : St) :
  quiet (Collector.processor c) ->
  written (trace (process_blueprint_collector w html_path info add has
                    page c st).2)
  = written (trace st).
Proof.
  intros Hquiet. unfold process_blueprint_collector.
  pose proof (Hquiet w (XPath.eval (Collector.xpath c) page.1) info
                     html_path st) as [_ Hproc].
  unfold mbind at 1, M_bind at 1.
  destruct (Collector.processor c w _ info html_path st)
    as [[collection | e] st1]; simpl in Hproc; [| exact Hproc].
  unfold mbind, M_bind.
  pose proof (foldM_keeps
                (process_blueprint_collection w c add has
                   (XPath.eval (Collector.xpath c) page.1))
                (fun s => written (trace s) = written (trace st))) as Hloop.
  specialize (Hloop ltac:(
    intros b a s Hs;
    destruct (process_blueprint_collection _ _ _ _ _ _ _ _) as [r s'] eqn:E;
    apply process_blueprint_collection_writes_nothing in E; simpl; congruence)
    (enumerate collection)
    {| xml := page.1; anchors := []; entries := page.2 |} st1 Hproc).
  destruct (foldM _ (enumerate collection) _ st1) as [[loc | e] st2];
    exact Hloop.
Qed.

Lemma outer_loop_writes_nothing (html_path : string)
  (info : ApiInformation.t) (add has : bool)
  (collectors : list Collector.t) :
  Forall (fun c => quiet (Collector.processor c)) collectors ->
  forall page st,
    written (trace (foldM (process_cpp_collector re_search w html_path info
                             add has) collectors page st).2)
    = written (trace st).
Proof.
  induction 1 as [| c collectors Hc Hcs IH]; intros page st; simpl.
  - reflexivity.
  - unfold mbind, M_bind.
    pose proof (process_cpp_collector_writes_nothing html_path info add has
                  page c st Hc) as Hstep.
    destruct (process_cpp_collector _ _ _ _ _ _ _ _ _) as [[page1 | e] st1];
      simpl in Hstep.
    + rewrite IH. exact Hstep.
    + exact Hstep.
Qed.

Lemma blueprint_outer_loop_writes_nothing (html_path : string)
  (info : ApiInformation.t) (add has : bool)
  (collectors : list Collector.t) :
  Forall (fun c => quiet (Collector.processor c)) collectors ->
  forall page st,
    written (trace (foldM (process_blueprint_collector w html_path info
                             add has) collectors page st).2)
    = written (trace st).
Proof.
  induction 1 as [| c collectors Hc Hcs IH]; intros page st; simpl.
  - reflexivity.
  - unfold mbind, M_bind.
    pose proof (process_blueprint_collector_writes_nothing html_path info
                  add has page c st Hc) as Hstep.
    destruct (process_blueprint_collector _ _ _ _ _ _ _ _) as [[page1 | e] st1];
      simpl in Hstep.
    + rewrite IH. exact Hstep.
    + exact Hstep.
Qed.

(** The page processors write their page once, at the end. *)
Lemma process_cpp_html_file_writes (html_path : string)
  (collectors : list Collector.t) (add : bool) (st : St)
  (r : result (list Entry.t)) (st' : St) :
  Forall (fun c => quiet (Collector.processor c)) collectors ->
  process_cpp_html_file re_search rewrite_links w html_path collectors add st
  = (r, st') ->
  match r with
  | Ok _ => exists page,
      written (trace st') = written (trace st) ++ [(html_path, page)]
  | Raise _ => written (trace st') = written (trace st)
  end.
Proof.
  intros Hquiet H. unfold process_cpp_html_file in H.
  unfold mbind at 1, M_bind at 1 in H.
  destruct (read_xml_file w html_path default_attempts st)
    as [[xml0 | e] st0] eqn:Hread;
    apply read_xml_file_calm in Hread; destruct Hread as [_ Hw0].
  - unfold mbind at 1, M_bind at 1, lift in H.
    destruct (collect_api_information re_search _) as [info | e].
    + unfold mbind at 1, M_bind at 1 in H.
      pose proof (outer_loop_writes_nothing html_path info add
                    (has_dash_anchors_of
                       (rewrite_links (localiser w html_path) xml0))
                    collectors Hquiet
                    (rewrite_links (localiser w html_path) xml0, []) st0)
        as Hloop.
      destruct (foldM _ collectors _ st0) as [[page | e] st2];
        simpl in Hloop.
      * simpl in H. injection H as <- <-. exists page.1. simpl.
        rewrite written_snoc_write. congruence.
      * injection H as <- <-. congruence.
    + injection H as <- <-. exact Hw0.
  - injection H as <- <-. exact Hw0.
Qed.

Lemma process_blueprint_html_file_writes (html_path : string)
  (collectors : list Collector.t) (add : bool) (st : St)
  (r : result (list Entry.t)) (st' : St) :
  Forall (fun c => quiet (Collector.processor c)) collectors ->
  process_blueprint_html_file re_search rewrite_links w html_path collectors
                              add st
  = (r, st') ->
  match r with
  | Ok _ => exists page,
      written (trace st') = written (trace st) ++ [(html_path, page)]
  | Raise _ => written (trace st') = written (trace st)
  end.
Proof.
  intros Hquiet H. unfold process_blueprint_html_file in H.
  unfold mbind at 1, M_bind at 1 in H.
  destruct (read_xml_file w html_path default_attempts st)
    as [[xml0 | e] st0] eqn:Hread;
    apply read_xml_file_calm in Hread; destruct Hread as [_ Hw0].
  - unfold mbind at 1, M_bind at 1, lift in H.
    destruct (collect_api_information re_search _) as [info | e].
    + unfold mbind at 1, M_bind at 1 in H.
      pose proof (blueprint_outer_loop_writes_nothing html_path info add
                    (has_dash_anchors_of
                       (rewrite_links (localiser w html_path) xml0))
                    collectors Hquiet
                    (rewrite_links (localiser w html_path) xml0, []) st0)
        as Hloop.
      destruct (foldM _ collectors _ st0) as [[page | e] st2];
        simpl in Hloop.
      * simpl in H. injection H as <- <-. exists page.1. simpl.
        rewrite written_snoc_write. congruence.
      * injection H as <- <-. congruence.
    + injection H as <- <-. exact Hw0.
  - injection H as <- <-. exact Hw0.
Qed.

End Writes.

(** X8. A page processor writes its page once when it returns, after all
    collectors, and not at all when it raises: a page whose processing
    fails is left on disk as it was. This holds for the C++ and the
    Blueprint processor, with or without injection. *)
Theorem page_written_once
  (re_search : string -> string -> search)
  (rewrite_links : (string -> string) -> node -> node) (w : World)
  (html_path : string) (collectors : list Collector.t) (add : bool)
  (st : St) :
  Forall (fun c => quiet (Collector.processor c)) collectors ->
  (forall r st',
     process_cpp_html_file re_search rewrite_links w html_path collectors
                           add st
     = (r, st') ->
     match r with
     | Ok _ => exists page,
         written (trace st') = written (trace st) ++ [(html_path, page)]
     | Raise _ => written (trace st') = written (trace st)
     end)
  /\ (forall r st',
        process_blueprint_html_file re_search rewrite_links w html_path
                                    collectors add st
        = (r, st') ->
        match r with
        | Ok _ => exists page,
            written (trace st') = written (trace st) ++ [(html_path, page)]
        | Raise _ => written (trace st') = written (trace st)
        end).
Proof.
  intros Hquiet. split; intros r st' H.
  - eapply process_cpp_html_file_writes; eassumption.
  - eapply process_blueprint_html_file_writes; eassumption.
Qed.

Lemma page_written_once_witness :
  written (trace (Sample.run "Missing/index.html").2)
  = written (trace Ref.start).
Proof.
  apply (proj1 (page_written_once Ref.re_search Ref.rewrite_links
                  Sample.world "Missing/index.html"
                  (COLLECTORS_CPP Ref.re_search) true Ref.start
                  (COLLECTORS_CPP_quiet Ref.re_search))
           (Raise (ReadError FileNotFoundError))
           (Sample.run "Missing/index.html").2).
  vm_compute. reflexivity.
Defined.

(** X9. With [add_dash_anchors] off, a page processor injects no anchor,
    whatever the page holds, and the page it writes back when it returns
    is the page as read, its links localised: the only change to the
    file is the rewriting of the links. *)
Theorem without_injection_page_kept
  (re_search : string -> string -> search)
  (rewrite_links : (string -> string) -> node -> node) (w : World)
  (html_path : string) (collectors : list Collector.t)
  (st : St) (xml0 : node) (st0 : St) :
  Forall (fun c => quiet (Collector.processor c)) collectors ->
  read_xml_file w html_path default_attempts st = (Ok xml0, st0) ->
  (forall r st',
     process_cpp_html_file re_search rewrite_links w html_path collectors
                           false st
     = (r, st') ->
     injected (trace st') = injected (trace st)
     /\ forall result,
          r = Ok result ->
          written (trace st')
          = written (trace st)
            ++ [(html_path, rewrite_links (localiser w html_path) xml0)])
  /\ (forall r st',
        process_blueprint_html_file re_search rewrite_links w html_path
                                    collectors false st
        = (r, st') ->
        injected (trace st') = injected (trace st)
        /\ forall result,
             r = Ok result ->
             written (trace st')
             = written (trace st)
               ++ [(html_path, rewrite_links (localiser w html_path) xml0)]).
Proof.
  intros Hquiet Hread.
  pose proof (read_xml_file_calm _ _ _ _ _ _ Hread) as Hcalm0.
  split; intros r st' H.
  - unfold process_cpp_html_file in H.
    rewrite (bind_Ok _ _ _ _ _ Hread) in H.
    unfold mbind at 1, M_bind at 1, lift in H.
    destruct (collect_api_information re_search _) as [info | e].
    + unfold mbind at 1, M_bind at 1 in H.
      destruct (foldM _ collectors _ st0) as [[page | e] st2] eqn:E;
        destruct (outer_loop_calm re_search w html_path info false _ _ _ _ _ _
                    Hquiet eq_refl E)
          as [Hcalm Hpage].
      * simpl in H. injection H as <- <-. simpl.
        destruct (calm_trans _ _ _ Hcalm0 Hcalm) as [Hi Hw].
        rewrite injected_snoc_write, written_snoc_write, Hi, Hw.
        split; [reflexivity |]. intros result _.
        rewrite (Hpage page eq_refl). reflexivity.
      * injection H as <- <-.
        destruct (calm_trans _ _ _ Hcalm0 Hcalm) as [Hi _].
        split; [exact Hi |]. intros result Heq. discriminate Heq.
    + injection H as <- <-. destruct Hcalm0 as [Hi _].
      split; [exact Hi |]. intros result Heq. discriminate Heq.
  - unfold process_blueprint_html_file in H.
    rewrite (bind_Ok _ _ _ _ _ Hread) in H.
    unfold mbind at 1, M_bind at 1, lift in H.
    destruct (collect_api_information re_search _) as [info | e].
    + unfold mbind at 1, M_bind at 1 in H.
      destruct (foldM _ collectors _ st0) as [[page | e] st2] eqn:E;
        destruct (blueprint_outer_loop_calm w html_path info false _ _ _ _ _ _
                    Hquiet eq_refl E)
          as [Hcalm Hpage].
      * simpl in H. injection H as <- <-. simpl.
        destruct (calm_trans _ _ _ Hcalm0 Hcalm) as [Hi Hw].
        rewrite injected_snoc_write, written_snoc_write, Hi, Hw.
        split; [reflexivity |]. intros result _.
        rewrite (Hpage page eq_refl). reflexivity.
      * injection H as <- <-.
        destruct (calm_trans _ _ _ Hcalm0 Hcalm) as [Hi _].
        split; [exact Hi |]. intros result Heq. discriminate Heq.
    + injection H as <- <-. destruct Hcalm0 as [Hi _].
      split; [exact Hi |]. intros result Heq. discriminate Heq.
Qed.

Lemma without_injection_page_kept_witness :
  injected (trace (process_cpp_html_file Ref.re_search Ref.rewrite_links
                     Sample.world "Foo/index.html"
                     (COLLECTORS_CPP Ref.re_search) false Ref.start).2)
  = injected (trace Ref.start).
Proof.
  apply (proj1 (without_injection_page_kept
                  Ref.re_search Ref.rewrite_links Sample.world
                  "Foo/index.html" (COLLECTORS_CPP Ref.re_search)
                  Ref.start Sample.foo {| tick := 1; trace := [] |}
                  (COLLECTORS_CPP_quiet Ref.re_search) eq_refl)
           (process_cpp_html_file Ref.re_search Ref.rewrite_links
              Sample.world "Foo/index.html"
              (COLLECTORS_CPP Ref.re_search) false Ref.start).1
           (process_cpp_html_file Ref.re_search Ref.rewrite_links
              Sample.world "Foo/index.html"
              (COLLECTORS_CPP Ref.re_search) false Ref.start).2).
  apply surjective_pairing.
Defined.

(* ===================================================================== *)
(** * Entries and anchors of one collector *)
(* ===================================================================== *)

Section OneCollector.

Variable re_search : string -> string -> search.
Variable w : World.

Lemma filter_existing_cons (pair : option string * string)
  (pairs : list (option string * string)) :
  filter (fun pair => path_exists w pair.2 = true) (pair :: pairs)
  = if path_exists w pair.2
    then pair :: filter (fun pair => path_exists w pair.2 = true) pairs
    else filter (fun pair => path_exists w pair.2 = true) pairs.
Proof.
  destruct (path_exists w pair.2) eqn:E.
  - rewrite filter_cons_True by exact E. reflexivity.
  - rewrite filter_cons_False by (rewrite E; discriminate). reflexivity.
Qed.


(** Pairs whose targets all exist get their anchors before the elements
    at the positions of the pairs. *)
Lemma inner_loop_targets (c : Collector.t) (elements : list node)
  (collection : list (option string * string)) :
  forall j loc st loc' st',
    Forall (fun pair => path_exists w pair.2 = true) collection ->
    foldM (process_cpp_collection re_search w c true false elements)
          (imap (fun i x => (j + i, x)) collection) loc st
    = (Ok loc', st') ->
    exists us,
      targets (trace st') = targets (trace st) ++ us
      /\ Some <$> us
         = Dom.uid_of <$> take (length collection) (drop j elements).
Proof.
  induction collection as [| [name p] collection IH];
    intros j loc st loc' st' Hall H.
  - simpl in H. injection H as _ <-. exists []. rewrite app_nil_r.
    split; reflexivity.
  - rewrite imap_cons in H. cbn [foldM] in H.
    apply bind_inv_Ok in H. destruct H as [loc1 [st1 [Hstep Hrest]]].
    inversion Hall as [| ? ? Hp Hall']; subst. simpl in Hp.
    apply process_cpp_collection_round in Hstep; [| exact Hp].
    destruct Hstep as [n [ty [_ [_ [_ [_ Hanchor]]]]]]. simpl in Hanchor.
    destruct Hanchor as [target [u [Hlookup [Huid [Htargets _]]]]].
    rewrite (imap_ext _ (fun i x => (S j + i, x))) in Hrest
      by (intros i x _; simpl; f_equal; lia).
    destruct (IH _ _ _ _ _ Hall' Hrest) as [us [Hus Huids]].
    exists (u :: us). split.
    + rewrite Hus, Htargets, <- app_assoc. reflexivity.
    + rewrite Nat.add_0_r in Hlookup.
      rewrite (drop_S _ _ _ Hlookup). cbn [length firstn].
      rewrite !fmap_cons, Huid, Huids. reflexivity.
Qed.

Lemma inner_loop_all_missing (c : Collector.t) (add has : bool)
  (elements : list node) (items : list (nat * (option string * string))) :
  forall loc st,
    Forall (fun item => path_exists w item.2.2 = false) items ->
    foldM (process_cpp_collection re_search w c add has elements) items loc st
    = (Ok loc, st).
Proof.
  induction items as [| [i [name p]] items IH]; intros loc st Hall;
    cbn [foldM].
  - reflexivity.
  - inversion Hall as [| ? ? Hp Hall']; subst. simpl in Hp.
    unfold mbind, M_bind.
    rewrite process_cpp_collection_missing by exact Hp.
    apply IH. exact Hall'.
Qed.

Lemma collector_cpp_default_keeps_targets (elements : list node)
  (parent : ApiInformation.t) (html_path : string) (st : St) :
  targets (trace (collector_cpp_default re_search w elements parent
                    html_path st).2)
  = targets (trace st).
Proof.
  unfold collector_cpp_default.
  apply (foldM_keeps _ (fun s => targets (trace s) = targets (trace st)));
    [| reflexivity].
  intros b a s Hs.
  match goal with
  | |- targets (trace (?m s).2) = _ => destruct (m s) as [r s'] eqn:E
  end.
  simpl. run_M E; injection E as <- <-; reads_facts; congruence.
Qed.

End OneCollector.



(** X11. A collector that follows links puts its anchors before the
    leading elements of its selection: with [m] links whose target
    exists, the anchors go, in order, before the first [m] selected
    elements, also when a link without target comes before a link with
    one. The index of a pair in the collection is used as the index of
    its element. *)
Theorem anchors_before_leading_elements
  (re_search : string -> string -> search) (w : World) (html_path : string)
  (info : ApiInformation.t) (page page' : node * list Entry.t)
  (c : Collector.t) (st st' : St) :
  Collector.processor c = collector_cpp_default re_search ->
  process_cpp_collector re_search w html_path info true false page c st
  = (Ok page', st') ->
  exists hrefs us,
    Dom.get "href" <$> XPath.eval (Collector.xpath c) page.1 = Some <$> hrefs
    /\ targets (trace st') = targets (trace st) ++ us
    /\ Some <$> us
       = Dom.uid_of
           <$> take (length (existing_targets w html_path hrefs))
                    (XPath.eval (Collector.xpath c) page.1).
Proof.
  intros Hdefault H. unfold process_cpp_collector in H. rewrite Hdefault in H.
  apply bind_inv_Ok in H. destruct H as [collection [st1 [Hcollect H]]].
  apply bind_inv_Ok in H. destruct H as [loc [st2 [Hloop H]]].
  injection H as _ <-.
  pose proof (collector_cpp_default_keeps_targets re_search w
                (XPath.eval (Collector.xpath c) page.1) info html_path st)
    as Hkeep.
  rewrite Hcollect in Hkeep. simpl in Hkeep.
  unfold collector_cpp_default in Hcollect.
  apply collector_cpp_default_from in Hcollect.
  destruct Hcollect as [hrefs [new [Hhrefs [-> [Hnew _]]]]]. simpl in *.
  assert (Hall : Forall (fun pair => path_exists w pair.2 = true) new).
  { apply Forall_forall. intros pair Hpair.
    assert (Hin : pair.2 ∈ new.*2)
      by (apply list_elem_of_fmap; exists pair; split;
          [reflexivity | exact Hpair]).
    rewrite Hnew in Hin. unfold existing_targets in Hin.
    apply list_elem_of_filter in Hin. tauto. }
  apply (inner_loop_targets re_search w c _ new 0 _ _ _ _ Hall) in Hloop.
  destruct Hloop as [us [Hus Huids]].
  exists hrefs, us. split; [exact Hhrefs |]. split.
  - rewrite Hus, Hkeep. reflexivity.
  - rewrite Huids, <- Hnew, length_fmap. reflexivity.
Qed.

Lemma anchors_before_leading_elements_witness :
  exists hrefs us,
    Dom.get "href" <$> XPath.eval (Collector.xpath More.functions) More.gap
    = Some <$> hrefs
    /\ targets (trace (process_cpp_collector Ref.re_search More.world
                         "Gap/index.html" Sample.plain_object true false
                         (More.gap, []) More.functions Ref.start).2)
       = targets (trace Ref.start) ++ us
    /\ Some <$> us
       = Dom.uid_of
           <$> take (length (existing_targets More.world "Gap/index.html"
                                              hrefs))
                    (XPath.eval (Collector.xpath More.functions) More.gap).
Proof.
  apply (anchors_before_leading_elements Ref.re_search More.world
           "Gap/index.html" Sample.plain_object (More.gap, [])
           (match (process_cpp_collector Ref.re_search More.world
                     "Gap/index.html" Sample.plain_object true false
                     (More.gap, []) More.functions Ref.start).1 with
            | Ok page' => page'
            | Raise _ => (More.gap, [])
            end)
           More.functions Ref.start).
  - reflexivity.
  - vm_compute. reflexivity.
Defined.

(** On the sample page the only link with a target is the second one,
    and its anchor goes before the first one. *)
Example anchor_before_the_wrong_link :
  Dom.uid_of <$> XPath.eval (Collector.xpath More.functions) More.gap
  = [Some 23; Some 33]
  /\ targets (trace (More.run "Gap/index.html").2) = [23]
  /\ (More.run "Gap/index.html").1
     = Ok [Sample.entry "Foo::Bar" "Gap/Bar/1/index.html" "Function"].
Proof. vm_compute. repeat split; reflexivity. Qed.

(** X12. The collector of members without a link gives the targets
    [page#name]; unless a file of that very name exists, the C++
    processor passes every such pair over: the collector adds no entry,
    injects no anchor and leaves the page and the state as they are. *)
Theorem nohref_pairs_passed_over
  (re_search : string -> string -> search) (w : World) (html_path : string)
  (info : ApiInformation.t) (add has : bool) (page : node * list Entry.t)
  (c : Collector.t) (st : St) :
  Collector.processor c = collector_cpp_nohref ->
  (forall element,
     element ∈ XPath.eval (Collector.xpath c) page.1 ->
     path_exists w (html_path +:+ "#" +:+ nohref_name info element) = false) ->
  process_cpp_collector re_search w html_path info add has page c st
  = (Ok page, st).
Proof.
  intros Hnohref Hmissing. unfold process_cpp_collector.
  rewrite Hnohref. unfold collector_cpp_nohref.
  unfold mbind at 1, M_bind at 1. rewrite collector_cpp_nohref_from.
  unfold mbind, M_bind. rewrite inner_loop_all_missing.
  - destruct page. reflexivity.
  - apply Forall_forall. intros [i [name p]] Hitem.
    apply elem_of_enumerate in Hitem. simpl in *.
    rewrite list_lookup_fmap in Hitem.
    destruct (XPath.eval (Collector.xpath c) page.1 !! i) as [element |] eqn:E;
      [| discriminate Hitem].
    injection Hitem as _ <-. apply Hmissing.
    eapply list_elem_of_lookup_2. exact E.
Qed.

Lemma nohref_pairs_passed_over_witness :
  process_cpp_collector Ref.re_search More.world "Kit/index.html"
    More.kit_object true false (More.kit, []) More.variables_nohref
    Ref.start
  = (Ok (More.kit, []), Ref.start).
Proof.
  apply (nohref_pairs_passed_over Ref.re_search More.world "Kit/index.html"
           More.kit_object true false (More.kit, [])
           More.variables_nohref Ref.start).
  - reflexivity.
  - intros element Helement. vm_compute in Helement.
    apply list_elem_of_singleton in Helement. subst element.
    vm_compute. reflexivity.
Defined.

(** The variable of the sample page is selected and named, and passed
    over. *)
Example nohref_pair_of_sample :
  (collector_cpp_nohref More.world
     (XPath.eval (Collector.xpath More.variables_nohref) More.kit)
     More.kit_object "Kit/index.html" Ref.start).1
  = Ok [(Some "Kit.Size", "Kit/index.html#Kit.Size")].
Proof. vm_compute. reflexivity. Qed.

(* ===================================================================== *)
(** * A processed page carries its anchors *)
(* ===================================================================== *)

Section Anchored.

Import XPath.

Lemma insert_before_done (target : nat) (new : node) (kids : list node) :
  forall kids',
    Dom.insert_before target new kids = (kids', true) -> new ∈ kids'.
Proof.
  induction kids as [| k kids IH]; intros kids' H; simpl in H.
  - discriminate H.
  - case_bool_decide.
    + injection H as <-. left.
    + destruct (Dom.insert_before target new kids) as [r b].
      injection H as <- ->. right. apply IH. reflexivity.
Qed.

Lemma first_done_done {A : Type} (f : A -> A * bool) (l : list A) :
  forall l',
    Dom.first_done f l = (l', true) ->
    exists x x', x ∈ l /\ f x = (x', true) /\ x' ∈ l'.
Proof.
  induction l as [| x l IH]; intros l' H; simpl in H.
  - discriminate H.
  - destruct (f x) as [x' b] eqn:E. destruct b.
    + injection H as <-. exists x, x'. repeat split; [left | exact E | left].
    + destruct (Dom.first_done f l) as [r b'].
      injection H as <- ->.
      destruct (IH r eq_refl) as [y [y' [Hy [Hf Hy']]]].
      exists y, y'. repeat split; [right | | right]; assumption.
Qed.

(** After an insertion the new node is a child of an element. *)
Lemma add_previous_in_child (P : node -> bool) (target : nat) (new : node) :
  P new = true ->
  forall n n',
    Dom.add_previous_in target new n = (n', true) -> has_child P n' = true.
Proof.
  intros HP. induction n as [s | u t a kids IH] using node_ind';
    intros n' H; simpl in H.
  - discriminate H.
  - destruct (Dom.insert_before target new kids) as [kids1 b] eqn:E1.
    destruct b.
    + injection H as <-. simpl. apply orb_true_iff. left.
      apply existsb_exists. exists new. split; [| exact HP].
      apply list_elem_of_In. eapply insert_before_done. exact E1.
    + destruct (Dom.first_done (Dom.add_previous_in target new) kids)
        as [kids2 b2] eqn:E2.
      injection H as <- ->. simpl. apply orb_true_iff. right.
      apply first_done_done in E2. destruct E2 as [k [k' [Hk [Hf Hk']]]].
      apply existsb_exists. exists k'. split.
      * apply list_elem_of_In. exact Hk'.
      * rewrite Forall_forall in IH. eapply IH; eassumption.
Qed.

Lemma emit_selected (sel : list nat) (x : node) (kids : list node) :
  forall below i j,
    length below = length kids ->
    kids !! j = Some x -> i + j ∈ sel -> x ∈ emit sel i kids below.
Proof.
  induction kids as [| k kids IH]; intros below i j Hlen Hj Hsel.
  - discriminate Hj.
  - destruct below as [| b below]; [discriminate Hlen |].
    simpl. destruct j as [| j].
    + injection Hj as ->. rewrite Nat.add_0_r in Hsel.
      rewrite bool_decide_eq_true_2 by exact Hsel. left.
    + apply elem_of_app. right. apply elem_of_app. right.
      apply (IH below (S i) j).
      * simpl in Hlen. lia.
      * exact Hj.
      * replace (S i + j) with (i + S j) by lia. exact Hsel.
Qed.

Lemma emit_below (sel : list nat) (x : node) (kids : list node) :
  forall below i b,
    length below = length kids -> b ∈ below -> x ∈ b ->
    x ∈ emit sel i kids below.
Proof.
  induction kids as [| k kids IH]; intros below i b Hlen Hb Hx.
  - destruct below; [inversion Hb | discriminate Hlen].
  - destruct below as [| b0 below]; [discriminate Hlen |].
    simpl. apply elem_of_app. right. apply elem_of_app.
    apply elem_of_cons in Hb. destruct Hb as [-> | Hb].
    + left. exact Hx.
    + right. apply (IH below (S i) b); [simpl in Hlen; lia | exact Hb | exact Hx].
Qed.

Lemma select_attr (t : node_test) (a v : string) (kids : list node)
  (j : nat) (x : node) :
  kids !! j = Some x ->
  test_node t x = true -> attr_is a v x = true ->
  j ∈ (select t [AttrEq a v] (enumerate kids)).*1.
Proof.
  intros Hj Ht Ha. apply list_elem_of_fmap. exists (j, x).
  split; [reflexivity |]. unfold select. simpl.
  apply list_elem_of_filter. split; [exact Ha |].
  apply list_elem_of_filter. split; [exact Ht |].
  unfold enumerate. apply (elem_of_lookup_imap_2 (fun i k => (i, k))).
  exact Hj.
Qed.

(** A child step from a context that holds every element of the page
    finds a child that passes its test and has its attribute. *)
Lemma walk_finds_child (P : node -> bool) (t : node_test) (a v : string)
  (ctx : list nat) :
  (forall x, P x = true -> test_node t x = true /\ attr_is a v x = true) ->
  forall n,
    (forall u, u ∈ uids n -> u ∈ ctx) ->
    has_child P n = true ->
    walk (child_selector t [AttrEq a v] ctx) n <> [].
Proof.
  intros HP. induction n as [s | u tg at_ kids IH] using node_ind';
    intros Hctx Hchild.
  - discriminate Hchild.
  - simpl in Hchild. apply orb_true_iff in Hchild.
    assert (Hsome : exists x,
               x ∈ walk (child_selector t [AttrEq a v] ctx)
                        (Elem u tg at_ kids)).
    { simpl. destruct Hchild as [Hhere | Hbelow].
      - apply existsb_exists in Hhere. destruct Hhere as [x [Hx HPx]].
        apply list_elem_of_In, list_elem_of_lookup in Hx.
        destruct Hx as [j Hj]. destruct (HP x HPx) as [Ht Ha].
        exists x. apply (emit_selected _ _ _ _ 0 j).
        + apply length_fmap.
        + exact Hj.
        + unfold child_selector.
          rewrite bool_decide_eq_true_2 by (apply Hctx; simpl; left).
          simpl. eapply select_attr; eassumption.
      - apply existsb_exists in Hbelow. destruct Hbelow as [k [Hk Hchildk]].
        apply list_elem_of_In in Hk.
        rewrite Forall_forall in IH.
        assert (Hne : walk (child_selector t [AttrEq a v] ctx) k <> []).
        { apply IH; [exact Hk | | exact Hchildk].
          intros u' Hu'. apply Hctx. simpl. right.
          apply elem_of_concat. exists (uids k). split; [| exact Hu'].
          apply list_elem_of_fmap. exists k. split; [reflexivity | exact Hk]. }
        destruct (walk (child_selector t [AttrEq a v] ctx) k)
          as [| x xs] eqn:E; [contradiction |].
        exists x. apply (emit_below _ _ _ _ 0 (x :: xs)).
        + apply length_fmap.
        + rewrite <- E. apply list_elem_of_fmap. exists k.
          split; [reflexivity | exact Hk].
        + left. }
    destruct Hsome as [x Hx]. intros Habs. rewrite Habs in Hx. inversion Hx.
Qed.

(** Below a node of the context, the descendants hold every element. *)
Lemma descendants_all (ctx : list nat) (n : node) :
  forall u, u ∈ uids n -> u ∈ omap Dom.uid_of (descendants true ctx n).
Proof.
  induction n as [s | v tg at_ kids IH] using node_ind'; intros u Hu.
  - inversion Hu.
  - simpl in Hu. simpl. apply elem_of_cons in Hu.
    destruct Hu as [-> | Hu]; [left |]. right.
    apply elem_of_concat in Hu. destruct Hu as [l [Hl Hu]].
    apply list_elem_of_fmap in Hl. destruct Hl as [k [-> Hk]].
    rewrite Forall_forall in IH. specialize (IH k Hk u Hu).
    apply list_elem_of_omap in IH. destruct IH as [x [Hx Hux]].
    apply list_elem_of_omap. exists x. split; [| exact Hux].
    apply elem_of_concat. exists (descendants true ctx k).
    split; [| exact Hx].
    apply list_elem_of_fmap. exists k. split; [reflexivity | exact Hk].
Qed.

Lemma has_child_has_dash_anchors (root : node) :
  has_child is_dash_anchor root = true -> has_dash_anchors_of root = true.
Proof.
  intros Hchild. unfold has_dash_anchors_of.
  destruct root as [s | u tg at_ kids]; [discriminate Hchild |].
  assert (Hne : XPath.eval dash_anchor_xpath (Elem u tg at_ kids) <> []).
  { change (XPath.eval dash_anchor_xpath (Elem u tg at_ kids))
      with (walk (child_selector (Tag "a") [AttrEq "class" "dashAnchor"]
                    (omap Dom.uid_of
                       (descendants false [u] (Elem u tg at_ kids))))
                 (Elem u tg at_ kids)).
    apply (walk_finds_child is_dash_anchor).
    - intros x Hx. unfold is_dash_anchor in Hx.
      apply andb_true_iff in Hx. exact Hx.
    - intros v Hv.
      assert (Heq : descendants false [u] (Elem u tg at_ kids)
                    = descendants true [u] (Elem u tg at_ kids)).
      { simpl. rewrite bool_decide_eq_true_2 by left. reflexivity. }
      rewrite Heq. apply descendants_all. exact Hv.
    - exact Hchild. }
  destruct (XPath.eval dash_anchor_xpath (Elem u tg at_ kids));
    [contradiction | reflexivity].
Qed.

End Anchored.

Lemma add_previous_anchored (u : nat) (anchor root root' : node) :
  is_dash_anchor anchor = true ->
  Dom.add_previous u anchor root = Some root' ->
  has_child is_dash_anchor root' = true.
Proof.
  intros Hanchor H. unfold Dom.add_previous in H.
  destruct (Dom.add_previous_in u anchor root) as [r b] eqn:E.
  destruct b; [| discriminate H]. injection H as <-.
  eapply add_previous_in_child; eassumption.
Qed.

Section AnchoredPage.

Variable re_search : string -> string -> search.
Variable w : World.

Lemma inner_loop_page_state (c : Collector.t) (add has : bool)
  (elements : list node) (xml0 : node) (entries0 : list Entry.t)
  (items : list (nat * (option string * string))) :
  forall loc st loc' st',
    page_state (add && negb has) xml0 entries0 (xml loc) (entries loc) ->
    foldM (process_cpp_collection re_search w c add has elements) items loc st
    = (Ok loc', st') ->
    page_state (add && negb has) xml0 entries0 (xml loc') (entries loc').
Proof.
  induction items as [| [i [name p]] items IH]; intros loc st loc' st' Hloc H;
    cbn [foldM] in H.
  - injection H as <- _. exact Hloc.
  - apply bind_inv_Ok in H. destruct H as [loc1 [st1 [Hstep Hrest]]].
    refine (IH _ _ _ _ _ Hrest).
    destruct (path_exists w p) eqn:Hp.
    + apply process_cpp_collection_round in Hstep; [| exact Hp].
      destruct Hstep as [n [ty [_ [_ [_ [_ Hflag]]]]]].
      right. destruct (add && negb has).
      * destruct Hflag as [target [u [_ [_ [_ Hadd]]]]].
        eapply add_previous_anchored; [| exact Hadd]. reflexivity.
      * destruct Hflag as [Hxml _]. rewrite Hxml.
        destruct Hloc as [[_ Hx] | Hx]; exact Hx.
    + rewrite process_cpp_collection_missing in Hstep by exact Hp.
      injection Hstep as <- _. exact Hloc.
Qed.

Lemma outer_loop_page_state (html_path : string) (info : ApiInformation.t)
  (add has : bool) (xml0 : node) (entries0 : list Entry.t)
  (collectors : list Collector.t) :
  forall page st page' st',
    page_state (add && negb has) xml0 entries0 page.1 page.2 ->
    foldM (process_cpp_collector re_search w html_path info add has)
          collectors page st
    = (Ok page', st') ->
    page_state (add && negb has) xml0 entries0 page'.1 page'.2.
Proof.
  induction collectors as [| c collectors IH];
    intros page st page' st' Hpage H; cbn [foldM] in H.
  - injection H as <- _. exact Hpage.
  - apply bind_inv_Ok in H. destruct H as [page1 [st1 [Hstep Hrest]]].
    refine (IH _ _ _ _ _ Hrest).
    unfold process_cpp_collector in Hstep.
    apply bind_inv_Ok in Hstep. destruct Hstep as [collection [s1 [_ Hstep]]].
    apply bind_inv_Ok in Hstep. destruct Hstep as [loc [s2 [Hloop Hstep]]].
    injection Hstep as <- _. simpl.
    eapply inner_loop_page_state; [| exact Hloop]. exact Hpage.
Qed.

End AnchoredPage.

(** X13. With injection asked for, whenever the C++ processor returns at
    least one entry, the page it writes back (the last effect of the
    call) contains a Dash anchor, so that a later run on the written page
    finds it anchored. *)
Theorem written_page_is_anchored
  (re_search : string -> string -> search)
  (rewrite_links : (string -> string) -> node -> node) (w : World)
  (html_path : string) (collectors : list Collector.t) (st : St)
  (result : list Entry.t) (st' : St) :
  process_cpp_html_file re_search rewrite_links w html_path collectors true st
  = (Ok result, st') ->
  result <> [] ->
  exists before page,
    trace st' = before ++ [WriteFile html_path page]
    /\ has_dash_anchors_of page = true.
Proof.
  intros H Hresult. unfold process_cpp_html_file in H.
  apply bind_inv_Ok in H. destruct H as [xml0 [st0 [_ H]]].
  apply bind_inv_Ok in H. destruct H as [info [st1 [_ H]]].
  apply bind_inv_Ok in H. destruct H as [page [st2 [Hloop H]]].
  apply bind_inv_Ok in H. destruct H as [u [st3 [Hwrite H]]].
  injection H as <- <-. unfold emit_event in Hwrite.
  injection Hwrite as _ <-. simpl.
  exists (trace st2), page.1. split; [reflexivity |].
  apply (outer_loop_page_state re_search w html_path info true _
           (rewrite_links (localiser w html_path) xml0) []) in Hloop;
    [| left; split; reflexivity].
  destruct Hloop as [[Hnone _] | Hstate]; [contradiction |].
  simpl in Hstate.
  destruct (has_dash_anchors_of (rewrite_links (localiser w html_path) xml0))
    eqn:Hhas; simpl in Hstate.
  - rewrite Hstate. exact Hhas.
  - apply has_child_has_dash_anchors. exact Hstate.
Qed.

Lemma written_page_is_anchored_witness :
  exists before page,
    trace (Sample.run "Foo/index.html").2
    = before ++ [WriteFile "Foo/index.html" page]
    /\ has_dash_anchors_of page = true.
Proof.
  apply (written_page_is_anchored Ref.re_search Ref.rewrite_links
           Sample.world "Foo/index.html" (COLLECTORS_CPP Ref.re_search)
           Ref.start
           [ Sample.entry "Foo::Bar" "Foo/Bar/1/index.html" "Function";
             Sample.entry "Foo::Bar" "Foo/Bar/2/index.html" "Function" ]
           (Sample.run "Foo/index.html").2).
  - vm_compute. reflexivity.
  - discriminate.
Defined.

(* ===================================================================== *)
(** * The anchors of the Blueprint processor *)
(* ===================================================================== *)

Section BlueprintAnchors.

Variable w : World.

Lemma process_blueprint_collection_round (c : Collector.t) (add has : bool)
  (elements : list node) (loc loc' : Locals) (i : nat)
  (name : option string) (p : string) (st st' : St) :
  path_exists w p = true ->
  process_blueprint_collection w c add has elements loc (i, (name, p)) st
  = (Ok loc', st') ->
  exists n,
    name = Some n
    /\ entries loc' = entries loc ++ [Entry.mk n p (Collector.type c)]
    /\ if add && negb has
       then exists uid,
           injected (trace st')
           = injected (trace st)
             ++ [dash_anchor "blueprint" uid (Some (Collector.type c)) n]
       else injected (trace st') = injected (trace st).
Proof.
  intros Hp H. unfold process_blueprint_collection in H. rewrite Hp in H.
  destruct (add && negb has) eqn:Hflag;
    run_M H; try discriminate H; injection H as <- <-; simpl;
    eexists; (split; [reflexivity |]); (split; [reflexivity |]).
  - eexists. apply injected_snoc_anchor.
  - reflexivity.
Qed.

Lemma blueprint_inner_loop_anchors (c : Collector.t) (add has : bool)
  (elements : list node) (items : list (nat * (option string * string))) :
  forall loc st loc' st',
    foldM (process_blueprint_collection w c add has elements) items loc st
    = (Ok loc', st') ->
    exists new,
      entries loc' = entries loc ++ new
      /\ (fun e => (Some (Entry.name e), Entry.path e)) <$> new
         = filter (fun pair => path_exists w pair.2 = true) items.*2
      /\ Forall (fun e => Entry.type e = Collector.type c) new
      /\ if add && negb has
         then exists meta : list nat,
             length meta = length new
             /\ injected (trace st')
                = injected (trace st)
                  ++ zip_with
                       (fun uid e =>
                          dash_anchor "blueprint" uid
                            (Some (Collector.type c)) (Entry.name e))
                       meta new
         else injected (trace st') = injected (trace st).
Proof.
  induction items as [| [i [name p]] items IH]; intros loc st loc' st' H;
    cbn [foldM] in H.
  - injection H as <- <-. exists []. rewrite app_nil_r.
    split; [reflexivity |]. split; [reflexivity |]. split; [constructor |].
    destruct (add && negb has); [| reflexivity].
    exists []. rewrite app_nil_r. split; reflexivity.
  - apply bind_inv_Ok in H. destruct H as [loc1 [st1 [Hstep Hrest]]].
    destruct (IH _ _ _ _ Hrest) as [new [Hentries [Hpairs [Hkinds Hanchors]]]].
    rewrite fmap_cons, filter_existing_cons. cbn [snd].
    destruct (path_exists w p) eqn:Hp.
    + apply process_blueprint_collection_round in Hstep; [| exact Hp].
      destruct Hstep as [n [-> [Hloc1 Hflag]]].
      exists (Entry.mk n p (Collector.type c) :: new).
      split; [rewrite Hentries, Hloc1, <- app_assoc; reflexivity |].
      split; [rewrite fmap_cons, Hpairs; reflexivity |].
      split; [constructor; [reflexivity | exact Hkinds] |].
      destruct (add && negb has).
      * destruct Hflag as [uid Huid]. destruct Hanchors as [meta [Hlen Hinj]].
        exists (uid :: meta). split; [simpl; rewrite Hlen; reflexivity |].
        rewrite Hinj, Huid, <- app_assoc. reflexivity.
      * congruence.
    + rewrite process_blueprint_collection_missing in Hstep by exact Hp.
      injection Hstep as <- <-. exists new. repeat split; assumption.
Qed.

End BlueprintAnchors.

(** X14. A collector of the Blueprint processor adds one entry for every
    pair whose target exists, of the kind of the collector; with
    injection, every entry gets an anchor that carries its whole name
    under the scheme [blueprint], and no overload suffix: two entries of
    the same name get anchors of the same name. *)
Theorem process_blueprint_collector_anchors
  (w : World) (html_path : string) (info : ApiInformation.t)
  (add has : bool) (page page' : node * list Entry.t) (c : Collector.t)
  (st st' : St) :
  quiet (Collector.processor c) ->
  process_blueprint_collector w html_path info add has page c st
  = (Ok page', st') ->
  exists collection new,
    (Collector.processor c w (XPath.eval (Collector.xpath c) page.1)
                         info html_path st).1
    = Ok collection
    /\ page'.2 = page.2 ++ new
    /\ (fun e => (Some (Entry.name e), Entry.path e)) <$> new
       = filter (fun pair => path_exists w pair.2 = true) collection
    /\ Forall (fun e => Entry.type e = Collector.type c) new
    /\ if add && negb has
       then exists meta : list nat,
           length meta = length new
           /\ injected (trace st')
              = injected (trace st)
                ++ zip_with
                     (fun uid e =>
                        dash_anchor "blueprint" uid
                          (Some (Collector.type c)) (Entry.name e))
                     meta new
       else injected (trace st') = injected (trace st).
Proof.
  intros Hquiet H. unfold process_blueprint_collector in H.
  pose proof (Hquiet w (XPath.eval (Collector.xpath c) page.1) info
                     html_path st) as [Hproc _].
  apply bind_inv_Ok in H. destruct H as [collection [st1 [Hcollect H]]].
  apply bind_inv_Ok in H. destruct H as [loc [st2 [Hloop H]]].
  injection H as <- <-. rewrite Hcollect in Hproc. simpl in Hproc.
  apply blueprint_inner_loop_anchors in Hloop.
  rewrite enumerate_values in Hloop.
  destruct Hloop as [new [Hentries [Hpairs [Hkinds Hanchors]]]].
  exists collection, new. rewrite Hcollect. simpl in *.
  split; [reflexivity |]. split; [exact Hentries |].
  split; [exact Hpairs |]. split; [exact Hkinds |].
  destruct (add && negb has).
  - destruct Hanchors as [meta [Hlen Hinj]]. exists meta.
    split; [exact Hlen |]. rewrite Hinj, Hproc. reflexivity.
  - congruence.
Qed.

Lemma process_blueprint_collector_anchors_witness :
  exists collection new,
    (collector_blueprint_default Ref.re_search More.world
       (XPath.eval (members_after "actions") More.actor)
       More.actor_object "Actor/index.html" Ref.start).1
    = Ok collection
    /\ [ Sample.entry "Actor.Jump" "Actor/Jump/1/index.html" "Function";
         Sample.entry "Actor.Jump" "Actor/Jump/2/index.html" "Function" ]
       = [] ++ new
    /\ (fun e => (Some (Entry.name e), Entry.path e)) <$> new
       = filter (fun pair => path_exists More.world pair.2 = true)
                collection
    /\ Forall (fun e => Entry.type e = "Function") new
    /\ exists meta : list nat,
         length meta = length new
         /\ injected
              (trace (process_blueprint_collector More.world
                        "Actor/index.html" More.actor_object true false
                        (More.actor, []) More.actions Ref.start).2)
            = injected (trace Ref.start)
              ++ zip_with
                   (fun uid e =>
                      dash_anchor "blueprint" uid (Some "Function")
                                  (Entry.name e))
                   meta new.
Proof.
  apply (process_blueprint_collector_anchors More.world
           "Actor/index.html" More.actor_object true false (More.actor, [])
           (match (process_blueprint_collector More.world
                     "Actor/index.html" More.actor_object true false
                     (More.actor, []) More.actions Ref.start).1 with
            | Ok page' => page'
            | Raise _ => (More.actor, [])
            end)
           More.actions Ref.start
           (process_blueprint_collector More.world
              "Actor/index.html" More.actor_object true false
              (More.actor, []) More.actions Ref.start).2).
  - apply collector_blueprint_default_quiet.
  - vm_compute. reflexivity.
Defined.

(** The two actions of the sample page get anchors of the same name. *)
Example blueprint_anchors_of_sample :
  Sample.anchor_names
    (process_blueprint_collector More.world
       "Actor/index.html" More.actor_object true false
       (More.actor, []) More.actions Ref.start).2
  = [ Some "//apple_ref/blueprint/Function/Actor.Jump";
      Some "//apple_ref/blueprint/Function/Actor.Jump" ].
Proof. vm_compute. reflexivity. Qed.

(* ===================================================================== *)
(** * The docset processors *)
(* ===================================================================== *)

Lemma mapM_app {A B : Type} (f : A -> M B) (l1 l2 : list A) :
  forall st,
    mapM f (l1 ++ l2) st
    = (bs1 ← mapM f l1; bs2 ← mapM f l2; mret (bs1 ++ bs2)) st.
Proof.
  induction l1 as [| a l1 IH]; intros st; simpl.
  - unfold mbind, M_bind, mret, M_ret.
    destruct (mapM f l2 st) as [[bs | e] st1]; reflexivity.
  - unfold mbind, M_bind, mret, M_ret in *.
    destruct (f a st) as [[b | e] st1]; [| reflexivity].
    rewrite IH.
    destruct (mapM f l1 st1) as [[bs1 | e] st2]; [| reflexivity].
    destruct (mapM f l2 st2) as [[bs2 | e] st3]; reflexivity.
Qed.

Lemma mapM_written (f : string -> M (list Entry.t)) :
  (forall a st r st',
     f a st = (r, st') ->
     match r with
     | Ok _ => exists page,
         written (trace st') = written (trace st) ++ [(a, page)]
     | Raise _ => written (trace st') = written (trace st)
     end) ->
  forall l st rs st',
    mapM f l st = (Ok rs, st') ->
    (written (trace st')).*1 = (written (trace st)).*1 ++ l.
Proof.
  intros Hf l. induction l as [| a l IH]; intros st rs st' H; simpl in H.
  - injection H as _ <-. rewrite app_nil_r. reflexivity.
  - apply bind_inv_Ok in H. destruct H as [b [st1 [Hb H]]].
    apply bind_inv_Ok in H. destruct H as [bs [st2 [Hbs H]]].
    injection H as _ <-. apply Hf in Hb. destruct Hb as [page Hpage].
    rewrite (IH _ _ _ Hbs), Hpage, fmap_app, <- app_assoc. reflexivity.
Qed.

Lemma written_snoc_append (tr : list event) (p : string) :
  written (tr ++ [AppendFile p]) = written tr.
Proof. unfold written. rewrite omap_app. simpl. apply app_nil_r. Qed.

(** X15. When a docset processor returns, every page that the directory
    listing gave has been written back, each once, and no other file has
    been written over (the style sheet is appended to). The pages are
    handed to a pool of workers, so nothing is said about the order. *)
Theorem docset_writes_every_page
  (re_search : string -> string -> search)
  (rewrite_links : (string -> string) -> node -> node) (w : World)
  (api_directory : string) (st : St) (found : gset Entry.t) (st' : St) :
  process_cpp_docset re_search rewrite_links w api_directory st
  = (Ok found, st')
  \/ process_blueprint_docset re_search rewrite_links w api_directory st
     = (Ok found, st') ->
  (written (trace st')).*1
  ≡ₚ (written (trace st)).*1 ++ glob_html w api_directory.
Proof.
  intros [H | H].
  - unfold process_cpp_docset in H.
    apply bind_inv_Ok in H. destruct H as [u [st1 [Happend H]]].
    apply bind_inv_Ok in H. destruct H as [rs [st2 [Hmap H]]].
    apply process_map_Ok in Hmap. destruct Hmap as [_ Hmap].
    injection H as _ <-. unfold emit_event in Happend.
    injection Happend as _ <-.
    apply mapM_written in Hmap.
    + simpl in Hmap. rewrite written_snoc_append in Hmap.
      rewrite Hmap. reflexivity.
    + intros a s r s' Hrun.
      eapply process_cpp_html_file_writes; [| exact Hrun].
      apply COLLECTORS_CPP_quiet.
  - unfold process_blueprint_docset in H.
    apply bind_inv_Ok in H. destruct H as [u [st1 [Happend H]]].
    apply bind_inv_Ok in H. destruct H as [rs [st2 [Hmap H]]].
    apply process_map_Ok in Hmap. destruct Hmap as [_ Hmap].
    injection H as _ <-. unfold emit_event in Happend.
    injection Happend as _ <-.
    apply mapM_written in Hmap.
    + simpl in Hmap. rewrite written_snoc_append in Hmap.
      rewrite Hmap. reflexivity.
    + intros a s r s' Hrun.
      eapply process_blueprint_html_file_writes; [| exact Hrun].
      apply COLLECTORS_BLUEPRINT_quiet.
Qed.

Lemma docset_writes_every_page_witness :
  (written (trace (process_cpp_docset Ref.re_search Ref.rewrite_links
                     (Ref.world_of [("Foo/Bar/1/index.html", Sample.bar);
                                    ("Foo/Bar/2/index.html", Sample.bar)])
                     "." Ref.start).2)).*1
  ≡ₚ (written (trace Ref.start)).*1
     ++ ["Foo/Bar/1/index.html"; "Foo/Bar/2/index.html"].
Proof.
  apply (docset_writes_every_page Ref.re_search Ref.rewrite_links
           (Ref.world_of [("Foo/Bar/1/index.html", Sample.bar);
                          ("Foo/Bar/2/index.html", Sample.bar)])
           "." Ref.start ∅).
  left. vm_compute. reflexivity.
Defined.

(** X16. The first page of the listing whose processing raises decides
    the run of the docset processor: no set of entries is returned, also
    not for the pages that were processed, and the exception of the page
    leaves the processor as the generator of the results hands it on: a
    [StopIteration], which a page without a title raises, as the
    [RuntimeError] of a generator that raised [StopIteration], any other
    exception as it is. *)
Theorem docset_stops_at_first_failure
  (re_search : string -> string -> search)
  (rewrite_links : (string -> string) -> node -> node) (w : World)
  (api_directory : string) (before after : list string) (failing : string)
  (st st1 st2 : St) (results : list (list Entry.t)) (e : exn) :
  glob_html w api_directory = before ++ failing :: after ->
  mapM (fun html_path =>
          process_cpp_html_file re_search rewrite_links w html_path
                                (COLLECTORS_CPP re_search) true)
       before
       {| tick := tick st;
          trace := trace st ++ [AppendFile (css_path api_directory)] |}
  = (Ok results, st1) ->
  process_cpp_html_file re_search rewrite_links w failing
                        (COLLECTORS_CPP re_search) true st1
  = (Raise e, st2) ->
  (process_cpp_docset re_search rewrite_links w api_directory st).1
  = Raise (match e with
           | StopIteration => RuntimeErrorOf "generator raised StopIteration"
           | _ => e
           end).
Proof.
  intros Hglob Hbefore Hfail.
  unfold process_cpp_docset. rewrite Hglob.
  unfold mbind at 1, M_bind at 1, emit_event.
  unfold mbind at 1, M_bind at 1, process_map, default_max_workers.
  destruct (Nat.min 32 (cpu_count w + 4) =? 0)%nat eqn:E;
    [apply Nat.eqb_eq in E; lia |].
  rewrite mapM_app.
  unfold mbind at 1, M_bind at 1. rewrite Hbefore.
  unfold mbind at 1, M_bind at 1. cbn [mapM].
  unfold mbind at 1, M_bind at 1. rewrite Hfail. reflexivity.
Qed.

Lemma docset_stops_at_first_failure_witness :
  (process_cpp_docset Ref.re_search Ref.rewrite_links
     (Ref.world_of [("Foo/Bar/1/index.html", Sample.bar);
                    ("Untitled/index.html", Sample.untitled);
                    ("Foo/Bar/2/index.html", Sample.bar)])
     "." Ref.start).1
  = Raise (RuntimeErrorOf "generator raised StopIteration").
Proof.
  apply (docset_stops_at_first_failure Ref.re_search Ref.rewrite_links
           (Ref.world_of [("Foo/Bar/1/index.html", Sample.bar);
                          ("Untitled/index.html", Sample.untitled);
                          ("Foo/Bar/2/index.html", Sample.bar)])
           "." ["Foo/Bar/1/index.html"] ["Foo/Bar/2/index.html"]
           "Untitled/index.html" Ref.start
           {| tick := 1;
              trace := [AppendFile "./../../Include/CSS/udn_public.css";
                        WriteFile "Foo/Bar/1/index.html" Sample.bar] |}
           {| tick := 2;
              trace := [AppendFile "./../../Include/CSS/udn_public.css";
                        WriteFile "Foo/Bar/1/index.html" Sample.bar] |}
           [[]] StopIteration).
  - reflexivity.
  - vm_compute. reflexivity.
  - vm_compute. reflexivity.
Defined.

(** X26. On a machine with two processors or fewer the Blueprint docset
    processor asks for a pool of no worker, which is refused: the
    processor raises [ValueError] once the style sheet is appended to,
    and no page is read or written. *)
Theorem blueprint_docset_needs_three_processors
  (re_search : string -> string -> search)
  (rewrite_links : (string -> string) -> node -> node) (w : World)
  (api_directory : string) (st : St) :
  cpu_count w <= 2 ->
  process_blueprint_docset re_search rewrite_links w api_directory st
  = (Raise (ValueError "max_workers must be greater than 0"),
     {| tick := tick st;
        trace := trace st ++ [AppendFile (css_path api_directory)] |}).
Proof.
  intros Hcpu. unfold process_blueprint_docset.
  unfold mbind, M_bind, emit_event, process_map.
  replace (cpu_count w - 2) with 0 by lia. reflexivity.
Qed.

Lemma blueprint_docset_needs_three_processors_witness :
  process_blueprint_docset Ref.re_search Ref.rewrite_links
    (Ref.with_processors 2 More.world) "." Ref.start
  = (Raise (ValueError "max_workers must be greater than 0"),
     {| tick := tick Ref.start;
        trace := trace Ref.start ++ [AppendFile (css_path ".")] |}).
Proof.
  apply (blueprint_docset_needs_three_processors Ref.re_search
           Ref.rewrite_links (Ref.with_processors 2 More.world) "."
           Ref.start).
  simpl. lia.
Defined.

(* ===================================================================== *)
(** * Text replacement *)
(* ===================================================================== *)

Lemma string_app_assoc (a b c : string) : (a +:+ b) +:+ c = a +:+ b +:+ c.
Proof.
  induction a as [| x a IH]; [reflexivity |].
  change (String x a +:+ b) with (String x (a +:+ b)).
  change (String x (a +:+ b) +:+ c) with (String x ((a +:+ b) +:+ c)).
  rewrite IH. reflexivity.
Qed.

Lemma prefix_app (old s : string) : String.prefix old (old +:+ s) = true.
Proof.
  induction old as [| c old IH]; simpl; [destruct s; reflexivity |].
  destruct (Ascii.ascii_dec c c); [exact IH | congruence].
Qed.

Lemma prefix_char (c x : ascii) (s : string) :
  String.prefix (String c EmptyString) (String x s)
  = if Ascii.ascii_dec c x then true else false.
Proof. simpl. destruct (Ascii.ascii_dec c x); [destruct s |]; reflexivity. Qed.

Lemma replace_from_skip (old new a s : string) :
  StrOps.replace_from old new (String.length a) (a +:+ s)
  = StrOps.replace_from old new 0 s.
Proof. induction a as [| c a IH]; simpl; [reflexivity | exact IH]. Qed.

Lemma replace_from_prefix (c : ascii) (old new s : string) :
  StrOps.replace_from (String c old) new 0 (String c old +:+ s)
  = new +:+ StrOps.replace_from (String c old) new 0 s.
Proof.
  change (String c old +:+ s) with (String c (old +:+ s)).
  cbn [StrOps.replace_from].
  change (String c (old +:+ s)) with (String c old +:+ s).
  rewrite prefix_app.
  replace (String.length (String c old) - 1) with (String.length old)
    by (cbn [String.length]; lia).
  rewrite replace_from_skip. reflexivity.
Qed.

Lemma replace_from_absent (old new s : string) :
  Str.contains old s = false -> StrOps.replace_from old new 0 s = s.
Proof.
  induction s as [| c s IH]; intros H; [reflexivity |].
  cbn [Str.contains] in H. apply orb_false_iff in H. destruct H as [Hp Hs].
  cbn [StrOps.replace_from]. rewrite Hp, (IH Hs). reflexivity.
Qed.

Lemma contains_char_app (c : ascii) (a b : string) :
  Str.contains (String c EmptyString) (a +:+ b)
  = Str.contains (String c EmptyString) a
    || Str.contains (String c EmptyString) b.
Proof.
  induction a as [| x a IH].
  - reflexivity.
  - change (String x a +:+ b) with (String x (a +:+ b)).
    cbn [Str.contains]. rewrite !prefix_char, IH.
    destruct (Ascii.ascii_dec c x); reflexivity.
Qed.

Lemma replace_from_char_gone (c : ascii) (new s : string) :
  Str.contains (String c EmptyString) new = false ->
  Str.contains (String c EmptyString)
               (StrOps.replace_from (String c EmptyString) new 0 s)
  = false.
Proof.
  intros Hnew. induction s as [| x s IH]; [reflexivity |].
  cbn [StrOps.replace_from String.length Nat.sub]. rewrite prefix_char.
  destruct (Ascii.ascii_dec c x) as [-> | Hne].
  - rewrite contains_char_app, Hnew. exact IH.
  - cbn [Str.contains]. rewrite prefix_char.
    destruct (Ascii.ascii_dec c x); [contradiction |]. exact IH.
Qed.

Lemma removal_keeps_clean (c : ascii) (old : string) :
  forall s skip,
    Str.contains (String c EmptyString) s = false ->
    Str.contains (String c EmptyString)
                 (StrOps.replace_from old EmptyString skip s)
    = false.
Proof.
  induction s as [| x s IH]; intros skip H; [reflexivity |].
  cbn [Str.contains] in H. rewrite prefix_char in H.
  destruct (Ascii.ascii_dec c x); [discriminate H |].
  cbn [orb] in H. cbn [StrOps.replace_from].
  destruct skip as [| skip]; [| apply IH; exact H].
  destruct (String.prefix old (String x s)).
  - apply IH. exact H.
  - cbn [Str.contains]. rewrite prefix_char.
    destruct (Ascii.ascii_dec c x); [contradiction |].
    apply IH. exact H.
Qed.

Lemma between_empty (s : string) : StrOps.between EmptyString s = s.
Proof. induction s as [| c s IH]; simpl; [| rewrite IH]; reflexivity. Qed.

Lemma documents_prefix_clean (documents_directory : string) :
  Str.contains StrOps.backslash documents_directory = false ->
  Database.documents_prefix documents_directory = documents_directory +:+ "/".
Proof.
  intros H. unfold Database.documents_prefix, StrOps.replace, StrOps.backslash.
  apply replace_from_absent. rewrite contains_char_app.
  unfold StrOps.backslash in H. rewrite H. reflexivity.
Qed.

(** X17. When neither the documents directory nor the path uses a
    backslash, the path stored for a page below the documents directory
    is the path relative to that directory, as long as the text of the
    directory with its slash does not occur again in that relative
    path. *)
Theorem stored_path_is_relative (documents_directory relative : string) :
  Str.contains StrOps.backslash documents_directory = false ->
  Str.contains StrOps.backslash relative = false ->
  Str.contains (documents_directory +:+ "/") relative = false ->
  Database.stored_path documents_directory
                       (documents_directory +:+ "/" +:+ relative)
  = relative.
Proof.
  intros HD Hrel Hagain. unfold Database.stored_path.
  rewrite documents_prefix_clean by exact HD.
  assert (Hpath : StrOps.replace StrOps.backslash "/"
                    (documents_directory +:+ "/" +:+ relative)
                  = documents_directory +:+ "/" +:+ relative).
  { unfold StrOps.replace, StrOps.backslash. apply replace_from_absent.
    unfold StrOps.backslash in HD, Hrel.
    rewrite !contains_char_app, HD, Hrel. reflexivity. }
  rewrite Hpath, <- string_app_assoc.
  destruct (documents_directory +:+ "/") as [| c old] eqn:E.
  - destruct documents_directory; discriminate E.
  - unfold StrOps.replace. rewrite replace_from_prefix.
    rewrite replace_from_absent by exact Hagain. reflexivity.
Qed.

Lemma stored_path_is_relative_witness :
  Database.stored_path "Out/Documents"
                       ("Out/Documents" +:+ "/" +:+ "en-US/API/index.html")
  = "en-US/API/index.html".
Proof.
  apply (stored_path_is_relative "Out/Documents" "en-US/API/index.html");
    vm_compute; reflexivity.
Defined.

(** The replacement takes every occurrence of the directory out of a
    path, not only the leading one. *)
Example stored_path_inner_occurrence :
  Database.stored_path "en-US" "en-US/API/en-US/index.html"
  = "API/index.html".
Proof. vm_compute. reflexivity. Qed.

(** X18. No path is stored with a backslash in it. *)
Theorem stored_path_has_no_backslash (documents_directory path : string) :
  Str.contains StrOps.backslash
               (Database.stored_path documents_directory path)
  = false.
Proof.
  unfold Database.stored_path.
  assert (Hclean : Str.contains StrOps.backslash
                     (StrOps.replace StrOps.backslash "/" path) = false).
  { unfold StrOps.replace, StrOps.backslash.
    apply replace_from_char_gone. reflexivity. }
  revert Hclean. generalize (StrOps.replace StrOps.backslash "/" path).
  intros s Hs. unfold StrOps.replace.
  destruct (Database.documents_prefix documents_directory) as [| c old].
  - simpl. rewrite between_empty. exact Hs.
  - apply removal_keeps_clean. exact Hs.
Qed.

(* ===================================================================== *)
(** * The search index *)
(* ===================================================================== *)

Lemma leb_trans (a b c : string) :
  String.leb a b = true -> String.leb b c = true -> String.leb a c = true.
Proof.
  unfold String.leb. revert b c.
  induction a as [| x a IH]; intros [| y b] [| z c]; simpl; try congruence.
  unfold Ascii.compare.
  destruct (N.compare_spec (N_of_ascii x) (N_of_ascii y)),
           (N.compare_spec (N_of_ascii y) (N_of_ascii z)),
           (N.compare_spec (N_of_ascii x) (N_of_ascii z));
    try lia; try congruence.
  apply IH.
Qed.

Lemma insert_by_name_perm (e : Entry.t) (l : list Entry.t) :
  Database.insert_by_name e l ≡ₚ e :: l.
Proof.
  induction l as [| y l IH]; simpl; [reflexivity |].
  destruct (String.leb (Entry.name e) (Entry.name y)); [reflexivity |].
  rewrite IH. apply Permutation_swap.
Qed.

Lemma sorted_by_name_perm (l : list Entry.t) :
  Database.sorted_by_name l ≡ₚ l.
Proof.
  induction l as [| e l IH]; simpl; [reflexivity |].
  rewrite insert_by_name_perm, IH. reflexivity.
Qed.

Lemma insert_by_name_sorted (e : Entry.t) (l : list Entry.t) :
  StronglySorted (fun a b => String.leb (Entry.name a) (Entry.name b) = true) l ->
  StronglySorted (fun a b => String.leb (Entry.name a) (Entry.name b) = true)
                 (Database.insert_by_name e l).
Proof.
  induction l as [| y l IH]; intros H; simpl.
  - constructor; constructor.
  - inversion H as [| ? ? Hl Hy]; subst.
    destruct (String.leb (Entry.name e) (Entry.name y)) eqn:E.
    + constructor; [exact H |]. constructor; [exact E |].
      eapply Forall_impl; [exact Hy |]. intros z Hz.
      eapply leb_trans; [exact E | exact Hz].
    + constructor; [apply IH; exact Hl |].
      rewrite insert_by_name_perm. constructor; [| exact Hy].
      destruct (String.leb_total (Entry.name e) (Entry.name y)); congruence.
Qed.

Lemma sorted_by_name_sorted (l : list Entry.t) :
  StronglySorted (fun a b => String.leb (Entry.name a) (Entry.name b) = true)
                 (Database.sorted_by_name l).
Proof.
  induction l as [| e l IH]; simpl; [constructor |].
  apply insert_by_name_sorted. exact IH.
Qed.

Lemma max_id_snoc (rs : list Database.row) (r : Database.row) :
  Database.next_id (rs ++ [r])
  = S (Nat.max (foldr Nat.max 0 (Database.id <$> rs)) (Database.id r)).
Proof.
  unfold Database.next_id. f_equal. rewrite fmap_app. simpl.
  induction (Database.id <$> rs) as [| x xs IH]; simpl; [lia |].
  rewrite IH. lia.
Qed.

Lemma insert_or_ignore_cases (d : Database.t) (n ty p : string) :
  (Database.unique d = true
   /\ (n, ty, p) ∈ Database.key <$> Database.rows d
   /\ Database.insert_or_ignore d n ty p = d)
  \/ ((Database.unique d = true ->
       (n, ty, p) ∉ Database.key <$> Database.rows d)
      /\ Database.insert_or_ignore d n ty p
         = Database.mk
             (Database.rows d
              ++ [Database.mk_row (Database.next_id (Database.rows d)) n ty p])
             (Database.unique d)).
Proof.
  unfold Database.insert_or_ignore.
  destruct (Database.unique d) eqn:U; simpl.
  - case_bool_decide as Hin.
    + left. repeat split; assumption.
    + right. split; [intros _; exact Hin | reflexivity].
  - right. split; [intros; discriminate | reflexivity].
Qed.

(** What a run of inserts does to a table. *)
Lemma store_all (documents_directory : string) (l : list Entry.t) :
  forall d : Database.t,
    exists new : list Database.row,
      Database.rows (foldl (Database.store documents_directory) d l)
      = Database.rows d ++ new
      /\ Database.unique (foldl (Database.store documents_directory) d l)
         = Database.unique d
      /\ Database.key <$> new
         `sublist_of` Database.stored_key documents_directory <$> l
      /\ (forall k,
            k ∈ Database.stored_key documents_directory <$> l ->
            k ∈ Database.key <$> (Database.rows d ++ new))
      /\ (Database.unique d = true ->
          NoDup (Database.key <$> Database.rows d) ->
          NoDup (Database.key <$> (Database.rows d ++ new)))
      /\ Database.id <$> new
         = seq (Database.next_id (Database.rows d)) (length new)
      /\ (Database.unique d = false ->
          Database.key <$> new
          = Database.stored_key documents_directory <$> l).
Proof.
  induction l as [| e l IH]; intros d.
  - exists []. rewrite app_nil_r. simpl.
    repeat split; try reflexivity; try done.
    intros k Hk. inversion Hk.
  - cbn [foldl].
    destruct (insert_or_ignore_cases d (Entry.name e) (Entry.type e)
                (Database.stored_path documents_directory (Entry.path e)))
      as [[U [Hthere Hsame]] | [Hfresh Hadd]];
      fold (Database.store documents_directory d e) in Hsame || idtac;
      fold (Database.store documents_directory d e) in Hadd || idtac.
    + rewrite Hsame. destruct (IH d)
        as [new [Hrows [Hunique [Hsub [Hin [Hnodup [Hids Hall]]]]]]].
      clear IH. exists new.
      split; [exact Hrows |]. split; [exact Hunique |].
      split; [rewrite fmap_cons; apply sublist_cons; exact Hsub |].
      split; [| split; [exact Hnodup |]].
      * intros k Hk. rewrite fmap_cons in Hk.
        apply elem_of_cons in Hk. destruct Hk as [-> | Hk].
        -- rewrite fmap_app. apply elem_of_app. left. exact Hthere.
        -- apply Hin. exact Hk.
      * split; [exact Hids | intros U'; congruence].
    + rewrite Hadd.
      set (r := Database.mk_row (Database.next_id (Database.rows d))
                  (Entry.name e) (Entry.type e)
                  (Database.stored_path documents_directory (Entry.path e)))
        in *.
      destruct (IH (Database.mk (Database.rows d ++ [r]) (Database.unique d)))
        as [new [Hrows [Hunique [Hsub [Hin [Hnodup [Hids Hall]]]]]]].
      clear IH. cbn [Database.rows Database.unique] in *.
      exists (r :: new).
      split; [rewrite Hrows, <- app_assoc; reflexivity |].
      split; [exact Hunique |].
      split; [rewrite !fmap_cons; apply sublist_skip; exact Hsub |].
      split; [| split; [| split]].
      * intros k Hk. rewrite fmap_cons in Hk.
        apply elem_of_cons in Hk. destruct Hk as [-> | Hk].
        -- rewrite fmap_app, fmap_cons. apply elem_of_app. right.
           apply elem_of_cons. left. reflexivity.
        -- specialize (Hin k Hk). rewrite <- app_assoc in Hin. exact Hin.
      * intros U Hd. rewrite <- app_assoc in Hnodup. apply Hnodup; [exact U |].
        rewrite fmap_app. apply NoDup_app. split; [exact Hd |].
        split; [| simpl; apply NoDup_singleton].
        intros k Hk Hk'. simpl in Hk'. apply list_elem_of_singleton in Hk'.
        subst k. exact (Hfresh U Hk).
      * rewrite fmap_cons, Hids, max_id_snoc. cbn [length seq].
        replace (S (Nat.max (foldr Nat.max 0
                               (Database.id <$> Database.rows d))
                            (Database.id r)))
          with (S (Database.next_id (Database.rows d)))
          by (unfold r; cbn [Database.id]; unfold Database.next_id; lia).
        reflexivity.
      * intros U. rewrite !fmap_cons, (Hall U). reflexivity.
Qed.

Lemma ignored_again (documents_directory : string) (l : list Entry.t) :
  forall d : Database.t,
    Database.unique d = true ->
    (forall e, e ∈ l ->
               Database.stored_key documents_directory e
               ∈ Database.key <$> Database.rows d) ->
    foldl (Database.store documents_directory) d l = d.
Proof.
  induction l as [| e l IH]; intros d U Hin; [reflexivity |].
  cbn [foldl].
  assert (Hsame : Database.store documents_directory d e = d).
  { unfold Database.store, Database.insert_or_ignore. rewrite U. simpl.
    rewrite bool_decide_eq_true_2; [reflexivity |].
    apply (Hin e). apply elem_of_cons. left. reflexivity. }
  rewrite Hsame. apply IH; [exact U |].
  intros e' He'. apply Hin. apply elem_of_cons. right. exact He'.
Qed.

Lemma sublist_strongly_sorted {A : Type} (R : A -> A -> Prop) (l1 l2 : list A) :
  l1 `sublist_of` l2 -> StronglySorted R l2 -> StronglySorted R l1.
Proof.
  induction 1 as [| x l1 l2 Hsub IH | x l1 l2 Hsub IH]; intros H.
  - constructor.
  - inversion H as [| ? ? Hl Hx]; subst. constructor; [apply IH; exact Hl |].
    apply Forall_forall. intros y Hy. rewrite Forall_forall in Hx.
    apply Hx. eapply elem_of_sublist; [exact Hy | exact Hsub].
  - inversion H; subst. apply IH. assumption.
Qed.

Lemma entries_are_stored (documents_directory : string)
  (entries : list Entry.t) (db : option Database.t)
  (k : string * string * string) :
  k ∈ Database.stored_key documents_directory <$> entries ->
  k ∈ Database.key
      <$> Database.rows
            (Database.generate_database documents_directory entries db).
Proof.
  intros H. unfold Database.generate_database.
  destruct (store_all documents_directory (Database.sorted_by_name entries)
                      (Database.create db))
    as [new [Hrows [_ [_ [Hin _]]]]].
  rewrite Hrows. apply Hin.
  rewrite (fmap_Permutation _ _ _ (sorted_by_name_perm entries)). exact H.
Qed.

Lemma sorted_names (l : list Entry.t) :
  StronglySorted (fun a b => String.leb (Entry.name a) (Entry.name b) = true) l ->
  StronglySorted (fun a b => String.leb a b = true) (Entry.name <$> l).
Proof.
  induction 1 as [| e l Hl IH He]; [constructor |].
  rewrite fmap_cons. constructor; [exact IH |].
  apply Forall_fmap. exact He.
Qed.

Lemma sublist_same_length {A : Type} (l1 l2 : list A) :
  l1 `sublist_of` l2 -> length l1 = length l2 -> l1 = l2.
Proof.
  induction 1 as [| x l1 l2 Hsub IH | x l1 l2 Hsub IH]; intros Hlen.
  - reflexivity.
  - f_equal. apply IH. simpl in Hlen. lia.
  - apply sublist_length in Hsub. simpl in Hlen. lia.
Qed.

(** X19. [generate_database] deletes and changes no row: the rows that
    the table had stay where they are, the unique index stays as it was,
    and new rows go to the end, at most one for an entry. As long as the
    ids stay within the range of SQLite (the largest id of the table and
    the number of entries together do not pass the largest row id), the
    ids of the new rows are the next ones, one by one, above the largest
    id that the table had. *)
Theorem generate_database_keeps_rows (documents_directory : string)
  (entries : list Entry.t) (db : option Database.t) :
  (Z.of_nat (Database.next_id (Database.rows (Database.create db)))
   + Z.of_nat (length entries)
   <= Database.max_rowid + 1)%Z ->
  exists new : list Database.row,
    Database.rows
      (Database.generate_database documents_directory entries db)
    = Database.rows (Database.create db) ++ new
    /\ Database.unique
         (Database.generate_database documents_directory entries db)
       = Database.unique (Database.create db)
    /\ Database.id <$> new
       = seq (Database.next_id (Database.rows (Database.create db)))
             (length new)
    /\ length new <= length entries
    /\ Forall (fun r => (Z.of_nat (Database.id r) <= Database.max_rowid)%Z)
              new.
Proof.
  intros Hrange. unfold Database.generate_database.
  destruct (store_all documents_directory (Database.sorted_by_name entries)
                      (Database.create db))
    as [new [Hrows [Hunique [Hsub [_ [_ [Hids _]]]]]]].
  assert (Hlen : length new <= length entries).
  { apply sublist_length in Hsub. rewrite !length_fmap in Hsub.
    rewrite (Permutation_length (sorted_by_name_perm entries)) in Hsub.
    exact Hsub. }
  exists new. repeat split; try assumption.
  apply Forall_forall. intros r Hr.
  assert (Hid : Database.id r ∈ Database.id <$> new)
    by (apply list_elem_of_fmap; exists r; split; [reflexivity | exact Hr]).
  rewrite Hids in Hid. apply elem_of_seq in Hid. lia.
Qed.

Lemma generate_database_keeps_rows_witness :
  exists new : list Database.row,
    Database.rows
      (Database.generate_database "Out"
         [ Entry.mk "Foo" "Out/Foo/index.html" "Class";
           Entry.mk "Bar" "Out/Bar/index.html" "Struct" ]
         (Some (Database.mk [Database.mk_row 7 "Foo" "Class" "Foo/index.html"]
                            true)))
    = Database.rows
        (Database.create
           (Some (Database.mk
                    [Database.mk_row 7 "Foo" "Class" "Foo/index.html"] true)))
      ++ new
    /\ Database.unique
         (Database.generate_database "Out"
            [ Entry.mk "Foo" "Out/Foo/index.html" "Class";
              Entry.mk "Bar" "Out/Bar/index.html" "Struct" ]
            (Some (Database.mk
                     [Database.mk_row 7 "Foo" "Class" "Foo/index.html"] true)))
       = Database.unique
           (Database.create
              (Some (Database.mk
                       [Database.mk_row 7 "Foo" "Class" "Foo/index.html"]
                       true)))
    /\ Database.id <$> new
       = seq (Database.next_id
                (Database.rows
                   (Database.create
                      (Some (Database.mk
                               [Database.mk_row 7 "Foo" "Class"
                                                "Foo/index.html"] true)))))
             (length new)
    /\ length new <= 2
    /\ Forall (fun r => (Z.of_nat (Database.id r) <= Database.max_rowid)%Z)
              new.
Proof.
  apply (generate_database_keeps_rows "Out"
           [ Entry.mk "Foo" "Out/Foo/index.html" "Class";
             Entry.mk "Bar" "Out/Bar/index.html" "Struct" ]
           (Some (Database.mk
                    [Database.mk_row 7 "Foo" "Class" "Foo/index.html"] true))).
  vm_compute. discriminate.
Defined.

(** X20. After [generate_database] the table holds, as keys
    (name, type, path), what it held before and the key of every entry,
    with its path as it is stored, and nothing else. *)
Theorem generate_database_contents (documents_directory : string)
  (entries : list Entry.t) (db : option Database.t)
  (k : string * string * string) :
  k ∈ Database.key
      <$> Database.rows
            (Database.generate_database documents_directory entries db)
  <-> k ∈ Database.key <$> Database.rows (Database.create db)
      \/ k ∈ Database.stored_key documents_directory <$> entries.
Proof.
  unfold Database.generate_database.
  destruct (store_all documents_directory (Database.sorted_by_name entries)
                      (Database.create db))
    as [new [Hrows [_ [Hsub [Hin _]]]]].
  rewrite Hrows.
  assert (Hperm : Database.stored_key documents_directory
                    <$> Database.sorted_by_name entries
                  ≡ₚ Database.stored_key documents_directory <$> entries)
    by (apply fmap_Permutation, sorted_by_name_perm).
  split.
  - rewrite fmap_app. intros H. apply elem_of_app in H.
    destruct H as [H | H]; [left; exact H | right].
    rewrite <- Hperm. eapply elem_of_sublist; [exact H | exact Hsub].
  - intros [H | H].
    + rewrite fmap_app. apply elem_of_app. left. exact H.
    + apply Hin. rewrite Hperm. exact H.
Qed.

(** X21. With the unique index, [generate_database] stores no key
    twice, however many entries share a key once their paths are
    rewritten. *)
Theorem generate_database_no_duplicates (documents_directory : string)
  (entries : list Entry.t) (db : option Database.t) :
  Database.unique (Database.create db) = true ->
  NoDup (Database.key <$> Database.rows (Database.create db)) ->
  NoDup (Database.key
           <$> Database.rows
                 (Database.generate_database documents_directory entries db)).
Proof.
  intros U Hd. unfold Database.generate_database.
  destruct (store_all documents_directory (Database.sorted_by_name entries)
                      (Database.create db))
    as [new [Hrows [_ [_ [_ [Hnodup _]]]]]].
  rewrite Hrows. apply Hnodup; assumption.
Qed.

Lemma generate_database_no_duplicates_witness :
  NoDup (Database.key
           <$> Database.rows
                 (Database.generate_database "Out"
                    [Entry.mk "Foo" "Out/Foo/index.html" "Class";
                     Entry.mk "Foo" "Out\Foo/index.html" "Class"]
                    None)).
Proof.
  apply (generate_database_no_duplicates "Out"
           [Entry.mk "Foo" "Out/Foo/index.html" "Class";
            Entry.mk "Foo" "Out\Foo/index.html" "Class"] None).
  - reflexivity.
  - simpl. apply NoDup_nil_2.
Defined.

(** X22. Running [generate_database] again on its own result, with the
    same entries or some of them, leaves the table as it is, as long as
    the table has its unique index. *)
Theorem generate_database_again (documents_directory : string)
  (entries again : list Entry.t) (db : option Database.t) :
  Database.unique (Database.create db) = true ->
  again ⊆ entries ->
  Database.generate_database documents_directory again
    (Some (Database.generate_database documents_directory entries db))
  = Database.generate_database documents_directory entries db.
Proof.
  intros U Hsub.
  unfold Database.generate_database at 1. cbn [Database.create].
  apply ignored_again.
  - unfold Database.generate_database.
    destruct (store_all documents_directory (Database.sorted_by_name entries)
                        (Database.create db))
      as [new [_ [Hunique _]]].
    rewrite Hunique. exact U.
  - intros e He.
    apply (entries_are_stored documents_directory entries db).
    apply list_elem_of_fmap. exists e. split; [reflexivity |].
    apply Hsub. rewrite <- (sorted_by_name_perm again). exact He.
Qed.

Lemma generate_database_again_witness :
  Database.generate_database "Out"
    [Entry.mk "Foo" "Out/Foo/index.html" "Class"]
    (Some (Database.generate_database "Out"
             [Entry.mk "Foo" "Out/Foo/index.html" "Class";
              Entry.mk "Bar" "Out/Bar/index.html" "Struct"]
             None))
  = Database.generate_database "Out"
      [Entry.mk "Foo" "Out/Foo/index.html" "Class";
       Entry.mk "Bar" "Out/Bar/index.html" "Struct"]
      None.
Proof.
  apply (generate_database_again "Out"
           [Entry.mk "Foo" "Out/Foo/index.html" "Class";
            Entry.mk "Bar" "Out/Bar/index.html" "Struct"]
           [Entry.mk "Foo" "Out/Foo/index.html" "Class"] None).
  - reflexivity.
  - intros e He. apply elem_of_cons. left.
    apply list_elem_of_singleton in He. exact He.
Defined.

(** Without the unique index, which a table made by another program may
    lack, every run stores every entry once more. *)
Example rows_pile_up_without_index :
  Database.key
    <$> Database.rows
          (Database.generate_database "Out"
             [Entry.mk "Foo" "Out/Foo/index.html" "Class"]
             (Some (Database.mk [Database.mk_row 7 "Foo" "Class"
                                                 "Foo/index.html"]
                                false)))
  = [("Foo", "Class", "Foo/index.html"); ("Foo", "Class", "Foo/index.html")].
Proof. vm_compute. reflexivity. Qed.

Lemma fresh_database (documents_directory : string)
  (entries : list Entry.t) :
  let rows :=
    Database.rows
      (Database.generate_database documents_directory entries None) in
  Database.id <$> rows = seq 1 (length rows)
  /\ Database.key <$> rows
     `sublist_of` Database.stored_key documents_directory
                  <$> Database.sorted_by_name entries
  /\ NoDup (Database.key <$> rows)
  /\ (forall k,
        k ∈ Database.stored_key documents_directory
            <$> Database.sorted_by_name entries ->
        k ∈ Database.key <$> rows).
Proof.
  cbv zeta. unfold Database.generate_database.
  destruct (store_all documents_directory (Database.sorted_by_name entries)
                      (Database.create None))
    as [new [Hrows [_ [Hsub [Hin [Hnodup [Hids _]]]]]]].
  rewrite Hrows. cbn [Database.create Database.rows app] in *.
  split; [exact Hids |]. split; [exact Hsub |].
  split; [| exact Hin].
  apply (Hnodup eq_refl). apply NoDup_nil_2.
Qed.

(** X23. In a database made anew the rows are in the order of their
    names, the ids are 1, 2, 3 and so on, and the keys of the rows are
    keys of the entries, in the order of the sorted entries. *)
Theorem fresh_database_is_sorted (documents_directory : string)
  (entries : list Entry.t) :
  StronglySorted
    (fun a b => String.leb a b = true)
    (Database.name
       <$> Database.rows
             (Database.generate_database documents_directory entries None))
  /\ Database.id
       <$> Database.rows
             (Database.generate_database documents_directory entries None)
     = seq 1 (length
                (Database.rows
                   (Database.generate_database documents_directory entries
                                               None)))
  /\ Database.key
       <$> Database.rows
             (Database.generate_database documents_directory entries None)
     `sublist_of` Database.stored_key documents_directory
                  <$> Database.sorted_by_name entries.
Proof.
  destruct (fresh_database documents_directory entries)
    as [Hids [Hsub _]].
  split; [| split; [exact Hids | exact Hsub]].
  assert (Hnames :
            Database.name
              <$> Database.rows
                    (Database.generate_database documents_directory entries
                                                None)
            `sublist_of` Entry.name <$> Database.sorted_by_name entries).
  { replace (Database.name
               <$> Database.rows
                     (Database.generate_database documents_directory entries
                                                 None))
      with ((fun k : string * string * string => k.1.1)
              <$> (Database.key
                     <$> Database.rows
                           (Database.generate_database documents_directory
                                                       entries None)))
      by (rewrite <- list_fmap_compose; reflexivity).
    replace (Entry.name <$> Database.sorted_by_name entries)
      with ((fun k : string * string * string => k.1.1)
              <$> (Database.stored_key documents_directory
                     <$> Database.sorted_by_name entries))
      by (rewrite <- list_fmap_compose; reflexivity).
    apply fmap_sublist. exact Hsub. }
  eapply sublist_strongly_sorted; [exact Hnames |].
  apply sorted_names, sorted_by_name_sorted.
Qed.

(** X24. When no two entries have the same key once their paths are
    rewritten, a database made anew has one row for every entry: the
    keys of the rows are the keys of the entries sorted by name, entries
    of the same name in the order in which they came. *)
Theorem fresh_database_rows (documents_directory : string)
  (entries : list Entry.t) :
  NoDup (Database.stored_key documents_directory <$> entries) ->
  Database.key
    <$> Database.rows
          (Database.generate_database documents_directory entries None)
  = Database.stored_key documents_directory
    <$> Database.sorted_by_name entries.
Proof.
  intros Hd.
  destruct (fresh_database documents_directory entries)
    as [_ [Hsub [Hnodup Hin]]].
  assert (Hd' : NoDup (Database.stored_key documents_directory
                         <$> Database.sorted_by_name entries)).
  { rewrite (fmap_Permutation _ _ _ (sorted_by_name_perm entries)).
    exact Hd. }
  apply sublist_same_length; [exact Hsub |].
  apply Permutation_length.
  apply NoDup_Permutation; [exact Hnodup | exact Hd' |].
  intros k. split.
  - intros Hk. eapply elem_of_sublist; [exact Hk | exact Hsub].
  - apply Hin.
Qed.

Lemma fresh_database_rows_witness :
  Database.key
    <$> Database.rows
          (Database.generate_database "Out"
             [Entry.mk "Foo" "Out/Foo/index.html" "Class";
              Entry.mk "Bar" "Out/Bar/2/index.html" "Function";
              Entry.mk "Bar" "Out/Bar/1/index.html" "Function"]
             None)
  = Database.stored_key "Out"
    <$> Database.sorted_by_name
          [Entry.mk "Foo" "Out/Foo/index.html" "Class";
           Entry.mk "Bar" "Out/Bar/2/index.html" "Function";
           Entry.mk "Bar" "Out/Bar/1/index.html" "Function"].
Proof.
  apply (fresh_database_rows "Out"
           [Entry.mk "Foo" "Out/Foo/index.html" "Class";
            Entry.mk "Bar" "Out/Bar/2/index.html" "Function";
            Entry.mk "Bar" "Out/Bar/1/index.html" "Function"]).
  apply (bool_decide_unpack _). vm_compute. exact I.
Defined.

(* ===================================================================== *)
(** * The manifests of the flavours *)
(* ===================================================================== *)

(** X25. Whatever the archive is called, [generate_docset] builds a
    manifest only when the lower-cased stem of the name holds
    [blueprint] or [cpp]; [blueprint] wins when both are there; the
    manifest is then one of two fixed lists, and only the C++ one has an
    index page. The index page of the second branch, with its misspelt
    directory, is in no manifest. *)
Theorem generate_docset_mapping_flavours (input : string) :
  let stem := Str.lower (PathLib.stem input) in
  generate_docset_mapping input
  = if Str.contains "blueprint" stem
    then Some (fixed_manifest
                 "UnrealEngineBlueprint.docset"
                 "Unreal Engine Blueprint Docset"
                 "https://docs.unrealengine.com/en-US/BlueprintAPI")
    else if Str.contains "cpp" stem
    then Some (fixed_manifest
                 "UnrealEngineCpp.docset"
                 "Unreal Engine C++ Docset"
                 "https://docs.unrealengine.com/en-US/API"
               ++ [("dashIndexFilePath", "string",
                    Some "en-US/API/index.html")])
    else None.
Proof.
  cbv zeta. unfold generate_docset_mapping, docset_type_of.
  destruct (Str.contains "blueprint" (Str.lower (PathLib.stem input)));
    [reflexivity |].
  destruct (Str.contains "cpp" (Str.lower (PathLib.stem input)));
    reflexivity.
Qed.

(** An archive whose name holds both words is taken for the Blueprint
    flavour. *)
Example both_words_is_blueprint :
  docset_type_of "Downloads/UnrealEngineCppAndBlueprintAPI-HTML.tgz"
  = Some "blueprint".
Proof. vm_compute. reflexivity. Qed.
